(** * generate_resume.py: escaping, link translation, section formatters
      and template filling, embedded as pure functions on strings.

    Python [str] values are modelled by [string]; a character is an [ascii]
    (the code only ever compares characters against ASCII literals).  The
    string literals below are the Python literals after Python's own
    backslash unescaping: Python ['\\&'] is the two characters [\&], and
    Python ['\\\\&'] is the three characters [\\&].

    The resume document is a record that has every key the code reads
    unconditionally (a missing one is a [KeyError] in the code and no value
    of the record type here); reading the template and writing the result
    are left out: [generate_latex_resume] goes from the template text to
    the filled text. *)

From Stdlib Require Import String Ascii List Bool Arith Lia DecimalString.
Import ListNotations.

Open Scope list_scope.
Open Scope string_scope.

(** ** Python string primitives *)

Module PyStr.

(** [s.startswith(p)] *)
Fixpoint startswith (p s : string) : bool :=
  match p, s with
  | EmptyString, _ => true
  | String _ _, EmptyString => false
  | String a p', String b s' => Ascii.eqb a b && startswith p' s'
  end.

(** [p in s] *)
Fixpoint contains (p s : string) : bool :=
  startswith p s ||
  match s with
  | EmptyString => false
  | String _ s' => contains p s'
  end.

(** [c in s] for a single character [c] *)
Fixpoint mem_char (c : ascii) (s : string) : bool :=
  match s with
  | EmptyString => false
  | String a s' => Ascii.eqb c a || mem_char c s'
  end.

(** [s[n:]] *)
Fixpoint drop (n : nat) (s : string) : string :=
  match n, s with
  | O, _ => s
  | S _, EmptyString => EmptyString
  | S k, String _ s' => drop k s'
  end.

(** [s.replace(old, new)] for a non-empty [old]: scan left to right; at a
    position where [old] starts, emit [new] and jump over [old]; elsewhere
    copy the character.  [skip] counts the characters of a matched [old]
    that are still to be jumped over. *)
Fixpoint replace_from (old new : string) (skip : nat) (s : string) : string :=
  match s with
  | EmptyString => EmptyString
  | String c s' =>
      match skip with
      | S k => replace_from old new k s'
      | O =>
          if startswith old s
          then new ++ replace_from old new (String.length old - 1) s'
          else String c (replace_from old new 0 s')
      end
  end.

(** [s.replace("", new)]: [new] before every character and at the end. *)
Fixpoint replace_empty (new s : string) : string :=
  match s with
  | EmptyString => new
  | String c s' => new ++ String c (replace_empty new s')
  end.

Definition replace (old new s : string) : string :=
  match old with
  | EmptyString => replace_empty new s
  | String _ _ => replace_from old new 0 s
  end.


(** [sep.join(parts)] *)
Definition join (sep : string) (parts : list string) : string :=
  String.concat sep parts.

(** [s.split(sep)] for a non-empty [sep]; the result is never empty. *)
Fixpoint split_from (sep : string) (skip : nat) (s : string) : list string :=
  match s with
  | EmptyString => [EmptyString]
  | String c s' =>
      match skip with
      | S k => split_from sep k s'
      | O =>
          if startswith sep s
          then EmptyString :: split_from sep (String.length sep - 1) s'
          else match split_from sep 0 s' with
               | p :: ps => String c p :: ps
               | [] => [String c EmptyString]
               end
      end
  end.

(** [s.split(sep)]; [None] is the [ValueError] of an empty separator. *)
Definition split (sep s : string) : option (list string) :=
  match sep with
  | EmptyString => None
  | String _ _ => Some (split_from sep 0 s)
  end.

(** [parts[-1]]; [None] is the [IndexError] of an empty list. *)
Fixpoint index_last (parts : list string) : option string :=
  match parts with
  | [] => None
  | [p] => Some p
  | _ :: ps => index_last ps
  end.

(** [c.isspace()] on the code points below 256. *)
Definition isspace (c : ascii) : bool :=
  let n := nat_of_ascii c in
  (((9 <=? n) && (n <=? 13)) || ((28 <=? n) && (n <=? 32))
   || (n =? 133) || (n =? 160))%nat.

Fixpoint lstrip (s : string) : string :=
  match s with
  | EmptyString => EmptyString
  | String c s' => if isspace c then lstrip s' else s
  end.

Fixpoint rstrip (s : string) : string :=
  match s with
  | EmptyString => EmptyString
  | String c s' =>
      match rstrip s' with
      | EmptyString => if isspace c then EmptyString else String c EmptyString
      | r => String c r
      end
  end.

(** [s.strip()] *)
Definition strip (s : string) : string := rstrip (lstrip s).

(** [str(i)] for a non-negative integer. *)
Definition str_of_nat (i : nat) : string :=
  NilEmpty.string_of_uint (Nat.to_uint i).

(** [enumerate(l)] *)
Definition enumerate {A : Type} (l : list A) : list (nat * A) :=
  combine (seq 0 (List.length l)) l.

End PyStr.

Import PyStr.

(** ** The three regular expressions of [format_experience]

    Each pattern is a fixed sequence of literals and of runs over a negated
    one-character class whose excluded character is the literal that must
    follow the run, so backtracking never finds a second way to match at a
    position: a greedy run is the maximal one, a lazy run stops at the first
    place where the following literal starts.  A matcher looks at the text
    from one position on and returns what the match captures. *)

Module Re.

(** the literal [p] at the head of [s]: what follows it *)
Fixpoint after (p s : string) : option string :=
  match p with
  | EmptyString => Some s
  | String a p' =>
      match s with
      | EmptyString => None
      | String b s' => if Ascii.eqb a b then after p' s' else None
      end
  end.

(** the class [[^c]] *)
Definition not_char (c a : ascii) : bool := negb (Ascii.eqb a c).

(** greedy run over a class: the maximal run and what follows it *)
Fixpoint span (cls : ascii -> bool) (s : string) : string * string :=
  match s with
  | EmptyString => (EmptyString, EmptyString)
  | String a s' =>
      if cls a
      then let (run, rest) := span cls s' in (String a run, rest)
      else (EmptyString, s)
  end.

(** lazy run [[^stop]*?] followed by the literal [lit]: the run and what
    follows the literal *)
Fixpoint lazy_until (stop : ascii) (lit : string) (s : string)
  : option (string * string) :=
  match after lit s with
  | Some rest => Some (EmptyString, rest)
  | None =>
      match s with
      | EmptyString => None
      | String a s' =>
          if Ascii.eqb a stop then None
          else match lazy_until stop lit s' with
               | Some (run, rest) => Some (String a run, rest)
               | None => None
               end
      end
  end.

Definition nonempty (s : string) : bool :=
  match s with EmptyString => false | String _ _ => true end.

(** [\[([^\]]+)\]\(([^)]+)\)] at the head of [s]: groups 1 and 2 *)
Definition link_match (s : string) : option (string * string) :=
  match after "[" s with
  | None => None
  | Some s1 =>
      let (text, s2) := span (not_char "]") s1 in
      if nonempty text then
        match after "](" s2 with
        | None => None
        | Some s3 =>
            let (url, s4) := span (not_char ")") s3 in
            if nonempty url then
              match after ")" s4 with
              | None => None
              | Some _ => Some (text, url)
              end
            else None
        end
      else None
  end.

(** [\\href\{([^}]*?)\\&([^}]*?)\}] at the head of [s]: groups 1 and 2 *)
Definition href_amp_match (s : string) : option (string * string) :=
  match after "\href{" s with
  | None => None
  | Some s1 =>
      match lazy_until "}" "\&" s1 with
      | None => None
      | Some (g1, s2) =>
          let (g2, s3) := span (not_char "}") s2 in
          match after "}" s3 with
          | None => None
          | Some _ => Some (g1, g2)
          end
      end
  end.

(** [\\href\{[^}]*\}\{[^}]*\}] at the head of [s]: the two brace bodies *)
Definition href_cmd_match (s : string) : option (string * string) :=
  match after "\href{" s with
  | None => None
  | Some s1 =>
      let (a, s2) := span (not_char "}") s1 in
      match after "}{" s2 with
      | None => None
      | Some s3 =>
          let (b, s4) := span (not_char "}") s3 in
          match after "}" s4 with
          | None => None
          | Some _ => Some (a, b)
          end
      end
  end.

(** [re.sub]: scan left to right; [m] gives, for a match at the head, the
    replacement text and the length of the match (at least 1 for the
    patterns above); the scan resumes after the match. *)
Fixpoint sub_from (m : string -> option (string * nat)) (skip : nat)
  (s : string) : string :=
  match s with
  | EmptyString => EmptyString
  | String c s' =>
      match skip with
      | S k => sub_from m k s'
      | O =>
          match m s with
          | Some (repl, n) => repl ++ sub_from m (n - 1) s'
          | None => String c (sub_from m 0 s')
          end
      end
  end.

Definition sub (m : string -> option (string * nat)) (s : string) : string :=
  sub_from m 0 s.

(** [re.findall] for a pattern without groups: the matched texts. *)
Fixpoint findall_from (m : string -> option string) (skip : nat)
  (s : string) : list string :=
  match s with
  | EmptyString => []
  | String c s' =>
      match skip with
      | S k => findall_from m k s'
      | O =>
          match m s with
          | Some matched =>
              matched :: findall_from m (String.length matched - 1) s'
          | None => findall_from m 0 s'
          end
      end
  end.

Definition findall (m : string -> option string) (s : string) : list string :=
  findall_from m 0 s.

End Re.

(** ** Escaper *)

(** The [replacements] dict of [escape_latex], in insertion order. *)
Definition replacements : list (string * string) :=
  [ ("%", "\%");
    ("$", "\$");
    ("#", "\#");
    ("_", "\_");
    ("{", "\{");
    ("}", "\}");
    ("~", "\textasciitilde{}");
    ("^", "\textasciicircum{}") ].

(** The loop [for char, replacement in replacements.items()]. *)
Definition apply_replacements (text : string) : string :=
  fold_left (fun t cr => replace (fst cr) (snd cr) t) replacements text.

(** [escape_latex(text)]; [None] is Python's [None]. *)
Definition escape_latex (text : option string) : string :=
  match text with
  | None => ""
  | Some text =>
      let text := replace "&" "\&" text in
      let text := replace "\\&" "\&" text in
      apply_replacements text
  end.

(** [escape_latex] applied to a value that is a string. *)
Definition esc (text : string) : string := escape_latex (Some text).

(** The characters the Escaper rewrites. *)
Definition reserved_chars : list ascii :=
  ["&"; "%"; "$"; "#"; "_"; "{"; "}"; "~"; "^"]%char.

(** ** Inline-link translation (the body of the achievements loop) *)

Definition nl : string := String (ascii_of_nat 10) EmptyString.

(** the replacement template [\\href{\2}{\1}] *)
Definition href (url text : string) : string :=
  "\href{" ++ url ++ "}{" ++ text ++ "}".

(** The pattern [\[([^\]]+)\]\(([^)]+)\)] with its replacement template
    [\\href{\2}{\1}]: for a match at the head, the replacement and the
    length of the match. *)
Definition link_rule (s : string) : option (string * nat) :=
  match Re.link_match s with
  | Some (text, url) =>
      Some (href url text, 4 + String.length text + String.length url)
  | None => None
  end.

(** The pattern [\\href\{([^}]*?)\\&([^}]*?)\}] with its replacement
    template [\\href{\1&\2}]. *)
Definition href_amp_rule (s : string) : option (string * nat) :=
  match Re.href_amp_match s with
  | Some (g1, g2) =>
      Some ("\href{" ++ g1 ++ "&" ++ g2 ++ "}",
            9 + String.length g1 + String.length g2)
  | None => None
  end.

(** The pattern [\\href\{[^}]*\}\{[^}]*\}]: the matched text. *)
Definition href_cmd_rule (s : string) : option string :=
  match Re.href_cmd_match s with
  | Some (a, b) => Some (href a b)
  | None => None
  end.

(** [re.sub(r'\[([^\]]+)\]\(([^)]+)\)', r'\\href{\2}{\1}', description)] *)
Definition sub_links (description : string) : string :=
  Re.sub link_rule description.

(** [re.sub(r'\\href\{([^}]*?)\\&([^}]*?)\}', r'\\href{\1&\2}', description)] *)
Definition sub_href_amp (description : string) : string :=
  Re.sub href_amp_rule description.

(** [re.findall(r'\\href\{[^}]*\}\{[^}]*\}', description)] *)
Definition find_hrefs (description : string) : list string :=
  Re.findall href_cmd_rule description.

(** [f"HREFPLACEHOLDER{i}"] *)
Definition placeholder (i : nat) : string :=
  "HREFPLACEHOLDER" ++ str_of_nat i.

(** first loop over [enumerate(href_matches)] *)
Definition protect (href_matches : list string) (description : string)
  : string :=
  fold_left (fun d im => replace (snd im) (placeholder (fst im)) d)
            (enumerate href_matches) description.

(** second loop over [enumerate(href_matches)] *)
Definition restore (href_matches : list string) (description : string)
  : string :=
  fold_left (fun d im => replace (placeholder (fst im)) (snd im) d)
            (enumerate href_matches) description.

(** What the achievements loop does to [achievement["description"]]. *)
Definition translate_links (description : string) : string :=
  let description := sub_links description in
  let description := sub_href_amp description in
  let href_matches := find_hrefs description in
  let description := protect href_matches description in
  let description := esc description in
  restore href_matches description.

(** ** Records of the resume document

    A key the code reads unconditionally is a field; a key it tests with
    [k in d and d[k]] is an [option] ([None]: key absent or null).  Dates
    and years are only interpolated into f-strings: they are kept as the
    text they render to. *)

Record Link := mkLink { link_name : string; link_url : string }.

Record Skill := mkSkill { skill_category : string; skill_items : string }.

Record Achievement := mkAchievement {
  ach_name : string;
  ach_description : string }.

Record Experience := mkExperience {
  exp_title : string;
  exp_location : string;
  exp_company : string;
  exp_date_start : string;
  exp_date_end : string;
  exp_company_url : option string;
  exp_company_description : option string;
  exp_achievements : option (list Achievement) }.

Record Education := mkEducation {
  edu_degree : string;
  edu_institution : string;
  edu_location : string;
  edu_date_start : string;
  edu_date_end : string }.

Record Award := mkAward {
  award_title : string;
  award_organization : string;
  award_location : string;
  award_date : string;
  award_organization_detail : option string;
  award_organization_url : option string }.

Record Certification := mkCertification {
  cert_title : string;
  cert_organization : string;
  cert_date : string;
  cert_url : string }.

Record Publication := mkPublication {
  pub_authors : string;
  pub_title : string;
  pub_venue : string;
  pub_year : string;
  pub_url : string }.



(** ** Section formatters *)

Definition vert : string := " $\vert$ ".

Definition format_contact_links (links : list Link) : string :=
  join vert
    (map (fun link =>
            let name := esc (link_name link) in
            "\href{" ++ link_url link ++ "}{" ++ name ++ "}") links).

(** lines 77-86: what is emitted for one of the two texts of a skill group *)
Definition skill_text (raw : string) : string :=
  let t := replace "&" "\&" raw in
  let t := esc t in
  replace "\\&" "\&" t.

Definition format_skills (skills : list Skill) : string :=
  join ""
    (map (fun skill =>
            let category := skill_text (skill_category skill) in
            let items := skill_text (skill_items skill) in
            "  \resumeSubheading" ++ nl ++
            "    {" ++ category ++ "}{}" ++ nl ++
            "    {" ++ items ++ "}{}" ++ nl) skills).

(** lines 102-116: the company-display string of one entry *)
Definition company_text (exp : Experience) : string :=
  let company := esc (exp_company exp) in
  match exp_company_description exp with
  | Some (String _ _ as description) =>
      match exp_company_url exp with
      | Some (String _ _ as url) =>
          let company_desc := esc description in
          "\href{" ++ url ++ "}{" ++ company ++ "}{: " ++ company_desc ++ "}"
      | _ =>
          let company_desc := esc description in
          company ++ "{: " ++ company_desc ++ "}"
      end
  | _ =>
      match exp_company_url exp with
      | Some (String _ _ as url) => "\href{" ++ url ++ "}{" ++ company ++ "}"
      | _ => company
      end
  end.

Definition format_achievement (achievement : Achievement) : string :=
  let name := esc (ach_name achievement) in
  let description := translate_links (ach_description achievement) in
  "      \resumeItem{" ++ name ++ "}" ++ nl ++
  "      {" ++ description ++ "}" ++ nl.

(** the strings one entry appends to [experience_latex] *)
Definition experience_blocks (exp : Experience) : list string :=
  let title := esc (exp_title exp) in
  let location := esc (exp_location exp) in
  let date_text := exp_date_start exp ++ " - " ++ exp_date_end exp in
  ("  \resumeSubheading" ++ nl ++
   "  {" ++ title ++ "}{" ++ date_text ++ "}" ++ nl ++
   "  {" ++ company_text exp ++ "}{" ++ location ++ "}" ++ nl)
  :: match exp_achievements exp with
     | Some ((_ :: _) as achievements) =>
         ("    \resumeItemListStart" ++ nl)
         :: map format_achievement achievements
         ++ ["      \resumeItemListEnd" ++ nl ++ nl]
     | _ => []
     end.

Definition format_experience (experience_items : list Experience) : string :=
  join "" (flat_map experience_blocks experience_items).

Definition format_education (education_items : list Education) : string :=
  join ""
    (map (fun edu =>
            let degree := esc (edu_degree edu) in
            let institution := esc (edu_institution edu) in
            let location := esc (edu_location edu) in
            "    \resumeSubheading" ++ nl ++
            "      {" ++ degree ++ "}{" ++ edu_date_start edu ++ " -- "
                      ++ edu_date_end edu ++ "}" ++ nl ++
            "      {" ++ institution ++ "}{" ++ location ++ "}" ++ nl)
         education_items).

(** [org_detail.split(':')[-1].strip()].  Neither exception can occur
    here (the separator is not empty, and [split] never returns an empty
    list, see [detail_link_text_defined]); the two [None] branches only
    make the definition total. *)
Definition detail_link_text (org_detail : string) : string :=
  match split ":" org_detail with
  | None => ""
  | Some parts =>
      match index_last parts with
      | None => ""
      | Some p => strip p
      end
  end.

(** lines 183-192: [organization_text] of one award *)
Definition organization_text (award : Award) : string :=
  let organization := esc (award_organization award) in
  match award_organization_detail award with
  | Some (String _ _ as detail) =>
      let org_detail := esc detail in
      match award_organization_url award with
      | Some (String _ _ as url) =>
          organization ++ vert
          ++ "\href{" ++ url ++ "}{" ++ detail_link_text org_detail ++ "}"
      | _ => organization ++ vert ++ org_detail
      end
  | _ => organization
  end.

Definition award_block (award : Award) : string :=
  let title := esc (award_title award) in
  let location := esc (award_location award) in
  "    \resumeSubheading" ++ nl ++
  "      {" ++ title ++ "}{" ++ award_date award ++ "}" ++ nl ++
  "      {" ++ organization_text award ++ "}{" ++ location ++ "}" ++ nl.

Definition format_awards (awards_items : list Award) : string :=
  join "" (map award_block awards_items).

Definition cert_block (cert : Certification) : string :=
  let title := esc (cert_title cert) in
  let organization := esc (cert_organization cert) in
  "    \resumeSubheading" ++ nl ++
  "      {" ++ title ++ "}{" ++ cert_date cert ++ "}" ++ nl ++
  "      {\href{" ++ cert_url cert ++ "}{Certificate}}{" ++ organization ++ "}" ++ nl.

Definition format_certifications (cert_items : list Certification) : string :=
  join "" (map cert_block cert_items).

(** [pub == other] on two publication dicts.  Python compares the dicts by
    value; here the five fields are compared as texts.  The two agree on
    dicts that have these five keys only, with text values (or with years
    that are all integers).  Two entries that differ here in [authors],
    [title] or [venue] - the fields the code passes to [escape_latex], so
    texts - differ in Python too, whatever the other values are. *)
Definition pub_eqb (p q : Publication) : bool :=
  String.eqb (pub_authors p) (pub_authors q)
  && String.eqb (pub_title p) (pub_title q)
  && String.eqb (pub_venue p) (pub_venue q)
  && String.eqb (pub_year p) (pub_year q)
  && String.eqb (pub_url p) (pub_url q).

Definition pub_item (pub : Publication) : string :=
  let authors :=
    replace "M. Ghorbandoost" "\textbf{M. Ghorbandoost}" (esc (pub_authors pub)) in
  let title := esc (pub_title pub) in
  let venue := esc (pub_venue pub) in
  "  \item{" ++ authors ++ ", ``" ++ title ++ "'', " ++ venue ++ ", "
  ++ pub_year pub ++ ". \href{" ++ pub_url pub ++ "}{link}}" ++ nl.

Definition vspace : string := "  \vspace{5pt}" ++ nl.

(** the strings one entry appends to [pub_latex]; [pub_items[-1]] is read
    inside the loop only, where the list is not empty, so the default of
    [last] is never returned *)
Definition pub_blocks (pub_items : list Publication) (pub : Publication)
  : list string :=
  pub_item pub
  :: (if negb (pub_eqb pub (last pub_items pub)) then [vspace] else []).

Definition format_publications (pub_items : list Publication) : string :=
  join "" (flat_map (pub_blocks pub_items) pub_items).

(** ** Template filler *)



(** ** The spec's words, for comparison with the code *)



(** Following the spec's words for C9: the skills block with "the plain
    Escaper alone" applied to the raw category and items. *)
Definition format_skills_plain (skills : list Skill) : string :=
  join ""
    (map (fun skill =>
            "  \resumeSubheading" ++ nl ++
            "    {" ++ esc (skill_category skill) ++ "}{}" ++ nl ++
            "    {" ++ esc (skill_items skill) ++ "}{}" ++ nl) skills).

(** [k in d and d[k]] for a text value *)
Definition present (v : option string) : bool :=
  match v with
  | Some (String _ _) => true
  | _ => false
  end.

(** ** Ampersands and backslashes in a text *)

(** Inserts a backslash before every ampersand that does not follow one;
    [prev_bs] tells whether the previous character is a backslash. *)
Fixpoint ensure_amp (prev_bs : bool) (s : string) : string :=
  match s with
  | EmptyString => EmptyString
  | String c s' =>
      if Ascii.eqb c "&"
      then (if prev_bs then "&" else "\&") ++ ensure_amp false s'
      else String c (ensure_amp (Ascii.eqb c "\") s')
  end.

(** Every ampersand directly follows a backslash. *)
Fixpoint amp_guarded (prev_bs : bool) (s : string) : bool :=
  match s with
  | EmptyString => true
  | String c s' =>
      if Ascii.eqb c "&" then prev_bs && amp_guarded false s'
      else amp_guarded (Ascii.eqb c "\") s'
  end.

(** Some ampersand directly follows three backslashes; [k] counts the
    backslashes just read, up to three. *)
Fixpoint triple_from (k : nat) (s : string) : bool :=
  match s with
  | EmptyString => false
  | String c s' =>
      if Ascii.eqb c "&" then (3 <=? k)%nat || triple_from 0 s'
      else if Ascii.eqb c "\" then triple_from (Nat.min 3 (S k)) s'
      else triple_from 0 s'
  end.

(** After [k] backslashes (three meaning three or more), the ways [s] can
    complete a triple-escaped ampersand with them. *)
Definition triple_pending (k : nat) (s : string) : bool :=
  match k with
  | 0 => false
  | 1 => startswith "\\&" s
  | 2 => startswith "\&" s || startswith "\\&" s
  | _ => startswith "&" s || startswith "\&" s || startswith "\\&" s
  end.

(** ** Descriptions cut into literal text and links

    A description with links is the literal text before the first link and
    then, for each link, its display text, its url and the literal text
    that follows it. *)

(** A well-formed link notation [[text](url)] somewhere in [d]: the text is
    not empty and has no [']'], the url is not empty and has no [')']. *)
Definition has_link (d : string) : Prop :=
  exists pre text url post,
    d = pre ++ "[" ++ text ++ "](" ++ url ++ ")" ++ post
    /\ text <> "" /\ mem_char "]" text = false
    /\ url <> "" /\ mem_char ")" url = false.

(** The link pattern matches at some position of [d]. *)
Fixpoint link_anywhere (d : string) : bool :=
  match Re.link_match d with
  | Some _ => true
  | None =>
      match d with
      | EmptyString => false
      | String _ d' => link_anywhere d'
      end
  end.

Record LinkItem := mkLinkItem {
  li_text : string;
  li_url : string;
  li_after : string }.

Definition link_source (it : LinkItem) : string :=
  "[" ++ li_text it ++ "](" ++ li_url it ++ ")".

Definition link_command (it : LinkItem) : string :=
  href (li_url it) (li_text it).

Fixpoint links_source (items : list LinkItem) : string :=
  match items with
  | [] => ""
  | it :: rest => link_source it ++ li_after it ++ links_source rest
  end.

(** What the claim expects: each link as its command, each literal text
    escaped, in the order of the description. *)
Fixpoint links_output (items : list LinkItem) : string :=
  match items with
  | [] => ""
  | it :: rest => link_command it ++ esc (li_after it) ++ links_output rest
  end.

(** Literal text that cannot be taken for a command or a placeholder. *)
Definition literal_ok (s : string) : bool :=
  negb (contains "\href{" s)
  && negb (contains "HREFPLACEHOLDER" s).

(** The text between braces of a command. *)
Definition brace_arg_ok (s : string) : bool :=
  Re.nonempty s
  && negb (mem_char "}" s)
  && negb (contains "\href{" s)
  && negb (contains "HREFPLACEHOLDER" s).

Definition link_ok (it : LinkItem) : bool :=
  brace_arg_ok (li_text it) && negb (mem_char "]" (li_text it))
  && brace_arg_ok (li_url it) && negb (mem_char ")" (li_url it))
  && literal_ok (li_after it).

Definition cmd_ok (c : string) : Prop :=
  exists url text,
    c = href url text /\ brace_arg_ok url = true /\ brace_arg_ok text = true.

(** The url holds no ampersand escaped beforehand. *)
Definition link_plain (it : LinkItem) : bool :=
  negb (contains "\&" (li_url it)).

(** A link notation as the pattern takes it: display text and url not
    empty, no [']'] in the text, no [')'] in the url. *)
Definition notation_ok (it : LinkItem) : bool :=
  Re.nonempty (li_text it) && negb (mem_char "]" (li_text it))
  && Re.nonempty (li_url it) && negb (mem_char ")" (li_url it)).

(** No position inside [seg], read on into [rest], is the start of a link
    notation: [seg] is literal text for the pattern. *)
Fixpoint unlinked (seg rest : string) : bool :=
  match seg with
  | EmptyString => true
  | String c seg' =>
      match Re.link_match (String c (seg' ++ rest)) with
      | Some _ => false
      | None => unlinked seg' rest
      end
  end.

(** [seg0] and the texts after the links are literal text for the pattern:
    the links of [items] are the matches of the pattern, in order. *)
Fixpoint cut_ok (seg0 : string) (items : list LinkItem) : bool :=
  unlinked seg0 (links_source items)
  && match items with
     | [] => true
     | it :: rest => cut_ok (li_after it) rest
     end.

(** The cut of a description at the matches of the pattern, scanning from
    the left as [re.sub] does: the literal text before the first match and
    the matches, each with the literal text after it. *)
Fixpoint cut_links_fuel (fuel : nat) (d : string) : string * list LinkItem :=
  match fuel with
  | O => (d, [])
  | S fuel' =>
      match Re.link_match d with
      | Some (text, url) =>
          let (seg, items) :=
            cut_links_fuel fuel'
              (drop (4 + String.length text + String.length url) d) in
          (EmptyString, mkLinkItem text url seg :: items)
      | None =>
          match d with
          | EmptyString => (EmptyString, [])
          | String c d' =>
              let (seg, items) := cut_links_fuel fuel' d' in
              (String c seg, items)
          end
      end
  end.

Definition cut_links (d : string) : string * list LinkItem :=
  cut_links_fuel (String.length d) d.

(** ** The positions of the links while the commands are protected *)

(** While the commands are protected, a link position holds either its
    command or a placeholder. *)
Inductive slot := Cmd (c : string) | Ph (k : nat).

Definition slot_text (sl : slot) : string :=
  match sl with
  | Cmd c => c
  | Ph k => placeholder k
  end.

Fixpoint mixed (f : string -> string) (xs : list (slot * string)) : string :=
  match xs with
  | [] => ""
  | (sl, seg) :: rest => slot_text sl ++ f seg ++ mixed f rest
  end.

Definition protect_slot (sl : slot) (ic : nat * string) : slot :=
  match sl with
  | Cmd c => if String.eqb c (snd ic) then Ph (fst ic) else sl
  | Ph _ => sl
  end.

Definition restore_slot (sl : slot) (ic : nat * string) : slot :=
  match sl with
  | Ph k => if Nat.eqb k (fst ic) then Cmd (snd ic) else sl
  | Cmd _ => sl
  end.

Definition map_slots (g : slot -> slot) (xs : list (slot * string))
  : list (slot * string) :=
  map (fun x => (g (fst x), snd x)) xs.

Definition slot_ok (sl : slot) : Prop :=
  match sl with
  | Cmd c => cmd_ok c
  | Ph k => k < 10
  end.

Definition slots_ok (xs : list (slot * string)) : Prop :=
  Forall (fun x => slot_ok (fst x) /\ literal_ok (snd x) = true) xs.

(** The positions of a description after step 1: every link is its
    command. *)
Definition slots_of (items : list LinkItem) : list (slot * string) :=
  map (fun it => (Cmd (link_command it), li_after it)) items.

(** The steps of a loop over [enumerate(href_matches)] that the
    placeholders can serve: fewer than ten, each a command. *)
Definition steps_ok (steps : list (nat * string)) : Prop :=
  Forall (fun ic => fst ic < 10 /\ cmd_ok (snd ic)) steps.

(** ** Scans: where no match can start *)

(** No position inside [y], followed by [r], is the start of a hit. *)
Definition quiet (hit : string -> bool) (y r : string) : Prop :=
  forall a b, y = a ++ b -> b <> "" -> hit (b ++ r) = false.

(** No proper, non-empty suffix of [lit] starts [r]: an occurrence of
    [lit] cannot begin before [r] and end inside it. *)
Definition border_free (lit r : string) : Prop :=
  forall k, 1 <= k -> k < String.length lit ->
    startswith (drop k lit) r = false.

(** No character of [str] occurs in [p]. *)
Fixpoint disjoint_chars (str p : string) : bool :=
  match str with
  | EmptyString => true
  | String y ys => negb (mem_char y p) && disjoint_chars ys p
  end.

(** ** Loading: the YAML text of the input file ([load_resume_data])

    [content] is what [file.read()] returned.  The YAML parser is not code
    of this program: it is a parameter, [None] where it raises. *)

(** lazy [(.*?)] under [re.DOTALL], followed by the literal [lit]: the run
    up to the first place where [lit] starts *)
Fixpoint lazy_any_until (lit s : string) : option string :=
  match Re.after lit s with
  | Some _ => Some EmptyString
  | None =>
      match s with
      | EmptyString => None
      | String a s' =>
          match lazy_any_until lit s' with
          | Some g => Some (String a g)
          | None => None
          end
      end
  end.

Definition front_open : string := "---" ++ nl.
Definition front_close : string := nl ++ "---".

(** [re.search(r'^---\n(.*?)\n---', content, re.DOTALL)]: group 1.  Without
    [re.MULTILINE] the anchor holds at the start of [content] only. *)
Definition yaml_match (content : string) : option string :=
  match Re.after front_open content with
  | None => None
  | Some rest => lazy_any_until front_close rest
  end.

Inductive load_result (D : Type) : Type :=
| Loaded (data : D)
| YamlError
| ValueError.

Arguments Loaded {D} data.
Arguments YamlError {D}.
Arguments ValueError {D}.

Section Loading.

Variable D : Type.
Variable safe_load : string -> option D.

Definition load_resume_data (content : string) : load_result D :=
  match yaml_match content with
  | None =>
      match safe_load content with
      | Some data => Loaded data
      | None => ValueError
      end
  | Some yaml_content =>
      match safe_load yaml_content with
      | Some data => Loaded data
      | None => YamlError
      end
  end.

End Loading.

(** ** Paths ([os.path] on POSIX, where the program runs) *)

(** [s.rfind(c)]; [None] is -1 *)
Fixpoint rfind (c : ascii) (s : string) : option nat :=
  match s with
  | EmptyString => None
  | String a s' =>
      match rfind c s' with
      | Some i => Some (S i)
      | None => if Ascii.eqb a c then Some 0 else None
      end
  end.

(** [s.endswith(suffix)] *)
Definition endswith (suffix s : string) : bool :=
  (String.length suffix <=? String.length s)%nat
  && String.eqb (drop (String.length s - String.length suffix) s) suffix.

(** [os.path.join(a, b)] *)
Definition path_join (a b : string) : string :=
  if startswith "/" b then b
  else if orb (String.eqb a "") (endswith "/" a) then a ++ b
  else a ++ "/" ++ b.

(** [os.path.basename(p)] *)
Definition basename (p : string) : string :=
  match rfind "/" p with
  | Some i => drop (S i) p
  | None => p
  end.

Fixpoint has_non_dot (s : string) : bool :=
  match s with
  | EmptyString => false
  | String a s' => negb (Ascii.eqb a ".") || has_non_dot s'
  end.

(** [os.path.splitext(p)]: the last dot splits, unless it comes before the
    last separator or only dots stand between them *)
Definition splitext (p : string) : string * string :=
  let filename_index :=
    match rfind "/" p with Some i => S i | None => 0 end in
  match rfind "." p with
  | None => (p, EmptyString)
  | Some dot_index =>
      if (filename_index <=? dot_index)%nat
         && has_non_dot (substring filename_index (dot_index - filename_index) p)
      then (substring 0 dot_index p, drop dot_index p)
      else (p, EmptyString)
  end.

(** ** Output names ([generate_latex_resume], [compile_latex], [main]) *)

Definition cons_word (w : string) (ws : list string) : list string :=
  match w with
  | EmptyString => ws
  | String _ _ => w :: ws
  end.

(** the word that starts [s], if [s] starts inside one, and the words after
    it *)
Fixpoint split_ws_aux (s : string) : string * list string :=
  match s with
  | EmptyString => (EmptyString, [])
  | String c s' =>
      let (w, ws) := split_ws_aux s' in
      if isspace c then (EmptyString, cons_word w ws) else (String c w, ws)
  end.

(** [s.split()]: the maximal runs of characters that are not whitespace *)
Definition split_ws (s : string) : list string :=
  let (w, ws) := split_ws_aux s in cons_word w ws.

Section OutputNames.

(** Python's [str.capitalize], a mapping by the Unicode tables, is taken as
    it is: nothing below looks into it. *)
Variable capitalize : string -> string.

Variable OUTPUT_DIR : string.

(** [f"{firstname}_{lastname}"] where [data] has a name of two words or
    more; [name] is [None] where [data] is missing or has no name *)
Definition derived_name (name : option string) : option string :=
  match name with
  | None => None
  | Some name =>
      let name_parts := split_ws name in
      match name_parts with
      | first :: _ :: _ =>
          match index_last name_parts with
          | Some last => Some (capitalize first ++ "_" ++ capitalize last)
          | None => None
          end
      | _ => None
      end
  end.

(** lines 234-244 *)
Definition default_output_name (name : option string) : string :=
  match derived_name name with
  | Some firstname_lastname => firstname_lastname ++ ".tex"
  | None => "resume.tex"
  end.

(** lines 246-247 and 274: the path [generate_latex_resume] writes to and
    returns *)
Definition output_path (given : option string) (name : option string)
  : string :=
  match given with
  | Some output_path => output_path
  | None => path_join OUTPUT_DIR (default_output_name name)
  end.

(** lines 279-290 of [compile_latex] *)
Definition output_name (latex_file : string) (name : option string) : string :=
  match derived_name name with
  | Some firstname_lastname => firstname_lastname
  | None => fst (splitext (basename latex_file))
  end.

(** lines 294 and 329 *)
Definition output_pdf (latex_file : string) (name : option string) : string :=
  path_join OUTPUT_DIR (output_name latex_file name ++ ".pdf").

(** lines 338-342: what [compile_latex] removes when it is done *)
Definition aux_files (latex_file : string) (name : option string)
  : list string :=
  [ path_join OUTPUT_DIR (output_name latex_file name ++ ".aux");
    path_join OUTPUT_DIR (output_name latex_file name ++ ".log");
    path_join OUTPUT_DIR (output_name latex_file name ++ ".out") ].

(** lines 379-396 of [main] *)
Definition template_files : list string :=
  [ "template.aux"; "template.log"; "template.out"; "template.pdf";
    "template.fdb_latexmk"; "template.fls"; "template.synctex.gz" ].

Definition resume_files (latex_file : string) : list string :=
  let latex_base := fst (splitext (basename latex_file)) in
  [ latex_base ++ ".aux"; latex_base ++ ".log"; latex_base ++ ".out" ].

(** lines 396-400: the paths [main] removes after a successful run *)
Definition files_to_clean (latex_file : string) : list string :=
  map (path_join OUTPUT_DIR) (template_files ++ resume_files latex_file)%list.

End OutputNames.

(** [str.capitalize] on ASCII text, for the examples *)
Definition upper_char (c : ascii) : ascii :=
  let n := nat_of_ascii c in
  if ((97 <=? n) && (n <=? 122))%nat then ascii_of_nat (n - 32) else c.

Definition lower_char (c : ascii) : ascii :=
  let n := nat_of_ascii c in
  if ((65 <=? n) && (n <=? 90))%nat then ascii_of_nat (n + 32) else c.

Fixpoint lower (s : string) : string :=
  match s with
  | EmptyString => EmptyString
  | String c s' => String (lower_char c) (lower s')
  end.

Definition capitalize_ascii (s : string) : string :=
  match s with
  | EmptyString => EmptyString
  | String c s' => String (upper_char c) (lower s')
  end.

(** ** More about a text and its escaped form *)

(** Every [g] directly follows a backslash. *)
Fixpoint char_guarded (g : ascii) (prev_bs : bool) (s : string) : bool :=
  match s with
  | EmptyString => true
  | String c s' =>
      if Ascii.eqb c g then prev_bs && char_guarded g false s'
      else char_guarded g (Ascii.eqb c "\") s'
  end.

(** [s] ends with a backslash. *)
Fixpoint ends_with_backslash (s : string) : bool :=
  match s with
  | EmptyString => false
  | String c EmptyString => Ascii.eqb c "\"
  | String _ s' => ends_with_backslash s'
  end.

(** lines 37-38 on their own *)
Definition escape_ampersands_only (text : string) : string :=
  replace "\\&" "\&" (replace "&" "\&" text).

(** ** Concrete documents used in examples *)


Definition link_reserved : Link :=
  mkLink "Home_page" "http://x.org/a_b?c=1&d=2#e%20f".

Definition exp_linked : Experience :=
  mkExperience "Engineer" "Paris" "R&D Corp" "2019" "2021"
               (Some "http://corp.example/a_b") (Some "tools & compilers") None.

Definition exp_desc_only : Experience :=
  mkExperience "Engineer" "Paris" "R&D Corp" "2019" "2021"
               (Some "") (Some "tools & compilers") None.

Definition exp_url_only : Experience :=
  mkExperience "Engineer" "Paris" "R&D Corp" "2019" "2021"
               (Some "http://corp.example/a_b") None None.

Definition exp_plain : Experience :=
  mkExperience "Engineer" "Paris" "R&D Corp" "2019" "2021" None (Some "") None.

Definition award_two_colons : Award :=
  mkAward "Prize" "Org" "Paris" "2020" (Some "A: B: C") (Some "http://x").

Definition award_reserved : Award :=
  mkAward "Prize" "Org" "Paris" "2020" (Some "Rank: 1st")
          (Some "http://a.org/x_y?p=1&q=2#top").

Definition cert_reserved : Certification :=
  mkCertification "Cert" "Org" "2021" "http://c.org/id%20_1".

Definition pub_one : Publication :=
  mkPublication "A. Author" "On Resumes" "Venue" "2020" "http://doi.example/1".

Definition pub_reserved : Publication :=
  mkPublication "M. Ghorbandoost, A. Author" "On Resumes" "Venue" "2020"
                "http://doi.example/10.1000/a_b#s1".

Definition eleven_links : string :=
  "[a0](u0) [a1](u1) [a2](u2) [a3](u3) [a4](u4) [a5](u5) [a6](u6) [a7](u7) [a8](u8) [a9](u9) [a10](u10)".

Definition two_links : list LinkItem :=
  [ mkLinkItem "docs" "http://x.org/a_b" " and ";
    mkLinkItem "code & tests" "http://y.org/?q=1&r=2" " (100%)" ].

Definition edu_one : Education :=
  mkEducation "MSc" "Univ" "Paris" "Sept. 2015 & on" "2017".

(** a stand-in for the YAML parser in examples: a document is accepted when
    it has no tab *)
Definition no_tab_load (s : string) : option string :=
  if mem_char (ascii_of_nat 9) s then None else Some s.

(** ** Words and blanks of a name *)

(** Every character of [s] satisfies [p]. *)
Fixpoint all_chars (p : ascii -> bool) (s : string) : bool :=
  match s with
  | EmptyString => true
  | String c s' => p c && all_chars p s'
  end.

(** only whitespace *)
Definition blank (s : string) : bool := all_chars isspace s.

(** no whitespace *)
Definition unbroken (s : string) : bool :=
  all_chars (fun c => negb (isspace c)) s.

(** ** Paths under the output directory *)

(** what [os.path.join(a, b)] puts before a relative [b] *)
Definition dir_prefix (a : string) : string :=
  if orb (String.eqb a "") (endswith "/" a) then a else a ++ "/".

(** all that is removed after a successful run: first by [compile_latex],
    then by [main] *)
Definition removed_files (capitalize : string -> string) (OUTPUT_DIR : string)
  (latex_file : string) (name : option string) : list string :=
  (aux_files capitalize OUTPUT_DIR latex_file name
   ++ files_to_clean OUTPUT_DIR latex_file)%list.

(** ** The working string of the Template Filler *)


(** [s] starts with a whitespace character *)
Definition starts_blank (s : string) : bool :=
  match s with
  | EmptyString => false
  | String c _ => isspace c
  end.

(** [s] ends with a whitespace character *)
Fixpoint ends_blank (s : string) : bool :=
  match s with
  | EmptyString => false
  | String c EmptyString => isspace c
  | String _ s' => ends_blank s'
  end.

Definition mixed_links : list LinkItem :=
  [ mkLinkItem "docs" "http://x.org/a_b" " a_b [x] and ";
    mkLinkItem "C:\dir" "http://y.org/a\b" " (100%) [y" ].

Definition one_link_mixed : list LinkItem :=
  [ mkLinkItem "docs" "http://x.org/a_b" " a_b [x" ].

(** ** The primitives on concrete inputs *)

Example replace_all_occurrences : replace "ab" "X" "abcabab" = "XcXX".
Proof. reflexivity. Qed.

Example replace_skips_over_a_match : replace "aa" "b" "aaa" = "ba".
Proof. reflexivity. Qed.

Example replace_empty_pattern : replace "" "-" "ab" = "-a-b-".
Proof. reflexivity. Qed.

Example split_keeps_empty_pieces : split ":" "a::" = Some ["a"; ""; ""].
Proof. reflexivity. Qed.

Example split_empty_separator : split "" "abc" = None.
Proof. reflexivity. Qed.

Example strip_both_sides :
  strip ("  " ++ nl ++ "1st place " ++ nl) = "1st place".
Proof. reflexivity. Qed.

Example sub_links_greedy_text :
  sub_links ("[x[t](u) [a" ++ nl ++ "b](c) [](d) [e]() [f](g")
  = "\href{u}{x[t} \href{c}{a" ++ nl ++ "b} [](d) [e]() [f](g".
Proof. reflexivity. Qed.

Example sub_href_amp_first_ampersand_only :
  sub_href_amp "\href{a\&b\&c}{t} \href{\&} \href{a}{b\&c} \href{x\&y"
  = "\href{a&b\&c}{t} \href{&} \href{a}{b\&c} \href{x\&y".
Proof. reflexivity. Qed.

Example find_hrefs_in_order :
  find_hrefs "\href{a}{b}\href{}{} \href{a}\href{c}{d} \href{a}{b"
  = ["\href{a}{b}"; "\href{}{}"; "\href{c}{d}"].
Proof. reflexivity. Qed.

Example placeholder_ten : placeholder 10 = "HREFPLACEHOLDER10".
Proof. reflexivity. Qed.

Example esc_reserved :
  esc "R&D 100% $5 #1 a_b {x} ~ ^"
  = "R\&D 100\% \$5 \#1 a\_b \{x\} \textasciitilde{} \textasciicircum{}".
Proof. reflexivity. Qed.

Example esc_pre_escaped_ampersand : esc "R\&D" = "R\&D".
Proof. reflexivity. Qed.

Example esc_none : escape_latex None = "".
Proof. reflexivity. Qed.

Example esc_twice_escapes_twice : esc (esc "a_b") = "a\\_b".
Proof. reflexivity. Qed.

Example formatters_on_empty_sections :
  format_contact_links [] = "" /\ format_skills [] = ""
  /\ format_experience [] = "" /\ format_education [] = ""
  /\ format_awards [] = "" /\ format_certifications [] = ""
  /\ format_publications [] = "".
Proof. repeat split. Qed.

Example translate_links_two_links_and_underscore :
  translate_links "[a](u) x_y [b](v)" = "\href{u}{a} x\_y \href{v}{b}".
Proof. vm_compute. reflexivity. Qed.

(** ** Strings: append, prefixes, occurrences *)

Section StringFacts.

Lemma app_nil_r (s : string) : s ++ "" = s.
Proof. induction s as [|c s IH]; simpl; congruence. Qed.

Lemma app_assoc (a b c : string) : (a ++ b) ++ c = a ++ b ++ c.
Proof. induction a as [|x a IH]; simpl; congruence. Qed.

Lemma length_app (a b : string) :
  String.length (a ++ b) = String.length a + String.length b.
Proof. induction a as [|x a IH]; simpl; congruence. Qed.

Lemma drop_app (a b : string) : drop (String.length a) (a ++ b) = b.
Proof. induction a as [|x a IH]; simpl; auto. Qed.

Lemma drop_nil (n : nat) : drop n "" = "".
Proof. destruct n; reflexivity. Qed.

Lemma startswith_app (p s : string) : startswith p (p ++ s) = true.
Proof.
  induction p as [|a p IH]; simpl; [reflexivity|].
  now rewrite Ascii.eqb_refl.
Qed.

Lemma startswith_split (p s : string) :
  startswith p s = true -> s = p ++ drop (String.length p) s.
Proof.
  revert s; induction p as [|a p IH]; intros s H; simpl.
  - reflexivity.
  - destruct s as [|b s]; simpl in H; [discriminate|].
    apply andb_true_iff in H as [Hab Hp].
    apply Ascii.eqb_eq in Hab; subst b.
    simpl. f_equal. now apply IH.
Qed.

Lemma startswith_weaken (p a b : string) :
  startswith p a = true -> startswith p (a ++ b) = true.
Proof.
  revert a; induction p as [|x p IH]; intros a H; simpl; [reflexivity|].
  destruct a as [|y a]; simpl in *; [discriminate|].
  apply andb_true_iff in H as [Hxy Hp].
  rewrite Hxy; simpl. now apply IH.
Qed.

Lemma startswith_mem_char (c : ascii) (p s : string) :
  startswith p s = true -> mem_char c p = true -> mem_char c s = true.
Proof.
  revert s; induction p as [|x p IH]; intros s H Hc; simpl in *.
  - discriminate.
  - destruct s as [|y s]; [discriminate|].
    apply andb_true_iff in H as [Hxy Hp].
    apply Ascii.eqb_eq in Hxy; subst y. simpl.
    apply orb_true_iff in Hc as [Hc|Hc].
    + now rewrite Hc.
    + rewrite (IH s Hp Hc). apply orb_true_r.
Qed.

Lemma mem_char_app (c : ascii) (a b : string) :
  mem_char c (a ++ b) = mem_char c a || mem_char c b.
Proof.
  induction a as [|x a IH]; simpl; [reflexivity|].
  now rewrite IH, orb_assoc.
Qed.

Lemma contains_mem_char (c : ascii) (p s : string) :
  mem_char c p = true -> mem_char c s = false -> contains p s = false.
Proof.
  intros Hp. induction s as [|y s IH]; intros Hs.
  - simpl. destruct p; [discriminate|reflexivity].
  - simpl in Hs. apply orb_false_iff in Hs as [Hy Hs].
    change (contains p (String y s))
      with (startswith p (String y s) || contains p s).
    rewrite (IH Hs), orb_false_r.
    destruct (startswith p (String y s)) eqn:E; [|reflexivity].
    pose proof (startswith_mem_char c _ _ E Hp) as H.
    simpl in H. rewrite Hy, Hs in H. discriminate.
Qed.

Lemma contains_nil_l (s : string) : contains "" s = true.
Proof. destruct s; reflexivity. Qed.

Lemma contains_cons (p : string) (c : ascii) (s : string) :
  contains p (String c s) = startswith p (String c s) || contains p s.
Proof. reflexivity. Qed.

Lemma contains_app_r (p a b : string) :
  contains p b = true -> contains p (a ++ b) = true.
Proof.
  intros H. induction a as [|x a IH]; simpl; [exact H|].
  rewrite IH. apply orb_true_r.
Qed.

Lemma contains_app_l (p a b : string) :
  contains p a = true -> contains p (a ++ b) = true.
Proof.
  induction a as [|x a IH]; intros H.
  - destruct p; [apply contains_nil_l | discriminate].
  - rewrite contains_cons in H. simpl append. rewrite contains_cons.
    apply orb_true_iff in H as [H|H].
    + pose proof (startswith_weaken p (String x a) b H) as H'.
      simpl append in H'. now rewrite H'.
    + rewrite (IH H). apply orb_true_r.
Qed.

End StringFacts.

(** ** [str.replace] *)

Section ReplaceFacts.

Variables old new : string.

Lemma replace_from_skip (x s : string) :
  replace_from old new (String.length x) (x ++ s) = replace_from old new 0 s.
Proof. induction x as [|c x IH]; simpl; auto. Qed.

Lemma replace_from_drop (k : nat) (s : string) :
  replace_from old new k s = replace_from old new 0 (drop k s).
Proof.
  revert k; induction s as [|c s IH]; intros [|k]; try reflexivity.
  simpl. apply IH.
Qed.

Lemma replace_from_nomatch (c : ascii) (s : string) :
  startswith old (String c s) = false ->
  replace_from old new 0 (String c s) = String c (replace_from old new 0 s).
Proof. intros H. simpl replace_from. now rewrite H. Qed.

Hypothesis old_nonempty : old <> "".

(** The scan of [replace], as an induction principle. *)
Lemma replace_scan_ind (P : string -> Prop) :
  P "" ->
  (forall c s, startswith old (String c s) = false -> P s -> P (String c s)) ->
  (forall s, P s -> P (old ++ s)) ->
  forall s, P s.
Proof.
  intros Hnil Hcons Hmatch s.
  remember (String.length s) as n eqn:Hn.
  revert s Hn. induction n as [n IH] using lt_wf_ind. intros s Hn.
  destruct s as [|c s]; [exact Hnil|].
  destruct (startswith old (String c s)) eqn:E.
  - rewrite (startswith_split _ _ E). apply Hmatch.
    apply (IH (String.length (drop (String.length old) (String c s)))); [|reflexivity].
    subst n. rewrite (startswith_split _ _ E) at 2. rewrite length_app.
    destruct old; [congruence|]. simpl. lia.
  - apply Hcons; [exact E|]. apply (IH (String.length s)); [|reflexivity].
    subst n. simpl. lia.
Qed.

Lemma replace_absent (s : string) :
  contains old s = false -> replace_from old new 0 s = s.
Proof.
  induction s as [|c s IH]; intros H; [reflexivity|].
  rewrite contains_cons in H. apply orb_false_iff in H as [H1 H2].
  rewrite replace_from_nomatch by exact H1. now rewrite IH.
Qed.

End ReplaceFacts.

Lemma replace_from_match (old new s : string) :
  old <> "" ->
  replace_from old new 0 (old ++ s) = new ++ replace_from old new 0 s.
Proof.
  destruct old as [|a o]; intros H; [congruence|].
  change (String a o ++ s) with (String a (o ++ s)).
  unfold replace_from at 1; fold replace_from.
  change (String a (o ++ s)) with (String a o ++ s) at 1.
  rewrite startswith_app.
  replace (String.length (String a o) - 1) with (String.length o)
    by (simpl; lia).
  now rewrite replace_from_skip.
Qed.

Lemma replace_nonempty (old new s : string) :
  old <> "" -> replace old new s = replace_from old new 0 s.
Proof. destruct old; [congruence|reflexivity]. Qed.

Lemma replace_no_occurrence (old new s : string) :
  contains old s = false -> replace old new s = s.
Proof.
  intros H. destruct old as [|a o].
  - now rewrite contains_nil_l in H.
  - apply replace_absent. exact H.
Qed.

(** Replacing a single character is a character-wise map. *)
Lemma replace_char_cons (c : ascii) (r : string) (a : ascii) (s : string) :
  replace (String c "") r (String a s)
  = (if Ascii.eqb c a then r else String a "") ++ replace (String c "") r s.
Proof.
  unfold replace. simpl replace_from.
  destruct (Ascii.eqb c a); reflexivity.
Qed.

Lemma replace_char_nil (c : ascii) (r : string) :
  replace (String c "") r "" = "".
Proof. reflexivity. Qed.

Lemma replace_char_app (c : ascii) (r a b : string) :
  replace (String c "") r (a ++ b)
  = replace (String c "") r a ++ replace (String c "") r b.
Proof.
  induction a as [|x a IH]; [reflexivity|].
  change (String x a ++ b) with (String x (a ++ b)).
  rewrite !replace_char_cons, IH, app_assoc. reflexivity.
Qed.

Lemma replace_char_absent (c : ascii) (r s : string) :
  mem_char c s = false -> replace (String c "") r s = s.
Proof.
  induction s as [|x s IH]; intros H; [reflexivity|].
  simpl in H. apply orb_false_iff in H as [Hx Hs].
  rewrite replace_char_cons, Hx, (IH Hs). reflexivity.
Qed.

(** ** [str.split] and [str.join] *)

Section SplitFacts.

Variable sep : string.
Hypothesis sep_nonempty : sep <> "".

Lemma split_from_not_nil (k : nat) (s : string) : split_from sep k s <> [].
Proof.
  revert k; induction s as [|c s IH]; intros k; simpl; [discriminate|].
  destruct k; [|apply IH].
  destruct (startswith sep (String c s)); [discriminate|].
  destruct (split_from sep 0 s); discriminate.
Qed.

Lemma join_cons (j x : string) (l : list string) :
  l <> [] -> join j (x :: l) = x ++ j ++ join j l.
Proof. destruct l; [congruence|reflexivity]. Qed.

Lemma length_sep : String.length sep = S (String.length sep - 1).
Proof. destruct sep; [congruence|simpl; lia]. Qed.

Lemma drop_match (c : ascii) (s : string) :
  startswith sep (String c s) = true ->
  String c s = sep ++ drop (String.length sep - 1) s.
Proof.
  intros H. rewrite (startswith_split _ _ H) at 1.
  pose proof length_sep as L.
  destruct (String.length sep) as [|n]; [discriminate|].
  simpl. now rewrite Nat.sub_0_r.
Qed.

(** Joining the pieces with the separator gives the text back. *)
Lemma join_split_from (k : nat) (s : string) :
  join sep (split_from sep k s) = drop k s.
Proof.
  revert k; induction s as [|c s IH]; intros k.
  - now rewrite drop_nil.
  - destruct k as [|k]; [|apply IH].
    simpl split_from. simpl drop.
    destruct (startswith sep (String c s)) eqn:E.
    + rewrite join_cons by apply split_from_not_nil.
      rewrite IH. simpl append. symmetry. now apply drop_match.
    + specialize (IH 0). simpl drop in IH.
      destruct (split_from sep 0 s) as [|p ps] eqn:Es.
      * now apply split_from_not_nil in Es.
      * rewrite <- IH. destruct ps; reflexivity.
Qed.


(** No piece contains the separator. *)
Lemma split_from_pieces_free (k : nat) (s : string) :
  Forall (fun p => contains sep p = false) (split_from sep k s).
Proof.
  revert k; induction s as [|c s IH]; intros k.
  - simpl. constructor; [|constructor].
    destruct sep; [congruence|reflexivity].
  - destruct k as [|k]; [|apply IH].
    simpl split_from.
    destruct (startswith sep (String c s)) eqn:E.
    + constructor; [|apply IH]. destruct sep; [congruence|reflexivity].
    + pose proof (IH 0) as Hf. pose proof (join_split_from 0 s) as Hj.
      simpl drop in Hj.
      destruct (split_from sep 0 s) as [|p ps] eqn:Es.
      * now apply split_from_not_nil in Es.
      * apply Forall_cons_iff in Hf as [Hp Hps].
        constructor; [|exact Hps].
        rewrite contains_cons, Hp, orb_false_r.
        destruct (startswith sep (String c p)) eqn:E'; [|reflexivity].
        assert (exists r, s = p ++ r) as [r Hr].
        { destruct ps; [exists ""; now rewrite app_nil_r|].
          rewrite join_cons in Hj by discriminate. eauto. }
        pose proof (startswith_weaken sep (String c p) r E') as H'.
        simpl append in H'. rewrite <- Hr, E in H'. discriminate.
Qed.

(** The last piece is what follows the last separator. *)
Lemma join_last (l : list string) (j : string) :
  l <> [] ->
  exists seg, index_last l = Some seg /\
    ((l = [seg] /\ join j l = seg) \/
     (exists pre, join j l = pre ++ j ++ seg)).
Proof.
  induction l as [|x l IH]; intros H; [congruence|].
  destruct l as [|y l].
  - exists x. split; [reflexivity|]. left. split; reflexivity.
  - destruct IH as [seg [Hseg Hcase]]; [discriminate|].
    exists seg. split; [exact Hseg|]. right.
    rewrite join_cons by discriminate.
    destruct Hcase as [[Hl Hj]|[pre Hj]].
    + exists x. now rewrite Hj.
    + exists (x ++ j ++ pre). rewrite Hj, !app_assoc. reflexivity.
Qed.

Lemma index_last_In (l : list string) (seg : string) :
  index_last l = Some seg -> In seg l.
Proof.
  induction l as [|x l IH]; [discriminate|].
  destruct l as [|y l]; simpl.
  - intros H; injection H; auto.
  - intros H. right. now apply IH.
Qed.

End SplitFacts.

Lemma contains_char (c : ascii) (s : string) :
  contains (String c "") s = mem_char c s.
Proof.
  induction s as [|a s IH]; [reflexivity|].
  rewrite contains_cons, IH. simpl. now rewrite andb_true_r.
Qed.

(** ** Escaper: identity on text without reserved characters *)

(** C8.  A text that contains none of the reserved characters
    [& % $ # _ { } ~ ^] is returned unchanged by [escape_latex]. *)
Theorem escape_identity_on_reserved_free (x : string) :
  (forall c, In c reserved_chars -> mem_char c x = false) ->
  escape_latex (Some x) = x.
Proof.
  intros H.
  assert (Hc : forall c r, In c reserved_chars ->
                 replace (String c "") r x = x).
  { intros c r Hin. apply replace_char_absent. now apply H. }
  cbv [escape_latex apply_replacements replacements fold_left fst snd].
  rewrite (Hc "&"%char) by (simpl; tauto).
  rewrite (replace_no_occurrence "\\&" "\&" x).
  2:{ apply (contains_mem_char "&"); [reflexivity|]. apply H. simpl; tauto. }
  rewrite (Hc "%"%char) by (simpl; tauto).
  rewrite (Hc "$"%char) by (simpl; tauto).
  rewrite (Hc "#"%char) by (simpl; tauto).
  rewrite (Hc "_"%char) by (simpl; tauto).
  rewrite (Hc "{"%char) by (simpl; tauto).
  rewrite (Hc "}"%char) by (simpl; tauto).
  rewrite (Hc "~"%char) by (simpl; tauto).
  apply (Hc "^"%char). simpl; tauto.
Qed.

Lemma escape_identity_on_reserved_free_witness :
  (forall c, In c reserved_chars -> mem_char c "Ada Lovelace \ 2024" = false)
  /\ escape_latex (Some "Ada Lovelace \ 2024") = "Ada Lovelace \ 2024".
Proof.
  assert (H : forall c, In c reserved_chars ->
                mem_char c "Ada Lovelace \ 2024" = false).
  { intros c Hin. simpl in Hin.
    repeat (destruct Hin as [<-|Hin]; [reflexivity|]). contradiction. }
  split; [exact H|].
  apply (escape_identity_on_reserved_free "Ada Lovelace \ 2024" H).
Defined.

(** ** Template filler *)









(** ** Awards: the linked part of the organization detail *)

Lemma detail_link_text_defined (org_detail : string) :
  exists parts seg,
    split ":" org_detail = Some parts
    /\ index_last parts = Some seg
    /\ detail_link_text org_detail = strip seg
    /\ mem_char ":" seg = false
    /\ (org_detail = seg \/ exists pre, org_detail = pre ++ ":" ++ seg).
Proof.
  assert (Hne : ":" <> "") by discriminate.
  destruct (join_last (split_from ":" 0 org_detail) ":"
              (split_from_not_nil ":" 0 org_detail))
    as [seg [Hseg Hcase]].
  exists (split_from ":" 0 org_detail), seg.
  split; [reflexivity|]. split; [exact Hseg|]. split; [|split].
  - unfold detail_link_text.
    change (split ":" org_detail) with (Some (split_from ":" 0 org_detail)).
    cbv beta iota. now rewrite Hseg.
  - rewrite <- contains_char.
    pose proof (split_from_pieces_free ":" Hne 0 org_detail) as Hf.
    rewrite Forall_forall in Hf. apply Hf.
    now apply index_last_In.
  - pose proof (join_split_from ":" Hne 0 org_detail) as Hj. simpl drop in Hj.
    rewrite Hj in Hcase. destruct Hcase as [[_ H]|H]; [now left|now right].
Qed.

(** C2, as the code has it.  For an award with a non-empty
    organization_detail and a non-empty organization_url, the organization
    text is the escaped organization, the vertical-bar separator, and a
    hyperlink to the url whose display text is the trimmed part of the
    escaped detail after its LAST colon (the whole escaped detail when it
    has no colon). *)
Theorem award_link_text_after_last_colon (award : Award) (detail url : string) :
  award_organization_detail award = Some detail -> detail <> "" ->
  award_organization_url award = Some url -> url <> "" ->
  exists seg,
    organization_text award
    = esc (award_organization award) ++ " $\vert$ " ++ href url (strip seg)
    /\ mem_char ":" seg = false
    /\ (esc detail = seg \/ exists pre, esc detail = pre ++ ":" ++ seg).
Proof.
  intros Hd Hdne Hu Hune.
  destruct (detail_link_text_defined (esc detail))
    as [parts [seg [_ [_ [Htext [Hfree Hcase]]]]]].
  exists seg. split; [|split; assumption].
  unfold organization_text. rewrite Hd, Hu.
  destruct detail as [|d0 detail]; [congruence|].
  destruct url as [|u0 url]; [congruence|].
  rewrite Htext. reflexivity.
Qed.

Lemma award_link_text_after_last_colon_witness :
  exists seg,
    organization_text award_two_colons
    = esc "Org" ++ " $\vert$ " ++ href "http://x" (strip seg)
    /\ mem_char ":" seg = false
    /\ (esc "A: B: C" = seg \/ exists pre, esc "A: B: C" = pre ++ ":" ++ seg).
Proof.
  apply (award_link_text_after_last_colon award_two_colons "A: B: C" "http://x");
    solve [reflexivity | discriminate].
Defined.

(** C2 as stated fails: with two colons in the detail the link wraps what
    follows the last colon, not what follows the first. *)
Lemma award_link_text_first_colon_counterexample :
  organization_text award_two_colons = "Org $\vert$ \href{http://x}{C}"
  /\ organization_text award_two_colons <> "Org $\vert$ \href{http://x}{B: C}".
Proof. split; [reflexivity|]. vm_compute. discriminate. Qed.

(** ** Experience: the company-display string *)

Lemma present_some (v : option string) (s : string) :
  v = Some s -> s <> "" -> exists c s', v = Some (String c s') /\ s = String c s'.
Proof. intros -> H. destruct s as [|c s']; [congruence|eauto]. Qed.

Lemma company_text_not_present (exp : Experience) :
  present (exp_company_description exp) = false ->
  company_text exp =
  match exp_company_url exp with
  | Some (String _ _ as url) => "\href{" ++ url ++ "}{" ++ esc (exp_company exp) ++ "}"
  | _ => esc (exp_company exp)
  end.
Proof.
  unfold company_text.
  destruct (exp_company_description exp) as [[|c d]|]; simpl; intros H;
    congruence.
Qed.

(** C6.  The company-display string of an experience entry follows the
    four-case rule: url and description both present and non-empty give the
    hyperlinked name followed by the description suffix; description only
    gives the escaped name followed by the suffix, without a link; url only
    gives the hyperlinked name and nothing after it; neither gives the plain
    escaped name. *)
Theorem company_text_four_cases (exp : Experience) :
  (forall url desc,
      exp_company_url exp = Some url -> url <> "" ->
      exp_company_description exp = Some desc -> desc <> "" ->
      company_text exp
      = href url (esc (exp_company exp)) ++ "{: " ++ esc desc ++ "}")
  /\ (forall desc,
        present (exp_company_url exp) = false ->
        exp_company_description exp = Some desc -> desc <> "" ->
        company_text exp = esc (exp_company exp) ++ "{: " ++ esc desc ++ "}")
  /\ (forall url,
        exp_company_url exp = Some url -> url <> "" ->
        present (exp_company_description exp) = false ->
        company_text exp = href url (esc (exp_company exp)))
  /\ (present (exp_company_url exp) = false ->
      present (exp_company_description exp) = false ->
      company_text exp = esc (exp_company exp)).
Proof.
  repeat split.
  - intros url desc Hu Hune Hd Hdne.
    destruct (present_some _ _ Hu Hune) as [c [u' [Hu' ->]]].
    destruct (present_some _ _ Hd Hdne) as [d [d' [Hd' ->]]].
    unfold company_text, href. rewrite Hu', Hd'.
    rewrite !app_assoc. reflexivity.
  - intros desc Hu Hd Hdne.
    destruct (present_some _ _ Hd Hdne) as [d [d' [Hd' ->]]].
    unfold company_text. rewrite Hd'.
    destruct (exp_company_url exp) as [[|c u]|]; simpl in Hu;
      congruence.
  - intros url Hu Hune Hd.
    destruct (present_some _ _ Hu Hune) as [c [u' [Hu' ->]]].
    rewrite company_text_not_present by exact Hd. now rewrite Hu'.
  - intros Hu Hd. rewrite company_text_not_present by exact Hd.
    destruct (exp_company_url exp) as [[|c u]|]; simpl in Hu; congruence.
Qed.

Lemma company_text_four_cases_witness :
  company_text exp_linked
  = href "http://corp.example/a_b" (esc "R&D Corp")
    ++ "{: " ++ esc "tools & compilers" ++ "}"
  /\ company_text exp_desc_only
     = esc "R&D Corp" ++ "{: " ++ esc "tools & compilers" ++ "}"
  /\ company_text exp_url_only
     = href "http://corp.example/a_b" (esc "R&D Corp")
  /\ company_text exp_plain = esc "R&D Corp".
Proof.
  split; [|split; [|split]].
  - apply (proj1 (company_text_four_cases exp_linked)
             "http://corp.example/a_b" "tools & compilers");
      solve [reflexivity | discriminate].
  - apply (proj1 (proj2 (company_text_four_cases exp_desc_only))
             "tools & compilers");
      solve [reflexivity | discriminate].
  - apply (proj1 (proj2 (proj2 (company_text_four_cases exp_url_only)))
             "http://corp.example/a_b");
      solve [reflexivity | discriminate].
  - apply (proj2 (proj2 (proj2 (company_text_four_cases exp_plain))));
      reflexivity.
Defined.

Example company_text_linked :
  company_text exp_linked
  = "\href{http://corp.example/a_b}{R\&D Corp}{: tools \& compilers}".
Proof. reflexivity. Qed.

(** ** Publications: spacing between entries *)

Lemma pub_eqb_refl (p : Publication) : pub_eqb p p = true.
Proof. unfold pub_eqb. now rewrite !String.eqb_refl. Qed.

(** C4 on the code.  When an earlier entry is equal, field by field, to the
    last one, the comparison [pub != pub_items[-1]] is false for it as well:
    the two items come out with no spacing directive between them. *)
Theorem publications_spacing_lost_for_equal_entry (p : Publication) :
  format_publications [p; p] = pub_item p ++ pub_item p.
Proof.
  unfold format_publications, pub_blocks. simpl flat_map.
  rewrite pub_eqb_refl. reflexivity.
Qed.

Example publications_equal_entries_no_vspace :
  contains vspace (format_publications [pub_one; pub_one]) = false.
Proof. reflexivity. Qed.

Lemma join_empty_cons (x : string) (l : list string) :
  join "" (x :: l) = x ++ join "" l.
Proof. destruct l; simpl; [now rewrite app_nil_r|reflexivity]. Qed.

Lemma join_empty_app (a b : list string) :
  join "" (a ++ b) = join "" a ++ join "" b.
Proof.
  induction a as [|x a IH]; [reflexivity|].
  simpl app. now rewrite !join_empty_cons, IH, app_assoc.
Qed.

Lemma pub_blocks_before_last (whole l : list Publication) (q : Publication) :
  (forall d, last whole d = q) ->
  (forall p, In p l -> pub_eqb p q = false) ->
  join "" (flat_map (pub_blocks whole) l)
  = join "" (map (fun p => pub_item p ++ vspace) l).
Proof.
  intros Hlast. induction l as [|p l IH]; intros H; [reflexivity|].
  assert (E : pub_blocks whole p = [pub_item p; vspace])
    by (unfold pub_blocks; now rewrite Hlast, (H p) by (now left)).
  change (flat_map (pub_blocks whole) (p :: l))
    with ((pub_blocks whole p ++ flat_map (pub_blocks whole) l)%list).
  rewrite E.
  change (join "" (pub_item p :: vspace :: flat_map (pub_blocks whole) l)
          = join "" ((pub_item p ++ vspace)
                     :: map (fun p => pub_item p ++ vspace) l)).
  rewrite !join_empty_cons, app_assoc, IH; [reflexivity|].
  intros p' Hp'. apply H. now right.
Qed.

(** Where no earlier entry equals the last one, the comparison does what
    the comment says: spacing after every entry but the last. *)
Lemma publications_spacing_distinct (l : list Publication) (q : Publication) :
  (forall p, In p l -> pub_eqb p q = false) ->
  format_publications (l ++ [q])
  = join "" (map (fun p => pub_item p ++ vspace) l) ++ pub_item q.
Proof.
  intros H. unfold format_publications.
  rewrite flat_map_app, join_empty_app. f_equal.
  - apply (pub_blocks_before_last _ _ q); [|exact H].
    intros d. apply last_last.
  - simpl flat_map. unfold pub_blocks.
    rewrite last_last, pub_eqb_refl. reflexivity.
Qed.

(** ** Inline links: the placeholder of link 1 is a prefix of that of link 10 *)

(** C3 on the code.  With eleven links, restoring [HREFPLACEHOLDER1] also
    rewrites the head of [HREFPLACEHOLDER10]: the eleventh command is lost
    and the second one, followed by a stray [0], stands in its place. *)
Theorem eleven_links_placeholder_collision :
  translate_links eleven_links
  = "\href{u0}{a0} \href{u1}{a1} \href{u2}{a2} \href{u3}{a3} \href{u4}{a4} \href{u5}{a5} \href{u6}{a6} \href{u7}{a7} \href{u8}{a8} \href{u9}{a9} \href{u1}{a1}0"
  /\ contains (href "u10" "a10") (translate_links eleven_links) = false.
Proof. split; vm_compute; reflexivity. Qed.

Example literal_placeholder_text_is_rewritten :
  translate_links "HREFPLACEHOLDER0 [a](u)" = "\href{u}{a} \href{u}{a}".
Proof. vm_compute. reflexivity. Qed.

Example identical_links_survive :
  translate_links "[a](u) [a](u)" = "\href{u}{a} \href{u}{a}".
Proof. vm_compute. reflexivity. Qed.

(** ** URL fields reach the markup unescaped *)

Lemma join_In (j x : string) (l : list string) :
  In x l -> exists pre post, join j l = pre ++ x ++ post.
Proof.
  induction l as [|y l IH]; intros H; [contradiction|].
  destruct H as [->|H].
  - destruct l as [|z l].
    + exists "", "". simpl. now rewrite app_nil_r.
    + exists "", (j ++ join j (z :: l)). reflexivity.
  - destruct (IH H) as [pre [post E]].
    exists (y ++ j ++ pre), post.
    rewrite join_cons by (intros ->; contradiction).
    rewrite E, !app_assoc. reflexivity.
Qed.

(** A block that contains [mid] puts it into the joined output. *)
Lemma join_In_inside (j block : string) (l : list string)
  (mid : string -> string) :
  In block l ->
  (forall x y, mid x ++ y = mid (x ++ y)) ->
  (exists a b, block = a ++ mid b) ->
  exists pre post, join j l = pre ++ mid post.
Proof.
  intros Hin Hmid [a [b ->]].
  destruct (join_In j _ _ Hin) as [pre [post E]].
  exists (pre ++ a), (b ++ post). rewrite E, !app_assoc, Hmid. reflexivity.
Qed.

Lemma company_text_url (e : Experience) (url : string) :
  exp_company_url e = Some url -> url <> "" ->
  exists post,
    company_text e = "\href{" ++ url ++ "}{" ++ esc (exp_company e) ++ "}" ++ post.
Proof.
  intros Hu Hne. destruct (present_some _ _ Hu Hne) as [c [u [Hu' ->]]].
  unfold company_text. rewrite Hu'.
  destruct (exp_company_description e) as [[|d ds]|];
    eexists; try (rewrite app_nil_r; reflexivity).
  instantiate (1 := "{: " ++ esc (String d ds) ++ "}"). reflexivity.
Qed.

(** C10.  Every formatter puts the value of the URL field itself, not its
    escaped form, as the first brace argument of the hyperlink command it
    emits: contact links, the company link of an experience entry, the
    organization link of an award, the certificate link and the publication
    link. *)
Theorem urls_inserted_verbatim :
  (forall links l, In l links ->
     exists pre post,
       format_contact_links links
       = pre ++ "\href{" ++ link_url l ++ "}{" ++ esc (link_name l) ++ "}" ++ post)
  /\ (forall items e url,
        In e items -> exp_company_url e = Some url -> url <> "" ->
        exists pre post,
          format_experience items
          = pre ++ "\href{" ++ url ++ "}{" ++ esc (exp_company e) ++ "}" ++ post)
  /\ (forall items a url detail,
        In a items ->
        award_organization_url a = Some url -> url <> "" ->
        award_organization_detail a = Some detail -> detail <> "" ->
        exists pre post,
          format_awards items
          = pre ++ "\href{" ++ url ++ "}{" ++ detail_link_text (esc detail) ++ "}" ++ post)
  /\ (forall items c, In c items ->
        exists pre post,
          format_certifications items
          = pre ++ "\href{" ++ cert_url c ++ "}{Certificate}" ++ post)
  /\ (forall items p, In p items ->
        exists pre post,
          format_publications items
          = pre ++ "\href{" ++ pub_url p ++ "}{link}" ++ post).
Proof.
  split; [|split; [|split; [|split]]].
  - intros links l Hin.
    apply (join_In_inside vert
             ("\href{" ++ link_url l ++ "}{" ++ esc (link_name l) ++ "}") _
             (fun post => "\href{" ++ link_url l ++ "}{"
                          ++ esc (link_name l) ++ "}" ++ post)).
    + apply (in_map (fun link => "\href{" ++ link_url link ++ "}{"
                                  ++ esc (link_name link) ++ "}") _ _ Hin).
    + intros x y. rewrite !app_assoc. reflexivity.
    + exists "", "". reflexivity.
  - intros items e url Hin Hu Hne.
    destruct (company_text_url e url Hu Hne) as [suffix Hc].
    apply (join_In_inside ""
             ("  \resumeSubheading" ++ nl ++
              "  {" ++ esc (exp_title e) ++ "}{"
                    ++ (exp_date_start e ++ " - " ++ exp_date_end e) ++ "}" ++ nl ++
              "  {" ++ company_text e ++ "}{" ++ esc (exp_location e) ++ "}" ++ nl) _
             (fun post => "\href{" ++ url ++ "}{"
                          ++ esc (exp_company e) ++ "}" ++ post)).
    + apply in_flat_map. exists e. split; [exact Hin|]. left. reflexivity.
    + intros x y. rewrite !app_assoc. reflexivity.
    + exists ("  \resumeSubheading" ++ nl ++
              "  {" ++ esc (exp_title e) ++ "}{"
                    ++ (exp_date_start e ++ " - " ++ exp_date_end e) ++ "}" ++ nl ++
              "  {"),
             (suffix ++ "}{" ++ esc (exp_location e) ++ "}" ++ nl).
      rewrite Hc, !app_assoc. reflexivity.
  - intros items a url detail Hin Hu Hune Hd Hdne.
    destruct (present_some _ _ Hu Hune) as [c [u [Hu' ->]]].
    destruct (present_some _ _ Hd Hdne) as [d [ds [Hd' ->]]].
    apply (join_In_inside "" (award_block a) _
             (fun post => "\href{" ++ String c u ++ "}{"
                          ++ detail_link_text (esc (String d ds)) ++ "}" ++ post)).
    + apply in_map. exact Hin.
    + intros x y. rewrite !app_assoc. reflexivity.
    + exists ("    \resumeSubheading" ++ nl ++
              "      {" ++ esc (award_title a) ++ "}{" ++ award_date a ++ "}" ++ nl ++
              "      {" ++ esc (award_organization a) ++ vert),
             ("}{" ++ esc (award_location a) ++ "}" ++ nl).
      unfold award_block, organization_text. rewrite Hu', Hd'.
      rewrite !app_assoc. reflexivity.
  - intros items c Hin.
    apply (join_In_inside "" (cert_block c) _
             (fun post => "\href{" ++ cert_url c ++ "}{Certificate}" ++ post)).
    + apply in_map. exact Hin.
    + intros x y. rewrite !app_assoc. reflexivity.
    + exists ("    \resumeSubheading" ++ nl ++
              "      {" ++ esc (cert_title c) ++ "}{" ++ cert_date c ++ "}" ++ nl ++
              "      {"),
             ("}{" ++ esc (cert_organization c) ++ "}" ++ nl).
      unfold cert_block. rewrite !app_assoc. reflexivity.
  - intros items p Hin.
    apply (join_In_inside "" (pub_item p) _
             (fun post => "\href{" ++ pub_url p ++ "}{link}" ++ post)).
    + apply in_flat_map. exists p. split; [exact Hin|]. left. reflexivity.
    + intros x y. rewrite !app_assoc. reflexivity.
    + exists ("  \item{"
              ++ replace "M. Ghorbandoost" "\textbf{M. Ghorbandoost}"
                         (esc (pub_authors p))
              ++ ", ``" ++ esc (pub_title p) ++ "'', " ++ esc (pub_venue p)
              ++ ", " ++ pub_year p ++ ". "),
             ("}" ++ nl).
      unfold pub_item. rewrite !app_assoc. reflexivity.
Qed.

Lemma urls_inserted_verbatim_witness :
  (exists pre post,
      format_contact_links [link_reserved]
      = pre ++ "\href{" ++ "http://x.org/a_b?c=1&d=2#e%20f" ++ "}{"
            ++ esc "Home_page" ++ "}" ++ post)
  /\ (exists pre post,
        format_experience [exp_plain; exp_linked]
        = pre ++ "\href{" ++ "http://corp.example/a_b" ++ "}{"
              ++ esc "R&D Corp" ++ "}" ++ post)
  /\ (exists pre post,
        format_awards [award_reserved]
        = pre ++ "\href{" ++ "http://a.org/x_y?p=1&q=2#top" ++ "}{"
              ++ detail_link_text (esc "Rank: 1st") ++ "}" ++ post)
  /\ (exists pre post,
        format_certifications [cert_reserved]
        = pre ++ "\href{" ++ "http://c.org/id%20_1" ++ "}{Certificate}" ++ post)
  /\ (exists pre post,
        format_publications [pub_one; pub_reserved]
        = pre ++ "\href{" ++ "http://doi.example/10.1000/a_b#s1" ++ "}{link}"
              ++ post).
Proof.
  destruct urls_inserted_verbatim as [H1 [H2 [H3 [H4 H5]]]].
  split; [|split; [|split; [|split]]].
  - apply (H1 [link_reserved] link_reserved). left. reflexivity.
  - apply (H2 [exp_plain; exp_linked] exp_linked).
    + right. left. reflexivity.
    + reflexivity.
    + discriminate.
  - apply (H3 [award_reserved] award_reserved _ "Rank: 1st").
    + left. reflexivity.
    + reflexivity.
    + discriminate.
    + reflexivity.
    + discriminate.
  - apply (H4 [cert_reserved] cert_reserved). left. reflexivity.
  - apply (H5 [pub_one; pub_reserved] pub_reserved). right. left. reflexivity.
Defined.

Example contact_link_url_unescaped :
  format_contact_links [link_reserved]
  = "\href{http://x.org/a_b?c=1&d=2#e%20f}{Home\_page}".
Proof. reflexivity. Qed.

(** ** The two ampersand passes of [escape_latex] *)

Local Abbreviation amp_pass := (replace "&" "\&").
Local Abbreviation fix_pass := (replace "\\&" "\&").

#[local] Arguments Ascii.eqb : simpl never.

Lemma fix_pass_cons_other (a : ascii) (s : string) :
  a <> "\"%char -> fix_pass (String a s) = String a (fix_pass s).
Proof.
  intros H. unfold replace. apply replace_from_nomatch.
  simpl. destruct (Ascii.eqb_spec "\" a); [congruence|reflexivity].
Qed.

Lemma fix_pass_bs (s : string) :
  startswith "\&" s = false ->
  fix_pass (String "\" s) = String "\" (fix_pass s).
Proof.
  intros H. unfold replace. apply replace_from_nomatch.
  change (startswith "\\&" (String "\" s)) with (startswith "\&" s).
  exact H.
Qed.

Lemma fix_pass_match (s : string) :
  fix_pass ("\\&" ++ s) = "\&" ++ fix_pass s.
Proof. unfold replace. now apply replace_from_match. Qed.

Lemma amp_pass_cons (a : ascii) (s : string) :
  amp_pass (String a s)
  = (if Ascii.eqb a "&" then "\&" else String a "") ++ amp_pass s.
Proof. rewrite replace_char_cons, Ascii.eqb_sym. reflexivity. Qed.

Lemma amp_pass_head (s : string) : startswith "&" (amp_pass s) = false.
Proof.
  destruct s as [|a s]; [reflexivity|].
  rewrite amp_pass_cons.
  destruct (Ascii.eqb_spec a "&") as [->|H]; [reflexivity|].
  simpl. destruct (Ascii.eqb_spec "&" a); [congruence|reflexivity].
Qed.

(** After the first pass, the corrective pass leaves exactly one inserted
    backslash before each ampersand that had none. *)
Lemma fix_after_amp_pass (s : string) :
  fix_pass (amp_pass s) = ensure_amp false s
  /\ fix_pass (String "\" (amp_pass s)) = String "\" (ensure_amp true s).
Proof.
  induction s as [|a s [IH1 IH2]]; [split; reflexivity|].
  rewrite amp_pass_cons. simpl ensure_amp.
  destruct (Ascii.eqb_spec a "&") as [->|Hamp].
  - split.
    + change ("\&" ++ amp_pass s) with (String "\" (String "&" (amp_pass s))).
      rewrite fix_pass_bs by reflexivity.
      rewrite fix_pass_cons_other by discriminate.
      now rewrite IH1.
    + change (String "\" ("\&" ++ amp_pass s)) with ("\\&" ++ amp_pass s).
      now rewrite fix_pass_match, IH1.
  - change (String a "" ++ amp_pass s) with (String a (amp_pass s)).
    destruct (Ascii.eqb_spec a "\") as [->|Hbs].
    + split; [exact IH2|].
      rewrite fix_pass_bs; [now rewrite IH2|].
      change (startswith "\&" (String "\" (amp_pass s)))
        with (startswith "&" (amp_pass s)).
      apply amp_pass_head.
    + split.
      * rewrite fix_pass_cons_other by exact Hbs. now rewrite IH1.
      * rewrite fix_pass_bs.
        -- rewrite fix_pass_cons_other by exact Hbs. now rewrite IH1.
        -- simpl. destruct (Ascii.eqb_spec "\" a); [congruence|reflexivity].
Qed.

(** The first pass alone already guards every ampersand. *)
Lemma ensure_amp_amp_pass (b : bool) (s : string) :
  ensure_amp b (amp_pass s) = amp_pass s.
Proof.
  revert b; induction s as [|a s IH]; intros b; [reflexivity|].
  rewrite amp_pass_cons.
  destruct (Ascii.eqb_spec a "&") as [->|Hamp].
  - simpl. now rewrite IH.
  - simpl. destruct (Ascii.eqb_spec a "&"); [congruence|]. now rewrite IH.
Qed.

Lemma startswith_cons (a : ascii) (p : string) (b : ascii) (s : string) :
  startswith (String a p) (String b s) = Ascii.eqb a b && startswith p s.
Proof. reflexivity. Qed.

Lemma fix_pass_no_bs (y x : string) :
  mem_char "\" y = false -> fix_pass (y ++ x) = y ++ fix_pass x.
Proof.
  induction y as [|a y IH]; intros H; [reflexivity|].
  simpl in H. apply orb_false_iff in H as [Ha Hy].
  simpl append. rewrite fix_pass_cons_other.
  - now rewrite IH.
  - intros ->. now rewrite Ascii.eqb_refl in Ha.
Qed.

(** A single-character replacement whose new text is a backslash, a
    character that is neither backslash nor ampersand, and then no further
    backslash: the shape of every entry of [replacements]. *)
Section EscapeSequence.

Variables (c d : ascii) (rest : string).
Hypothesis c_plain : mem_char c "\&" = false.
Hypothesis d_plain : mem_char d "\&" = false.
Hypothesis rest_plain : mem_char "\" rest = false.

Local Abbreviation seq_text := (String "\" (String d rest)).
Local Abbreviation rep := (replace (String c "") (String "\" (String d rest))).

Lemma c_not_bs : Ascii.eqb "\" c = false.
Proof.
  pose proof c_plain as H. simpl in H. apply orb_false_iff in H as [H _].
  now rewrite Ascii.eqb_sym.
Qed.

Lemma c_not_amp : Ascii.eqb "&" c = false.
Proof.
  pose proof c_plain as H. simpl in H. apply orb_false_iff in H as [_ H].
  apply orb_false_iff in H as [H _]. now rewrite Ascii.eqb_sym.
Qed.

Lemma d_not_bs : Ascii.eqb "\" d = false.
Proof.
  pose proof d_plain as H. simpl in H. apply orb_false_iff in H as [H _].
  now rewrite Ascii.eqb_sym.
Qed.

Lemma d_not_amp : Ascii.eqb "&" d = false.
Proof.
  pose proof d_plain as H. simpl in H. apply orb_false_iff in H as [_ H].
  apply orb_false_iff in H as [H _]. now rewrite Ascii.eqb_sym.
Qed.

Lemma rep_cons_c (s : string) : rep (String c s) = seq_text ++ rep s.
Proof. now rewrite replace_char_cons, Ascii.eqb_refl. Qed.

Lemma rep_cons_other (a : ascii) (s : string) :
  Ascii.eqb c a = false -> rep (String a s) = String a (rep s).
Proof. intros H. now rewrite replace_char_cons, H. Qed.

Lemma rep_amp_head (s : string) :
  startswith "&" (rep s) = startswith "&" s.
Proof.
  destruct s as [|a s]; [reflexivity|].
  destruct (Ascii.eqb c a) eqn:E.
  - apply Ascii.eqb_eq in E; subst a. rewrite rep_cons_c.
    simpl append. rewrite !startswith_cons, c_not_amp. reflexivity.
  - rewrite rep_cons_other by exact E. reflexivity.
Qed.

Lemma rep_bs_amp_head (s : string) :
  startswith "\&" (rep s) = startswith "\&" s.
Proof.
  destruct s as [|a s]; [reflexivity|].
  destruct (Ascii.eqb c a) eqn:E.
  - apply Ascii.eqb_eq in E; subst a. rewrite rep_cons_c.
    simpl append. rewrite !startswith_cons, c_not_bs, d_not_amp.
    now rewrite andb_false_r.
  - rewrite rep_cons_other by exact E.
    rewrite !startswith_cons, rep_amp_head. reflexivity.
Qed.

Lemma rep_fix_pat_head (s : string) :
  startswith "\\&" (rep s) = startswith "\\&" s.
Proof.
  destruct s as [|a s]; [reflexivity|].
  destruct (Ascii.eqb c a) eqn:E.
  - apply Ascii.eqb_eq in E; subst a. rewrite rep_cons_c.
    simpl append. rewrite !startswith_cons, c_not_bs, d_not_bs.
    now rewrite andb_false_r.
  - rewrite rep_cons_other by exact E.
    rewrite !startswith_cons, rep_bs_amp_head. reflexivity.
Qed.

Lemma fix_pass_seq_text (x : string) :
  fix_pass (seq_text ++ x) = seq_text ++ fix_pass x.
Proof.
  simpl append. rewrite fix_pass_bs.
  - rewrite fix_pass_cons_other.
    + now rewrite fix_pass_no_bs by exact rest_plain.
    + intros Hd. pose proof d_not_bs as H. rewrite Hd in H.
      now rewrite Ascii.eqb_refl in H.
  - rewrite startswith_cons, d_not_bs. reflexivity.
Qed.

(** The corrective pass commutes with such a replacement. *)
Lemma fix_pass_rep_comm (s : string) : fix_pass (rep s) = rep (fix_pass s).
Proof.
  revert s. apply (replace_scan_ind "\\&").
  - discriminate.
  - reflexivity.
  - intros a s Hno IH.
    assert (Hfix : fix_pass (String a s) = String a (fix_pass s))
      by (unfold replace; now apply replace_from_nomatch).
    rewrite Hfix.
    destruct (Ascii.eqb c a) eqn:E.
    + apply Ascii.eqb_eq in E; subst a.
      now rewrite !rep_cons_c, fix_pass_seq_text, IH.
    + rewrite !rep_cons_other by exact E. rewrite <- IH.
      assert (Hno' : startswith "\\&" (String a (rep s)) = false)
        by (rewrite <- (rep_cons_other a s E), rep_fix_pat_head; exact Hno).
      unfold replace. now apply replace_from_nomatch.
  - intros s IH. rewrite fix_pass_match, !replace_char_app.
    rewrite (replace_char_absent c _ "\\&"), (replace_char_absent c _ "\&").
    + now rewrite fix_pass_match, IH.
    + exact c_plain.
    + simpl. rewrite !(Ascii.eqb_sym c), c_not_bs, c_not_amp. reflexivity.
Qed.

End EscapeSequence.

Lemma fix_pass_apply_replacements (t : string) :
  fix_pass (apply_replacements t) = apply_replacements (fix_pass t).
Proof.
  cbv [apply_replacements replacements fold_left fst snd].
  rewrite !fix_pass_rep_comm by reflexivity. reflexivity.
Qed.

Lemma esc_unfold (t : string) :
  esc t = apply_replacements (fix_pass (amp_pass t)).
Proof. reflexivity. Qed.

(** The Escaper, in one pass for the ampersands. *)
Lemma esc_ensure_amp (t : string) :
  esc t = apply_replacements (ensure_amp false t).
Proof. rewrite esc_unfold. now rewrite (proj1 (fix_after_amp_pass t)). Qed.

(** ** Skills: the extra ampersand handling changes nothing *)

(** C9.  For every raw text the skills formatter's pre-escaping of
    ampersands and its corrective pass after the Escaper are redundant: the
    category and the items it emits are the Escaper's output on the raw
    text, so the whole skills block is the one built with the plain
    Escaper. *)
Theorem skills_ampersand_guard_redundant :
  (forall raw, skill_text raw = esc raw)
  /\ (forall skills, format_skills skills = format_skills_plain skills).
Proof.
  assert (H : forall raw, skill_text raw = esc raw).
  { intros raw. unfold skill_text.
    rewrite (esc_unfold (amp_pass raw)).
    rewrite (proj1 (fix_after_amp_pass (amp_pass raw))).
    rewrite ensure_amp_amp_pass.
    rewrite fix_pass_apply_replacements. reflexivity. }
  split; [exact H|].
  intros skills. unfold format_skills, format_skills_plain.
  f_equal. apply map_ext. intros skill. now rewrite !H.
Qed.

Example skill_text_pre_escaped :
  skill_text "C \& C++ & R\&D_x" = "C \& C++ \& R\&D\_x"
  /\ esc "C \& C++ & R\&D_x" = "C \& C++ \& R\&D\_x".
Proof. split; reflexivity. Qed.

(** ** Escaper: ampersands in the output *)

Lemma eqb_neq_both (a b : ascii) :
  a <> b -> Ascii.eqb a b = false /\ Ascii.eqb b a = false.
Proof. intros H. split; apply Ascii.eqb_neq; congruence. Qed.

Lemma amp_guarded_ensure_amp (b : bool) (s : string) :
  amp_guarded b (ensure_amp b s) = true.
Proof.
  revert b; induction s as [|a s IH]; intros b; [reflexivity|].
  simpl ensure_amp.
  destruct (Ascii.eqb_spec a "&") as [->|Hamp].
  - destruct b; simpl; apply IH.
  - simpl. destruct (Ascii.eqb_spec a "&"); [congruence|]. apply IH.
Qed.

Lemma triple_from_ensure_amp (k : nat) (s : string) :
  triple_from k (ensure_amp (0 <? k)%nat s) = triple_from k s.
Proof.
  revert k; induction s as [|a s IH]; intros k; [reflexivity|].
  simpl ensure_amp.
  destruct (Ascii.eqb_spec a "&") as [->|Hamp].
  - pose proof (IH 0) as H0. change (0 <? 0)%nat with false in H0.
    destruct k as [|k]; simpl; now rewrite H0.
  - simpl triple_from.
    destruct (Ascii.eqb_spec a "&"); [congruence|].
    destruct (Ascii.eqb_spec a "\") as [->|Hbs].
    + apply (IH (Nat.min 3 (S k))).
    + apply (IH 0).
Qed.

(** The automaton decides the occurrence of the four characters [\\\&]. *)
Lemma triple_from_spec (k : nat) (s : string) :
  triple_from k s = triple_pending k s || contains "\\\&" s.
Proof.
  revert k; induction s as [|a s IH]; intros k.
  - destruct k as [|[|[|k]]]; reflexivity.
  - rewrite contains_cons. simpl triple_from.
    destruct (Ascii.eqb_spec a "&") as [->|Hamp].
    + rewrite (IH 0). destruct k as [|[|[|k]]]; reflexivity.
    + destruct (Ascii.eqb_spec a "\") as [->|Hbs].
      * rewrite IH.
        change (startswith "\\\&" (String "\" s)) with (startswith "\\&" s).
        destruct k as [|[|[|k]]]; simpl Nat.min; unfold triple_pending;
          repeat match goal with
                 | |- context [startswith ?p (String "\" s)] =>
                     change (startswith p (String "\" s))
                       with (startswith (drop 1 p) s); simpl drop
                 end.
        -- reflexivity.
        -- now rewrite orb_assoc.
        -- now rewrite !orb_assoc.
        -- change (startswith "&" (String "\" s)) with false.
           now rewrite orb_false_l, !orb_assoc.
      * rewrite (IH 0).
        destruct (eqb_neq_both _ _ Hamp) as [_ Ea].
        destruct (eqb_neq_both _ _ Hbs) as [_ Eb].
        destruct k as [|[|[|k]]]; unfold triple_pending;
          rewrite !startswith_cons, ?Ea, ?Eb; reflexivity.
Qed.

Lemma contains_triple (s : string) : contains "\\\&" s = triple_from 0 s.
Proof. now rewrite triple_from_spec. Qed.

Section EscapeSequenceAmp.

Variables (c d : ascii) (rest : string).
Hypothesis c_plain : mem_char c "\&" = false.
Hypothesis d_plain : mem_char d "\&" = false.
Hypothesis rest_no_bs : mem_char "\" rest = false.
Hypothesis rest_no_amp : mem_char "&" rest = false.

Local Abbreviation rep := (replace (String c "") (String "\" (String d rest))).

Lemma plain_char_tests (a : ascii) :
  mem_char a "\&" = false ->
  Ascii.eqb a "&" = false /\ Ascii.eqb a "\" = false.
Proof.
  simpl. intros H. apply orb_false_iff in H as [H1 H2].
  apply orb_false_iff in H2 as [H2 _]. now split.
Qed.

Lemma amp_guarded_plain_run (y x : string) (b : bool) :
  mem_char "\" y = false -> mem_char "&" y = false ->
  amp_guarded b (y ++ x) = amp_guarded (match y with "" => b | _ => false end) x.
Proof.
  revert b; induction y as [|a y IH]; intros b Hbs Hamp; [reflexivity|].
  simpl in Hbs, Hamp.
  apply orb_false_iff in Hbs as [Ha1 Hbs].
  apply orb_false_iff in Hamp as [Ha2 Hamp].
  simpl. rewrite (Ascii.eqb_sym a "&"), Ha2, (Ascii.eqb_sym a "\"), Ha1.
  rewrite (IH false Hbs Hamp). now destruct y.
Qed.

Lemma triple_from_plain_run (y x : string) (k : nat) :
  mem_char "\" y = false -> mem_char "&" y = false ->
  triple_from k (y ++ x) = triple_from (match y with "" => k | _ => 0 end) x.
Proof.
  revert k; induction y as [|a y IH]; intros k Hbs Hamp; [reflexivity|].
  simpl in Hbs, Hamp.
  apply orb_false_iff in Hbs as [Ha1 Hbs].
  apply orb_false_iff in Hamp as [Ha2 Hamp].
  simpl. rewrite (Ascii.eqb_sym a "&"), Ha2, (Ascii.eqb_sym a "\"), Ha1.
  rewrite (IH 0 Hbs Hamp). now destruct y.
Qed.

Lemma amp_guarded_rep (b : bool) (s : string) :
  amp_guarded b (rep s) = amp_guarded b s.
Proof.
  destruct (plain_char_tests c c_plain) as [Ec1 Ec2].
  destruct (plain_char_tests d d_plain) as [Ed1 Ed2].
  revert b; induction s as [|a s IH]; intros b; [reflexivity|].
  rewrite replace_char_cons.
  destruct (Ascii.eqb c a) eqn:E.
  - apply Ascii.eqb_eq in E; subst a.
    simpl. rewrite Ed1, Ed2, Ec1, Ec2.
    rewrite amp_guarded_plain_run by assumption.
    rewrite IH. now destruct rest.
  - simpl. now rewrite !IH.
Qed.

Lemma triple_from_rep (k : nat) (s : string) :
  triple_from k (rep s) = triple_from k s.
Proof.
  destruct (plain_char_tests c c_plain) as [Ec1 Ec2].
  destruct (plain_char_tests d d_plain) as [Ed1 Ed2].
  revert k; induction s as [|a s IH]; intros k; [reflexivity|].
  rewrite replace_char_cons.
  destruct (Ascii.eqb c a) eqn:E.
  - apply Ascii.eqb_eq in E; subst a.
    simpl. rewrite Ed1, Ed2, Ec1, Ec2.
    rewrite triple_from_plain_run by assumption.
    rewrite IH. now destruct rest.
  - simpl. now rewrite !IH.
Qed.

End EscapeSequenceAmp.

Lemma amp_guarded_apply_replacements (b : bool) (t : string) :
  amp_guarded b (apply_replacements t) = amp_guarded b t.
Proof.
  cbv [apply_replacements replacements fold_left fst snd].
  rewrite !amp_guarded_rep by reflexivity. reflexivity.
Qed.

Lemma triple_from_apply_replacements (k : nat) (t : string) :
  triple_from k (apply_replacements t) = triple_from k t.
Proof.
  cbv [apply_replacements replacements fold_left fst snd].
  rewrite !triple_from_rep by reflexivity. reflexivity.
Qed.

Lemma amp_guarded_spec (b : bool) (s pre post : string) :
  amp_guarded b s = true -> s = pre ++ "&" ++ post ->
  (pre = "" /\ b = true) \/ exists pre', pre = pre' ++ "\".
Proof.
  revert b s; induction pre as [|x pre IH]; intros b s H ->.
  - left. split; [reflexivity|]. simpl in H.
    now apply andb_true_iff in H as [H _].
  - right. simpl in H.
    destruct (Ascii.eqb_spec x "&") as [->|Hamp].
    + apply andb_true_iff in H as [_ H].
      destruct (IH _ _ H eq_refl) as [[_ Hf]|[pre' ->]]; [discriminate|].
      now exists (String "&" pre').
    + destruct (IH _ _ H eq_refl) as [[-> Hb]|[pre' ->]].
      * apply Ascii.eqb_eq in Hb; subst x. now exists "".
      * now exists (String x pre').
Qed.

(** C5, as the code has it.  In the output of [escape_latex] every
    ampersand directly follows a backslash, and the output contains a
    triple-escaped ampersand (three backslashes and an ampersand) exactly
    when the input text contains one. *)
Theorem escape_ampersands (text : string) :
  (forall pre post,
      escape_latex (Some text) = pre ++ "&" ++ post ->
      exists pre', pre = pre' ++ "\")
  /\ contains "\\\&" (escape_latex (Some text)) = contains "\\\&" text.
Proof.
  change (escape_latex (Some text)) with (esc text).
  rewrite esc_ensure_amp. split.
  - intros pre post E.
    assert (G : amp_guarded false (apply_replacements (ensure_amp false text)) = true)
      by (rewrite amp_guarded_apply_replacements; apply amp_guarded_ensure_amp).
    destruct (amp_guarded_spec _ _ _ _ G E) as [[_ Hf]|H]; [discriminate|exact H].
  - rewrite !contains_triple, triple_from_apply_replacements.
    apply (triple_from_ensure_amp 0).
Qed.

Lemma escape_ampersands_witness : exists pre', "R" ++ "\" = pre' ++ "\".
Proof.
  apply (proj1 (escape_ampersands "R&D") ("R" ++ "\") "D"). reflexivity.
Defined.

(** C5 as stated fails: three backslashes before an ampersand in the input
    are still there in the output. *)
Lemma escape_triple_escaped_counterexample :
  mem_char "&" "\\\&" = true
  /\ escape_latex (Some "\\\&") = "\\\&"
  /\ contains "\\\&" (escape_latex (Some "\\\&")) = true.
Proof. repeat split. Qed.

(** ** The matchers: what a match says about the text *)

Lemma after_split (p s r : string) : Re.after p s = Some r -> s = p ++ r.
Proof.
  revert s; induction p as [|a p IH]; intros s H; simpl in H.
  - now injection H as ->.
  - destruct s as [|b s]; [discriminate|].
    destruct (Ascii.eqb_spec a b) as [->|]; [|discriminate].
    simpl. f_equal. now apply IH.
Qed.

Lemma after_startswith (p s : string) :
  startswith p s = false -> Re.after p s = None.
Proof.
  revert s; induction p as [|a p IH]; intros s H; simpl in *.
  - destruct s; discriminate.
  - destruct s as [|b s]; [reflexivity|].
    destruct (Ascii.eqb a b); [now apply IH|reflexivity].
Qed.

Lemma span_split (c : ascii) (s run rest : string) :
  Re.span (Re.not_char c) s = (run, rest) ->
  s = run ++ rest /\ mem_char c run = false.
Proof.
  revert run rest; induction s as [|a s IH]; intros run rest H; simpl in H.
  - injection H as <- <-. split; reflexivity.
  - unfold Re.not_char at 1 in H.
    destruct (Ascii.eqb_spec a c) as [->|Hac]; simpl in H.
    + injection H as <- <-. split; reflexivity.
    + destruct (Re.span (Re.not_char c) s) as [run' rest'].
      injection H as <- <-.
      destruct (IH _ _ eq_refl) as [-> Hrun]. split; [reflexivity|].
      simpl. rewrite Hrun, orb_false_r. apply Ascii.eqb_neq. congruence.
Qed.

Lemma nonempty_true (s : string) : Re.nonempty s = true -> s <> "".
Proof. destruct s; [discriminate|discriminate]. Qed.

(** A match of the link pattern is a well-formed link notation. *)
Lemma link_match_sound (s text url : string) :
  Re.link_match s = Some (text, url) ->
  exists post,
    s = "[" ++ text ++ "](" ++ url ++ ")" ++ post
    /\ text <> "" /\ mem_char "]" text = false
    /\ url <> "" /\ mem_char ")" url = false.
Proof.
  unfold Re.link_match. intros H.
  destruct (Re.after "[" s) as [s1|] eqn:E1; [|discriminate].
  destruct (Re.span (Re.not_char "]") s1) as [t s2] eqn:E2.
  destruct (Re.nonempty t) eqn:Et; [|discriminate].
  destruct (Re.after "](" s2) as [s3|] eqn:E3; [|discriminate].
  destruct (Re.span (Re.not_char ")") s3) as [u s4] eqn:E4.
  destruct (Re.nonempty u) eqn:Eu; [|discriminate].
  destruct (Re.after ")" s4) as [s5|] eqn:E5; [|discriminate].
  injection H as <- <-.
  apply after_split in E1, E3, E5.
  apply span_split in E2 as [E2 Ht], E4 as [E4 Hu].
  exists s5. subst s s1 s2 s3 s4.
  repeat split; auto using nonempty_true.
Qed.

Lemma link_match_none (pre s : string) :
  ~ has_link (pre ++ s) -> Re.link_match s = None.
Proof.
  intros H. destruct (Re.link_match s) as [[text url]|] eqn:E; [|reflexivity].
  exfalso. apply H.
  destruct (link_match_sound _ _ _ E) as [post [-> Hw]].
  exists pre, text, url, post. split; [reflexivity|exact Hw].
Qed.

(** ** [re.sub] and [re.findall] where nothing matches *)

Lemma sub_from_no_match (m : string -> option (string * nat)) (pre s : string) :
  (forall a b, pre ++ s = a ++ b -> m b = None) ->
  Re.sub_from m 0 s = s.
Proof.
  revert pre; induction s as [|c s IH]; intros pre H; [reflexivity|].
  simpl. rewrite (H pre (String c s) eq_refl). f_equal.
  apply (IH (pre ++ String c "")). intros a b E. apply (H a b).
  rewrite <- E, app_assoc. reflexivity.
Qed.

Lemma findall_from_no_match (m : string -> option string) (pre s : string) :
  (forall a b, pre ++ s = a ++ b -> m b = None) ->
  Re.findall_from m 0 s = [].
Proof.
  revert pre; induction s as [|c s IH]; intros pre H; [reflexivity|].
  simpl. rewrite (H pre (String c s) eq_refl).
  apply (IH (pre ++ String c "")). intros a b E. apply (H a b).
  rewrite <- E, app_assoc. reflexivity.
Qed.

Lemma sub_links_no_link (d : string) : ~ has_link d -> sub_links d = d.
Proof.
  intros H. unfold sub_links, Re.sub.
  apply (sub_from_no_match _ ""). intros a b E.
  unfold link_rule.
  rewrite (link_match_none a b); [reflexivity|]. now rewrite <- E.
Qed.

Lemma no_href_opener (d a b : string) :
  contains "\href{" d = false -> d = a ++ b -> Re.after "\href{" b = None.
Proof.
  intros H ->. apply after_startswith.
  destruct (startswith "\href{" b) eqn:E; [|reflexivity].
  rewrite (contains_app_r "\href{" a b) in H; [discriminate|].
  destruct b; [discriminate|]. rewrite contains_cons, E. reflexivity.
Qed.

Lemma sub_href_amp_no_opener (d : string) :
  contains "\href{" d = false -> sub_href_amp d = d.
Proof.
  intros H. unfold sub_href_amp, Re.sub.
  apply (sub_from_no_match _ ""). intros a b E.
  unfold href_amp_rule, Re.href_amp_match.
  now rewrite (no_href_opener d a b H E).
Qed.

Lemma find_hrefs_no_opener (d : string) :
  contains "\href{" d = false -> find_hrefs d = [].
Proof.
  intros H. unfold find_hrefs, Re.findall.
  apply (findall_from_no_match _ ""). intros a b E.
  unfold href_cmd_rule, Re.href_cmd_match.
  now rewrite (no_href_opener d a b H E).
Qed.

(** ** Inline links: descriptions without a link *)

(** A description that holds neither a well-formed link notation nor the
    text of a hyperlink command opener comes out simply escaped. *)
Lemma translate_links_no_link (description : string) :
  ~ has_link description ->
  contains "\href{" description = false ->
  translate_links description = esc description.
Proof.
  intros Hlink Hcmd. unfold translate_links.
  rewrite (sub_links_no_link _ Hlink).
  rewrite (sub_href_amp_no_opener _ Hcmd).
  rewrite (find_hrefs_no_opener _ Hcmd). reflexivity.
Qed.

Lemma after_app (p r : string) : Re.after p (p ++ r) = Some r.
Proof.
  induction p as [|a p IH]; [reflexivity|].
  simpl. now rewrite Ascii.eqb_refl.
Qed.

Lemma span_stop (c : ascii) (run rest : string) :
  mem_char c run = false ->
  Re.span (Re.not_char c) (run ++ String c rest) = (run, String c rest).
Proof.
  induction run as [|a run IH]; intros H.
  - simpl. unfold Re.not_char. now rewrite Ascii.eqb_refl.
  - simpl in H. apply orb_false_iff in H as [Ha Hrun].
    simpl. unfold Re.not_char at 1.
    rewrite Ascii.eqb_sym, Ha. simpl. now rewrite (IH Hrun).
Qed.

(** A well-formed link notation at the head is matched, with its groups. *)
Lemma link_match_complete (text url post : string) :
  text <> "" -> mem_char "]" text = false ->
  url <> "" -> mem_char ")" url = false ->
  Re.link_match ("[" ++ text ++ "](" ++ url ++ ")" ++ post) = Some (text, url).
Proof.
  intros Ht Ht' Hu Hu'. unfold Re.link_match.
  rewrite after_app.
  change ("](" ++ url ++ ")" ++ post) with (String "]" ("(" ++ url ++ ")" ++ post)).
  rewrite (span_stop _ _ _ Ht').
  destruct text as [|t0 text]; [congruence|]. simpl Re.nonempty. cbv iota.
  change (String "]" ("(" ++ url ++ ")" ++ post)) with ("](" ++ url ++ ")" ++ post).
  rewrite after_app.
  change (")" ++ post) with (String ")" post).
  rewrite (span_stop _ _ _ Hu').
  destruct url as [|u0 url]; [congruence|]. simpl Re.nonempty. cbv iota.
  change (String ")" post) with (")" ++ post). now rewrite after_app.
Qed.

Lemma link_anywhere_eq (d : string) :
  link_anywhere d =
  match Re.link_match d with
  | Some _ => true
  | None => match d with "" => false | String _ d' => link_anywhere d' end
  end.
Proof. destruct d; reflexivity. Qed.

Lemma link_anywhere_spec (d : string) :
  has_link d <-> link_anywhere d = true.
Proof.
  split.
  - intros [pre [text [url [post [-> [Ht [Ht' [Hu Hu']]]]]]]].
    induction pre as [|a pre IH].
    + rewrite link_anywhere_eq. change ("" ++ ?x) with x.
      now rewrite (link_match_complete _ _ _ Ht Ht' Hu Hu').
    + rewrite link_anywhere_eq.
      destruct (Re.link_match _); [reflexivity|exact IH].
  - induction d as [|a d IH]; intros H.
    + discriminate.
    + rewrite link_anywhere_eq in H.
      destruct (Re.link_match (String a d)) as [[text url]|] eqn:E.
      * destruct (link_match_sound _ _ _ E) as [post [-> Hw]].
        exists "", text, url, post. split; [reflexivity|exact Hw].
      * destruct (IH H) as [pre [text [url [post [-> Hw]]]]].
        exists (String a pre), text, url, post. split; [reflexivity|exact Hw].
Qed.

(** C7 as stated fails: a description with no link notation at all, but
    with the text of a hyperlink command, is not escaped. *)
Lemma translate_links_zero_matches_counterexample :
  ~ has_link "\href{a_b}{c}"
  /\ translate_links "\href{a_b}{c}" = "\href{a_b}{c}"
  /\ escape_latex (Some "\href{a_b}{c}") = "\href\{a\_b\}\{c\}"
  /\ translate_links "\href{a_b}{c}" <> escape_latex (Some "\href{a_b}{c}").
Proof.
  split; [|split; [reflexivity|split; [reflexivity|]]].
  - intros H. apply link_anywhere_spec in H. discriminate H.
  - vm_compute. discriminate.
Qed.

(** ** Scanning over text in which nothing can match *)

Lemma startswith_app_cases (p y r : string) :
  startswith p (y ++ r) = true ->
  startswith p y = true
  \/ (String.length y < String.length p
      /\ startswith (drop (String.length y) p) r = true).
Proof.
  revert y; induction p as [|a p IH]; intros y H.
  - left. destruct y; reflexivity.
  - destruct y as [|b y].
    + right. split; [simpl; lia|exact H].
    + simpl append in H. rewrite startswith_cons in H.
      apply andb_true_iff in H as [Hab H].
      destruct (IH y H) as [Hy|[Hlen Hr]].
      * left. rewrite startswith_cons, Hab, Hy. reflexivity.
      * right. split; [simpl; lia|exact Hr].
Qed.

Lemma startswith_contains (p s : string) :
  startswith p s = true -> contains p s = true.
Proof. intros H. destruct s; simpl; now rewrite H. Qed.

Lemma startswith_trans (p q s : string) :
  startswith p q = true -> startswith q s = true -> startswith p s = true.
Proof.
  revert q s; induction p as [|a p IH]; intros q s Hpq Hqs.
  - destruct s; reflexivity.
  - destruct q as [|b q]; [discriminate|].
    destruct s as [|c s]; [discriminate|].
    rewrite startswith_cons in *.
    apply andb_true_iff in Hpq as [Hab Hpq].
    apply andb_true_iff in Hqs as [Hbc Hqs].
    apply Ascii.eqb_eq in Hab, Hbc. subst.
    rewrite Ascii.eqb_refl. simpl. now apply (IH q).
Qed.

Section Quiet.

Variable hit : string -> bool.

Lemma quiet_nil (r : string) : quiet hit "" r.
Proof.
  intros a b E Hb. destruct a; [|discriminate].
  simpl in E. congruence.
Qed.

Lemma quiet_cons (c : ascii) (y r : string) :
  hit (String c y ++ r) = false -> quiet hit y r ->
  quiet hit (String c y) r.
Proof.
  intros Hc Hy a b E Hb. destruct a as [|a0 a].
  - simpl in E. now subst b.
  - simpl in E. injection E as _ E. now apply (Hy a b).
Qed.

Lemma quiet_inv (c : ascii) (y r : string) :
  quiet hit (String c y) r ->
  hit (String c y ++ r) = false /\ quiet hit y r.
Proof.
  intros H. split.
  - apply (H "" (String c y)); [reflexivity|discriminate].
  - intros a b E Hb. apply (H (String c a) b); [|exact Hb].
    simpl. now rewrite E.
Qed.

Lemma quiet_app (y1 y2 r : string) :
  quiet hit y1 (y2 ++ r) -> quiet hit y2 r -> quiet hit (y1 ++ y2) r.
Proof.
  induction y1 as [|c y1 IH]; intros H1 H2; [exact H2|].
  apply quiet_inv in H1 as [Hc H1]. simpl append.
  apply quiet_cons.
  - simpl append. simpl append in Hc. now rewrite app_assoc.
  - now apply IH.
Qed.

(** A hit needs a character that [y] does not have. *)
Lemma quiet_first_char (h : ascii) (y r : string) :
  (forall z, hit z = true -> startswith (String h "") z = true) ->
  mem_char h y = false -> quiet hit y r.
Proof.
  intros Hh. induction y as [|c y IH]; intros Hy; [apply quiet_nil|].
  simpl in Hy. apply orb_false_iff in Hy as [Hc Hy].
  apply quiet_cons; [|now apply IH].
  destruct (hit (String c y ++ r)) eqn:E; [|reflexivity].
  apply Hh in E. simpl append in E. rewrite startswith_cons, Hc in E.
  discriminate.
Qed.

(** A hit starts with [lit], which [y] does not contain and which cannot
    straddle the end of [y]. *)
Lemma quiet_lit (lit y r : string) :
  (forall z, hit z = true -> startswith lit z = true) ->
  contains lit y = false -> border_free lit r -> quiet hit y r.
Proof.
  intros Hlit Hy Hr a b -> Hb.
  destruct (hit (b ++ r)) eqn:E; [|reflexivity]. exfalso.
  apply Hlit in E. apply startswith_app_cases in E as [E|[Hlen E]].
  - apply startswith_contains in E.
    rewrite (contains_app_r lit a b E) in Hy. discriminate.
  - rewrite Hr in E; [discriminate| |exact Hlen].
    destruct b; [congruence|simpl; lia].
Qed.

End Quiet.

Lemma replace_from_quiet (old new y r : string) :
  quiet (startswith old) y r ->
  replace_from old new 0 (y ++ r) = y ++ replace_from old new 0 r.
Proof.
  induction y as [|c y IH]; intros H; [reflexivity|].
  apply quiet_inv in H as [Hc H].
  simpl append in *. rewrite replace_from_nomatch by exact Hc.
  now rewrite IH.
Qed.

Lemma sub_from_quiet (m : string -> option (string * nat)) (y r : string) :
  quiet (fun z => match m z with Some _ => true | None => false end) y r ->
  Re.sub_from m 0 (y ++ r) = y ++ Re.sub_from m 0 r.
Proof.
  induction y as [|c y IH]; intros H; [reflexivity|].
  apply quiet_inv in H as [Hc H].
  simpl append in *. simpl Re.sub_from.
  destruct (m (String c (y ++ r))); [discriminate|].
  now rewrite IH.
Qed.

Lemma findall_from_quiet (m : string -> option string) (y r : string) :
  quiet (fun z => match m z with Some _ => true | None => false end) y r ->
  Re.findall_from m 0 (y ++ r) = Re.findall_from m 0 r.
Proof.
  induction y as [|c y IH]; intros H; [reflexivity|].
  apply quiet_inv in H as [Hc H].
  simpl append in *. simpl Re.findall_from.
  destruct (m (String c (y ++ r))); [discriminate|].
  now rewrite IH.
Qed.

Lemma sub_from_skip (m : string -> option (string * nat)) (x r : string) :
  Re.sub_from m (String.length x) (x ++ r) = Re.sub_from m 0 r.
Proof. induction x as [|c x IH]; simpl; auto. Qed.

Lemma findall_from_skip (m : string -> option string) (x r : string) :
  Re.findall_from m (String.length x) (x ++ r) = Re.findall_from m 0 r.
Proof. induction x as [|c x IH]; simpl; auto. Qed.

(** A match at the head: the replacement, then the scan after the match. *)
Lemma sub_from_hit (m : string -> option (string * nat))
  (c : ascii) (x r repl : string) :
  m (String c x ++ r) = Some (repl, S (String.length x)) ->
  Re.sub_from m 0 (String c x ++ r) = repl ++ Re.sub_from m 0 r.
Proof.
  intros H. simpl append in *. simpl Re.sub_from. rewrite H.
  simpl. now rewrite Nat.sub_0_r, sub_from_skip.
Qed.

Lemma findall_from_hit (m : string -> option string)
  (c : ascii) (x r : string) :
  m (String c x ++ r) = Some (String c x) ->
  Re.findall_from m 0 (String c x ++ r)
  = String c x :: Re.findall_from m 0 r.
Proof.
  intros H. simpl append in *. simpl Re.findall_from. rewrite H.
  simpl. now rewrite Nat.sub_0_r, findall_from_skip.
Qed.

(** [replace] splits at a place that no occurrence can straddle. *)
Lemma replace_from_app (old new x y : string) :
  old <> "" -> border_free old y ->
  replace_from old new 0 (x ++ y)
  = replace_from old new 0 x ++ replace_from old new 0 y.
Proof.
  intros Hne Hy. revert x. apply (replace_scan_ind old Hne).
  - reflexivity.
  - intros c s Hno IH.
    rewrite (replace_from_nomatch old new c s Hno).
    change (String c s ++ y) with (String c (s ++ y)).
    rewrite replace_from_nomatch; [now rewrite IH|].
    destruct (startswith old (String c (s ++ y))) eqn:E; [|reflexivity].
    change (String c (s ++ y)) with (String c s ++ y) in E.
    apply startswith_app_cases in E as [E|[Hlen E]]; [congruence|].
    rewrite Hy in E; [discriminate|simpl; lia|exact Hlen].
  - intros s IH. rewrite app_assoc, !replace_from_match by exact Hne.
    now rewrite IH, app_assoc.
Qed.

(** ** Step 1 to the list of commands, on a description cut into pieces *)

Lemma literal_ok_inv (s : string) :
  literal_ok s = true ->
  contains "\href{" s = false /\ contains "HREFPLACEHOLDER" s = false.
Proof.
  unfold literal_ok. intros H.
  apply andb_true_iff in H as [H2 H3].
  apply negb_true_iff in H2, H3. auto.
Qed.

Lemma brace_arg_ok_inv (s : string) :
  brace_arg_ok s = true ->
  s <> "" /\ mem_char "}" s = false /\ contains "\href{" s = false
  /\ contains "HREFPLACEHOLDER" s = false.
Proof.
  unfold brace_arg_ok. intros H.
  apply andb_true_iff in H as [H H4]. apply andb_true_iff in H as [H H3].
  apply andb_true_iff in H as [H1 H2].
  apply negb_true_iff in H2, H3, H4. apply nonempty_true in H1. auto.
Qed.

Lemma link_ok_inv (it : LinkItem) :
  link_ok it = true ->
  brace_arg_ok (li_text it) = true /\ mem_char "]" (li_text it) = false
  /\ brace_arg_ok (li_url it) = true /\ mem_char ")" (li_url it) = false
  /\ literal_ok (li_after it) = true.
Proof.
  unfold link_ok. intros H.
  apply andb_true_iff in H as [H H5]. apply andb_true_iff in H as [H H4].
  apply andb_true_iff in H as [H H3]. apply andb_true_iff in H as [H1 H2].
  apply negb_true_iff in H2, H4. auto.
Qed.

Lemma link_command_ok (it : LinkItem) :
  link_ok it = true -> cmd_ok (link_command it).
Proof.
  intros H. apply link_ok_inv in H as [Ht [_ [Hu _]]].
  exists (li_url it), (li_text it). auto.
Qed.

Lemma slots_of_ok (items : list LinkItem) :
  forallb link_ok items = true -> slots_ok (slots_of items).
Proof.
  induction items as [|it items IH]; intros H; [constructor|].
  simpl in H. apply andb_true_iff in H as [Hit H].
  constructor; [|now apply IH]. split.
  - now apply link_command_ok.
  - now apply link_ok_inv in Hit.
Qed.

Lemma after_some_startswith (p z r : string) :
  Re.after p z = Some r -> startswith p z = true.
Proof. intros H. apply after_split in H as ->. apply startswith_app. Qed.

Lemma link_rule_head (z : string) :
  (match link_rule z with Some _ => true | None => false end) = true ->
  startswith "[" z = true.
Proof.
  unfold link_rule, Re.link_match.
  destruct (Re.after "[" z) eqn:E; [|discriminate].
  intros _. now apply after_some_startswith in E.
Qed.

Lemma href_amp_rule_head (z : string) :
  (match href_amp_rule z with Some _ => true | None => false end) = true ->
  startswith "\href{" z = true.
Proof.
  unfold href_amp_rule, Re.href_amp_match.
  destruct (Re.after "\href{" z) eqn:E; [|discriminate].
  intros _. now apply after_some_startswith in E.
Qed.

Lemma href_cmd_rule_head (z : string) :
  (match href_cmd_rule z with Some _ => true | None => false end) = true ->
  startswith "\href{" z = true.
Proof.
  unfold href_cmd_rule, Re.href_cmd_match.
  destruct (Re.after "\href{" z) eqn:E; [|discriminate].
  intros _. now apply after_some_startswith in E.
Qed.

Lemma startswith_head (lit z : string) (h : ascii) (l : string) :
  lit = String h l -> startswith lit z = true ->
  startswith (String h "") z = true.
Proof.
  intros -> H. destruct z as [|c z]; [discriminate|].
  rewrite startswith_cons in *. apply andb_true_iff in H as [-> _].
  destruct z; reflexivity.
Qed.

(** What follows a literal text: nothing, a command or a placeholder. *)
Lemma mixed_head (f : string -> string) (xs : list (slot * string)) :
  slots_ok xs ->
  mixed f xs = ""
  \/ (exists r, mixed f xs = String "\" r)
  \/ (exists r, mixed f xs = "HR" ++ r).
Proof.
  intros H. destruct xs as [|[sl seg] xs]; [now left|right].
  apply Forall_inv in H as [Hsl _]. simpl in Hsl.
  destruct sl as [c|k].
  - left. destruct Hsl as [u [t [-> _]]]. simpl. eauto.
  - right. simpl. eauto.
Qed.

Lemma border_free_href (r : string) :
  r = "" \/ (exists r', r = String "\" r') \/ (exists r', r = "HR" ++ r') ->
  border_free "\href{" r.
Proof.
  intros [->|[[r' ->]|[r' ->]]] k H1 H2;
    do 6 (destruct k as [|k]; [try lia; reflexivity|]);
    simpl in H2; lia.
Qed.

Lemma border_free_placeholder (r : string) :
  r = "" \/ (exists r', r = String "\" r') \/ (exists r', r = "HR" ++ r')
  \/ (exists r', r = String "}" r') ->
  border_free "HREFPLACEHOLDER" r.
Proof.
  intros [->|[[r' ->]|[[r' ->]|[r' ->]]]] k H1 H2;
    do 15 (destruct k as [|k]; [try lia; reflexivity|]);
    simpl in H2; lia.
Qed.

Lemma quiet_literal_href (hit : string -> bool) (f : string -> string)
  (seg : string) (xs : list (slot * string)) :
  (forall z, hit z = true -> startswith "\href{" z = true) ->
  literal_ok seg = true -> slots_ok xs ->
  quiet hit seg (mixed f xs).
Proof.
  intros Hhit Hseg Hxs. apply literal_ok_inv in Hseg as [Hseg _].
  apply (quiet_lit hit "\href{"); auto.
  apply border_free_href. destruct (mixed_head f xs Hxs) as [H|[H|H]]; auto.
Qed.

Lemma unlinked_quiet (seg rest : string) :
  unlinked seg rest = true ->
  quiet (fun z => match link_rule z with Some _ => true | None => false end)
        seg rest.
Proof.
  induction seg as [|c seg IH]; intros H; [apply quiet_nil|].
  cbn [unlinked] in H.
  destruct (Re.link_match (String c (seg ++ rest))) eqn:E; [discriminate|].
  apply quiet_cons; [|now apply IH].
  unfold link_rule. change (String c seg ++ rest) with (String c (seg ++ rest)).
  now rewrite E.
Qed.

(** Text without ['['] is literal text for the pattern, whatever
    follows. *)
Lemma unlinked_no_bracket (seg rest : string) :
  mem_char "[" seg = false -> unlinked seg rest = true.
Proof.
  induction seg as [|c seg IH]; intros H; [reflexivity|].
  simpl in H. apply orb_false_iff in H as [Hc H].
  cbn [unlinked]. unfold Re.link_match at 1.
  rewrite after_startswith by now rewrite startswith_cons, Hc.
  now apply IH.
Qed.

(** Step 1 rewrites each link to its command and copies the literal
    text. *)
Lemma sub_links_pieces (seg0 : string) (items : list LinkItem) :
  cut_ok seg0 items = true -> forallb link_ok items = true ->
  sub_links (seg0 ++ links_source items)
  = seg0 ++ mixed (fun s => s) (slots_of items).
Proof.
  unfold sub_links, Re.sub. revert seg0.
  induction items as [|it items IH]; intros seg0 Hcut Hitems;
    cbn [cut_ok] in Hcut; apply andb_true_iff in Hcut as [H0 Hcut];
    rewrite sub_from_quiet by now apply unlinked_quiet.
  - reflexivity.
  - f_equal.
    simpl in Hitems. apply andb_true_iff in Hitems as [Hit Hitems].
    pose proof (link_ok_inv it Hit) as [Ht [Ht' [Hu [Hu' Ha]]]].
    apply brace_arg_ok_inv in Ht as [Ht _], Hu as [Hu _].
    change (links_source (it :: items))
      with (String "[" (li_text it ++ "](" ++ li_url it ++ ")")
            ++ li_after it ++ links_source items).
    change (mixed (fun s => s) (slots_of (it :: items)))
      with (link_command it ++ li_after it
            ++ mixed (fun s => s) (slots_of items)).
    rewrite (sub_from_hit link_rule _ _ _ (link_command it)).
    + now rewrite (IH (li_after it) Hcut Hitems).
    + unfold link_rule.
      change (String "[" (li_text it ++ "](" ++ li_url it ++ ")")
              ++ li_after it ++ links_source items)
        with ("[" ++ (li_text it ++ "](" ++ li_url it ++ ")")
                  ++ li_after it ++ links_source items).
      rewrite !app_assoc.
      rewrite (link_match_complete _ _ _ Ht Ht' Hu Hu').
      unfold link_command. f_equal. f_equal.
      rewrite !length_app. simpl. lia.
Qed.

Lemma lazy_until_stop (u r : string) :
  contains "\&" u = false ->
  Re.lazy_until "}" "\&" (u ++ String "}" r) = None.
Proof.
  induction u as [|a u IH]; intros H; [reflexivity|].
  rewrite contains_cons in H. apply orb_false_iff in H as [Ha Hu].
  change (String a u ++ String "}" r) with (String a (u ++ String "}" r)).
  unfold Re.lazy_until; fold Re.lazy_until.
  rewrite after_startswith.
  - destruct (Ascii.eqb a "}"); [reflexivity|]. now rewrite (IH Hu).
  - destruct (startswith "\&" (String a (u ++ String "}" r))) eqn:E;
      [|reflexivity].
    change (String a (u ++ String "}" r))
      with (String a u ++ String "}" r) in E.
    apply startswith_app_cases in E as [E|[Hlen E]]; [congruence|].
    destruct u as [|b u]; [|simpl in Hlen; lia].
    simpl in E. discriminate.
Qed.

Lemma border_free_href_brace (r : string) :
  border_free "\href{" (String "}" r).
Proof.
  intros k H1 H2.
  do 6 (destruct k as [|k]; [try lia; reflexivity|]).
  simpl in H2; lia.
Qed.

(** After its backslash, no pattern that starts with [\href{] can match
    inside a command. *)
Lemma quiet_cmd_body (hit : string -> bool) (u t r : string) :
  (forall z, hit z = true -> startswith "\href{" z = true) ->
  contains "\href{" u = false -> contains "\href{" t = false ->
  quiet hit ("href{" ++ u ++ "}{" ++ t ++ "}") r.
Proof.
  intros Hhit Hu Ht.
  assert (Hfirst : forall x y, mem_char "\" x = false -> quiet hit x y).
  { intros x y Hx. apply (quiet_first_char hit "\"); [|exact Hx].
    intros z Hz. apply (startswith_head "\href{" z "\" "href{" eq_refl).
    now apply Hhit. }
  apply quiet_app; [|apply quiet_app; [|apply quiet_app; [|apply quiet_app]]].
  - now apply Hfirst.
  - apply (quiet_lit hit "\href{"); [exact Hhit|exact Hu|].
    apply border_free_href_brace.
  - now apply Hfirst.
  - apply (quiet_lit hit "\href{"); [exact Hhit|exact Ht|].
    apply border_free_href_brace.
  - now apply Hfirst.
Qed.

(** A command is a backslash followed by text in which no pattern that
    starts with [\href{] can match. *)
Lemma cmd_ok_shape (c : string) :
  cmd_ok c ->
  exists x, c = String "\" x
            /\ forall hit r,
                 (forall z, hit z = true -> startswith "\href{" z = true) ->
                 quiet hit x r.
Proof.
  intros [u [t [-> [Hu Ht]]]].
  apply brace_arg_ok_inv in Hu as [_ [_ [Hu _]]], Ht as [_ [_ [Ht _]]].
  exists ("href{" ++ u ++ "}{" ++ t ++ "}"). split; [reflexivity|].
  intros hit r Hhit. now apply quiet_cmd_body.
Qed.

Lemma placeholder_no_bs (k : nat) :
  k < 10 -> mem_char "\" (placeholder k) = false.
Proof.
  intros H. do 10 (destruct k as [|k]; [reflexivity|]). lia.
Qed.

Lemma href_amp_rule_cmd (u t r : string) :
  contains "\&" u = false -> href_amp_rule (href u t ++ r) = None.
Proof.
  intros Hu.
  unfold href_amp_rule, Re.href_amp_match, href.
  rewrite !app_assoc, after_app.
  change ("}{" ++ t ++ "}" ++ r) with (String "}" ("{" ++ t ++ "}" ++ r)).
  now rewrite lazy_until_stop.
Qed.

Lemma href_cmd_rule_cmd (c r : string) :
  cmd_ok c -> href_cmd_rule (c ++ r) = Some c.
Proof.
  intros [u [t [-> [Hu Ht]]]].
  apply brace_arg_ok_inv in Hu as [_ [Hu _]], Ht as [_ [Ht _]].
  unfold href_cmd_rule, Re.href_cmd_match, href.
  rewrite !app_assoc, after_app.
  change ("}{" ++ t ++ "}" ++ r) with (String "}" ("{" ++ t ++ "}" ++ r)).
  rewrite (span_stop _ _ _ Hu).
  change (String "}" ("{" ++ t ++ "}" ++ r)) with ("}{" ++ t ++ "}" ++ r).
  rewrite after_app.
  change ("}" ++ r) with (String "}" r).
  rewrite (span_stop _ _ _ Ht).
  change (String "}" r) with ("}" ++ r). now rewrite after_app.
Qed.

(** Inside a placeholder no pattern that starts with [\href{] can
    match. *)
Lemma quiet_slot_tail (hit : string -> bool) (x r : string) :
  (forall z, hit z = true -> startswith "\href{" z = true) ->
  mem_char "\" x = false -> quiet hit x r.
Proof.
  intros Hhit Hx. apply (quiet_first_char hit "\"); [|exact Hx].
  intros z Hz. apply (startswith_head "\href{" z "\" "href{" eq_refl).
  now apply Hhit.
Qed.

(** Step 2 changes nothing where no url holds an escaped ampersand. *)
Lemma sub_href_amp_pieces (seg0 : string) (items : list LinkItem) :
  literal_ok seg0 = true -> forallb link_ok items = true ->
  forallb link_plain items = true ->
  sub_href_amp (seg0 ++ mixed (fun s => s) (slots_of items))
  = seg0 ++ mixed (fun s => s) (slots_of items).
Proof.
  intros H0 Hitems Hplain. unfold sub_href_amp, Re.sub.
  rewrite sub_from_quiet
    by (apply quiet_literal_href;
        auto using href_amp_rule_head, slots_of_ok).
  f_equal. induction items as [|it items IH]; [reflexivity|].
  simpl in Hitems. apply andb_true_iff in Hitems as [Hit Hitems].
  simpl in Hplain. apply andb_true_iff in Hplain as [Hp Hplain].
  pose proof (link_command_ok it Hit) as Hc.
  pose proof (link_ok_inv it Hit) as [_ [_ [_ [_ Ha]]]].
  change (mixed (fun s => s) (slots_of (it :: items)))
    with (link_command it ++ li_after it
          ++ mixed (fun s => s) (slots_of items)).
  rewrite sub_from_quiet.
  - rewrite sub_from_quiet
      by (apply quiet_literal_href;
          auto using href_amp_rule_head, slots_of_ok).
    now rewrite (IH Hitems Hplain).
  - destruct (cmd_ok_shape _ Hc) as [x [Ec Hx]].
    rewrite Ec. apply quiet_cons.
    + rewrite <- Ec. unfold link_command.
      rewrite href_amp_rule_cmd; [reflexivity|].
      unfold link_plain in Hp. now apply negb_true_iff in Hp.
    + apply Hx. apply href_amp_rule_head.
Qed.

(** The commands found are those of the links, in order. *)
Lemma find_hrefs_pieces (seg0 : string) (items : list LinkItem) :
  literal_ok seg0 = true -> forallb link_ok items = true ->
  find_hrefs (seg0 ++ mixed (fun s => s) (slots_of items))
  = map link_command items.
Proof.
  intros H0 Hitems. unfold find_hrefs, Re.findall.
  rewrite findall_from_quiet
    by (apply quiet_literal_href; auto using href_cmd_rule_head, slots_of_ok).
  induction items as [|it items IH]; [reflexivity|].
  simpl in Hitems. apply andb_true_iff in Hitems as [Hit Hitems].
  pose proof (link_command_ok it Hit) as Hc.
  pose proof (link_ok_inv it Hit) as [_ [_ [_ [_ Ha]]]].
  change (mixed (fun s => s) (slots_of (it :: items)))
    with (link_command it ++ li_after it
          ++ mixed (fun s => s) (slots_of items)).
  destruct (cmd_ok_shape _ Hc) as [x [Ec Hx]].
  rewrite Ec, findall_from_hit.
  - rewrite findall_from_quiet
      by (apply quiet_literal_href; auto using href_cmd_rule_head, slots_of_ok).
    rewrite (IH Hitems). simpl map. now rewrite Ec.
  - rewrite <- Ec. now apply href_cmd_rule_cmd.
Qed.

(** ** Protecting the commands *)

Lemma startswith_app_same (p x y : string) :
  startswith (p ++ x) (p ++ y) = startswith x y.
Proof.
  induction p as [|a p IH]; [reflexivity|].
  simpl append. now rewrite startswith_cons, Ascii.eqb_refl.
Qed.

Lemma startswith_until (c : ascii) (u u' x y : string) :
  mem_char c u = false -> mem_char c u' = false ->
  startswith (u ++ String c x) (u' ++ String c y) = true ->
  u = u' /\ startswith x y = true.
Proof.
  revert u'; induction u as [|a u IH]; intros u' Hu Hu' H.
  - destruct u' as [|b u'].
    + simpl in H. rewrite Ascii.eqb_refl in H. auto.
    + simpl in Hu'. apply orb_false_iff in Hu' as [Hb _].
      simpl append in H. rewrite startswith_cons, Hb in H. discriminate.
  - simpl in Hu. apply orb_false_iff in Hu as [Ha Hu].
    destruct u' as [|b u'].
    + simpl append in H. rewrite startswith_cons, Ascii.eqb_sym, Ha in H.
      discriminate.
    + simpl in Hu'. apply orb_false_iff in Hu' as [_ Hu'].
      simpl append in H. rewrite startswith_cons in H.
      apply andb_true_iff in H as [Hab H].
      apply Ascii.eqb_eq in Hab; subst b.
      destruct (IH u' Hu Hu' H) as [-> Hxy]. auto.
Qed.

(** A command at the head of a text that starts with a command is that
    command. *)
Lemma cmd_prefix_eq (c c' r : string) :
  cmd_ok c -> cmd_ok c' -> startswith c (c' ++ r) = true -> c = c'.
Proof.
  intros [u [t [-> [Hu Ht]]]] [u' [t' [-> [Hu' Ht']]]] H.
  apply brace_arg_ok_inv in Hu as [_ [Hu _]], Ht as [_ [Ht _]].
  apply brace_arg_ok_inv in Hu' as [_ [Hu' _]], Ht' as [_ [Ht' _]].
  unfold href in *. rewrite !app_assoc in H.
  rewrite startswith_app_same in H.
  change ("}{" ++ t ++ "}") with (String "}" ("{" ++ t ++ "}")) in H.
  change ("}{" ++ t' ++ "}" ++ r) with (String "}" ("{" ++ t' ++ "}" ++ r)) in H.
  apply startswith_until in H as [-> H]; try assumption.
  rewrite startswith_app_same in H.
  change ("}") with (String "}" "") in H.
  change ("}" ++ r) with (String "}" r) in H.
  apply startswith_until in H as [-> _]; try assumption.
  reflexivity.
Qed.

Lemma cmd_ok_head (c : string) : cmd_ok c -> startswith "\href{" c = true.
Proof. intros [u [t [-> _]]]. reflexivity. Qed.

Lemma cmd_ok_nonempty (c : string) : cmd_ok c -> c <> "".
Proof. intros [u [t [-> _]]]. discriminate. Qed.

Lemma protect_slot_ok (sl : slot) (ic : nat * string) :
  fst ic < 10 -> slot_ok sl -> slot_ok (protect_slot sl ic).
Proof.
  intros Hi Hsl. destruct sl as [c|k]; simpl; [|exact Hsl].
  destruct (String.eqb c (snd ic)); [exact Hi|exact Hsl].
Qed.

Lemma map_slots_ok (g : slot -> slot) (xs : list (slot * string)) :
  (forall sl, slot_ok sl -> slot_ok (g sl)) ->
  slots_ok xs -> slots_ok (map_slots g xs).
Proof.
  intros Hg H. induction H as [|[sl seg] xs [Hsl Hseg] _ IH];
    constructor; auto. simpl. auto.
Qed.

(** One step of the first loop: every position that holds the command
    takes the placeholder; nothing else changes. *)
Lemma protect_step (i : nat) (c seg0 : string) (xs : list (slot * string)) :
  i < 10 -> cmd_ok c -> literal_ok seg0 = true -> slots_ok xs ->
  replace c (placeholder i) (seg0 ++ mixed (fun s => s) xs)
  = seg0 ++ mixed (fun s => s) (map_slots (fun sl => protect_slot sl (i, c)) xs).
Proof.
  intros Hi Hc H0 Hxs.
  rewrite replace_nonempty by now apply cmd_ok_nonempty.
  assert (Hhit : forall z, startswith c z = true ->
                           startswith "\href{" z = true).
  { intros z Hz. apply (startswith_trans _ c); auto using cmd_ok_head. }
  rewrite replace_from_quiet by (apply quiet_literal_href; auto).
  f_equal. induction xs as [|[sl seg] xs IH]; [reflexivity|].
  pose proof (Forall_inv Hxs) as [Hsl Hseg]. simpl in Hsl, Hseg.
  pose proof (Forall_inv_tail Hxs) as Hxs'.
  simpl map_slots. simpl mixed.
  assert (Hrest : replace_from c (placeholder i) 0
                    (seg ++ mixed (fun s => s) xs)
                  = seg ++ mixed (fun s => s)
                        (map_slots (fun sl => protect_slot sl (i, c)) xs)).
  { rewrite replace_from_quiet by (apply quiet_literal_href; auto).
    now rewrite IH. }
  destruct sl as [c'|k]; simpl protect_slot; simpl slot_text.
  - destruct (String.eqb_spec c' c) as [->|Hne].
    + rewrite replace_from_match by now apply cmd_ok_nonempty.
      now rewrite Hrest.
    + rewrite replace_from_quiet; [now rewrite Hrest|].
      destruct (cmd_ok_shape c' Hsl) as [x [Ec Hx]].
      rewrite Ec. apply quiet_cons.
      * rewrite <- Ec.
        destruct (startswith c (c' ++ seg ++ mixed (fun s => s) xs)) eqn:E;
          [|reflexivity].
        apply cmd_prefix_eq in E; auto. congruence.
      * apply Hx; auto.
  - rewrite replace_from_quiet; [now rewrite Hrest|].
    apply quiet_slot_tail; auto. now apply placeholder_no_bs.
Qed.

Lemma map_slots_map_slots (g h : slot -> slot) (xs : list (slot * string)) :
  map_slots h (map_slots g xs) = map_slots (fun sl => h (g sl)) xs.
Proof. unfold map_slots. rewrite map_map. reflexivity. Qed.

(** The first loop, on the positions. *)
Lemma protect_steps (steps : list (nat * string)) (seg0 : string)
  (xs : list (slot * string)) :
  steps_ok steps -> literal_ok seg0 = true -> slots_ok xs ->
  fold_left (fun d im => replace (snd im) (placeholder (fst im)) d) steps
            (seg0 ++ mixed (fun s => s) xs)
  = seg0 ++ mixed (fun s => s)
        (map_slots (fun sl => fold_left protect_slot steps sl) xs).
Proof.
  intros Hsteps H0. revert xs.
  induction Hsteps as [|[i c] steps [Hi Hc] _ IH]; intros xs Hxs.
  - simpl. unfold map_slots. f_equal. f_equal.
    rewrite <- (map_id xs) at 1. apply map_ext. now intros [sl seg].
  - simpl fold_left. simpl in Hi, Hc.
    rewrite protect_step by assumption.
    rewrite IH.
    + now rewrite map_slots_map_slots.
    + apply map_slots_ok; [|exact Hxs].
      intros sl Hsl. now apply protect_slot_ok.
Qed.

(** ** Escaping around placeholders *)

Lemma apply_replacements_app (a b : string) :
  apply_replacements (a ++ b) = apply_replacements a ++ apply_replacements b.
Proof.
  cbv [apply_replacements replacements fold_left fst snd].
  now rewrite !replace_char_app.
Qed.

Lemma border_free_fix_pat (h : ascii) (y : string) :
  mem_char h "\&" = false -> border_free "\\&" (String h y).
Proof.
  intros H k H1 H2. simpl in H.
  apply orb_false_iff in H as [Hbs H]. apply orb_false_iff in H as [Hamp _].
  do 3 (destruct k as [|k];
        [try lia; simpl drop; rewrite startswith_cons, Ascii.eqb_sym;
         first [now rewrite Hbs | now rewrite Hamp]|]).
  simpl in H2; lia.
Qed.

Lemma border_free_nil (lit : string) : lit <> "" -> border_free lit "".
Proof.
  intros Hne k H1 H2.
  assert (Hd : drop k lit <> "").
  { clear Hne H1. revert k H2. induction lit as [|a lit IH]; intros k H2.
    - simpl in H2; lia.
    - destruct k; [discriminate|]. simpl. apply IH. simpl in H2; lia. }
  destruct (drop k lit); [congruence|reflexivity].
Qed.

(** The Escaper works on the two sides of a place where the right side
    starts with neither a backslash nor an ampersand. *)
Lemma esc_app_plain_head (x : string) (h : ascii) (y : string) :
  mem_char h "\&" = false ->
  esc (x ++ String h y) = esc x ++ esc (String h y).
Proof.
  intros Hh. rewrite !esc_unfold, replace_char_app.
  assert (Hamp : Ascii.eqb h "&" = false).
  { simpl in Hh. apply orb_false_iff in Hh as [_ Hh].
    now apply orb_false_iff in Hh as [Hh _]. }
  rewrite (amp_pass_cons h y), Hamp.
  change (String h "" ++ amp_pass y) with (String h (amp_pass y)).
  unfold replace at 1 4 6. 
  rewrite replace_from_app
    by (try discriminate; now apply border_free_fix_pat).
  now rewrite apply_replacements_app.
Qed.

Lemma esc_placeholder_app (k : nat) (y : string) :
  k < 10 -> esc (placeholder k ++ y) = placeholder k ++ esc y.
Proof.
  intros Hk. rewrite !esc_unfold, replace_char_app.
  assert (H1 : amp_pass (placeholder k) = placeholder k)
    by (do 10 (destruct k as [|k]; [reflexivity|]); lia).
  assert (H2 : apply_replacements (placeholder k) = placeholder k)
    by (do 10 (destruct k as [|k]; [reflexivity|]); lia).
  rewrite H1, fix_pass_no_bs by now apply placeholder_no_bs.
  now rewrite apply_replacements_app, H2.
Qed.

Lemma placeholder_head (k : nat) :
  exists r, placeholder k = String "H" r.
Proof. eexists. reflexivity. Qed.

(** Escaping leaves the placeholders alone and escapes the literal text
    between them. *)
Lemma esc_pieces (seg0 : string) (xs : list (slot * string)) :
  Forall (fun x => exists k, fst x = Ph k /\ k < 10) xs ->
  esc (seg0 ++ mixed (fun s => s) xs) = esc seg0 ++ mixed esc xs.
Proof.
  intros H. revert seg0.
  induction H as [|[sl seg] xs [k [Hsl Hk]] _ IH]; intros seg0.
  - cbn [mixed]. now rewrite !app_nil_r.
  - simpl in Hsl; subst sl. cbn [mixed slot_text].
    destruct (placeholder_head k) as [r Er].
    rewrite Er at 1. simpl append at 2.
    rewrite esc_app_plain_head by reflexivity.
    change (String "H" (r ++ seg ++ mixed (fun s => s) xs))
      with (String "H" r ++ seg ++ mixed (fun s => s) xs).
    rewrite <- Er, esc_placeholder_app by exact Hk.
    now rewrite IH.
Qed.

(** ** Text that the Escaper cannot turn into a placeholder *)

Lemma contains_quiet (p w z : string) :
  quiet (startswith p) w z -> contains p (w ++ z) = contains p z.
Proof.
  induction w as [|c w IH]; intros H; [reflexivity|].
  apply quiet_inv in H as [Hc H].
  simpl append in *. now rewrite contains_cons, Hc, IH.
Qed.

Lemma disjoint_chars_spec (str p : string) (y : ascii) :
  disjoint_chars str p = true -> mem_char y str = true ->
  mem_char y p = false.
Proof.
  induction str as [|a str IH]; intros H Hy; [discriminate|].
  simpl in H, Hy. apply andb_true_iff in H as [Ha H].
  apply orb_true_iff in Hy as [Hy|Hy].
  - apply Ascii.eqb_eq in Hy; subst a. now apply negb_true_iff in Ha.
  - now apply IH.
Qed.

Lemma startswith_first_mem (p z : string) (x : ascii) (p' : string) :
  p = String x p' -> startswith p z = true ->
  exists z', z = String x z'.
Proof.
  intros -> H. destruct z as [|c z]; [discriminate|].
  rewrite startswith_cons in H. apply andb_true_iff in H as [H _].
  apply Ascii.eqb_eq in H; subst c. eauto.
Qed.

Section CharMapContains.

Variables (c : ascii) (str : string) (p : string).
Hypothesis str_nonempty : str <> "".
Hypothesis str_disjoint : disjoint_chars str p = true.

Local Abbreviation rep := (replace (String c "") str).

Lemma rep_startswith (q s : string) :
  (forall y, mem_char y q = true -> mem_char y p = true) ->
  startswith q (rep s) = true -> startswith q s = true.
Proof.
  revert s; induction q as [|x q IH]; intros s Hq H.
  - destruct s; reflexivity.
  - destruct s as [|a s]; [discriminate|].
    rewrite replace_char_cons in H.
    destruct (Ascii.eqb c a) eqn:E.
    + exfalso. destruct str as [|y ys] eqn:Es; [congruence|].
      simpl append in H. rewrite startswith_cons in H.
      apply andb_true_iff in H as [Hxy _].
      apply Ascii.eqb_eq in Hxy; subst y.
      assert (Hx : mem_char x p = false).
      { apply (disjoint_chars_spec (String x ys)); [exact str_disjoint|].
        simpl. now rewrite Ascii.eqb_refl. }
      rewrite Hq in Hx; [discriminate|].
      simpl. now rewrite Ascii.eqb_refl.
    + simpl append in H. rewrite startswith_cons in *.
      apply andb_true_iff in H as [Hxa H]. rewrite Hxa. simpl.
      apply IH; [|exact H].
      intros y Hy. apply Hq. simpl. rewrite Hy. apply orb_true_r.
Qed.

Lemma rep_contains (s : string) :
  p <> "" -> contains p (rep s) = true -> contains p s = true.
Proof.
  intros Hp. induction s as [|a s IH]; intros H.
  - destruct p; [congruence|discriminate].
  - rewrite replace_char_cons in H. rewrite contains_cons.
    destruct (Ascii.eqb c a) eqn:E.
    + rewrite contains_quiet in H; [rewrite (IH H); apply orb_true_r|].
      destruct p as [|x p'] eqn:Ep; [congruence|].
      apply (quiet_first_char _ x).
      * intros z Hz. destruct (startswith_first_mem _ _ x p' eq_refl Hz)
          as [z' ->]. rewrite startswith_cons, Ascii.eqb_refl.
        destruct z'; reflexivity.
      * destruct (mem_char x str) eqn:Ex; [|reflexivity].
        pose proof (disjoint_chars_spec _ _ _ str_disjoint Ex) as Hx.
        simpl in Hx. now rewrite Ascii.eqb_refl in Hx.
    + simpl append in H. rewrite contains_cons in H.
      apply orb_true_iff in H as [H|H].
      * assert (Hs : startswith p (rep (String a s)) = true)
          by now rewrite replace_char_cons, E.
        apply rep_startswith in Hs; [now rewrite Hs|auto].
      * rewrite (IH H). apply orb_true_r.
Qed.

End CharMapContains.

Lemma ensure_amp_startswith (q : string) (b : bool) (s : string) :
  mem_char "\" q = false ->
  startswith q (ensure_amp b s) = true -> startswith q s = true.
Proof.
  revert b s; induction q as [|x q IH]; intros b s Hq H.
  - destruct s; reflexivity.
  - simpl in Hq. apply orb_false_iff in Hq as [Hx Hq].
    destruct s as [|a s]; [discriminate|].
    simpl ensure_amp in H.
    destruct (Ascii.eqb_spec a "&") as [->|Hamp].
    + destruct b.
      * simpl append in H. rewrite startswith_cons in *.
        apply andb_true_iff in H as [-> H]. simpl. now apply (IH false).
      * simpl append in H. rewrite startswith_cons, Ascii.eqb_sym, Hx in H.
        discriminate.
    + rewrite startswith_cons in *.
      apply andb_true_iff in H as [-> H]. simpl. now apply IH in H.
Qed.

Lemma ensure_amp_contains (p : string) (b : bool) (s : string) :
  p <> "" -> mem_char "\" p = false ->
  contains p (ensure_amp b s) = true -> contains p s = true.
Proof.
  intros Hne Hp. revert b; induction s as [|a s IH]; intros b H.
  - destruct p; [congruence|discriminate].
  - rewrite contains_cons.
    destruct (Ascii.eqb_spec a "&") as [->|Hamp].
    + destruct b.
      * simpl ensure_amp in H. simpl append in H.
        rewrite contains_cons in H. apply orb_true_iff in H as [H|H].
        -- rewrite (ensure_amp_startswith p true (String "&" s) Hp H).
           reflexivity.
        -- rewrite (IH _ H). apply orb_true_r.
      * simpl ensure_amp in H. simpl append in H.
        rewrite contains_cons in H. apply orb_true_iff in H as [H|H].
        -- destruct p as [|x p']; [congruence|].
           simpl in Hp. apply orb_false_iff in Hp as [Hx _].
           rewrite startswith_cons, Ascii.eqb_sym, Hx in H. discriminate.
        -- rewrite contains_cons in H. apply orb_true_iff in H as [H|H].
           ++ rewrite (ensure_amp_startswith p true (String "&" s) Hp H).
              reflexivity.
           ++ rewrite (IH _ H). apply orb_true_r.
    + assert (E : ensure_amp b (String a s)
                  = String a (ensure_amp (Ascii.eqb a "\") s)).
      { simpl. destruct (Ascii.eqb_spec a "&"); [congruence|reflexivity]. }
      pose proof H as H'. rewrite E, contains_cons in H'.
      apply orb_true_iff in H' as [H'|H'].
      * rewrite <- E in H'.
        now rewrite (ensure_amp_startswith p b (String a s) Hp H').
      * rewrite (IH _ H'). apply orb_true_r.
Qed.

Lemma apply_replacements_contains (p t : string) :
  p <> "" ->
  forallb (fun cr => disjoint_chars (snd cr) p) replacements = true ->
  contains p (apply_replacements t) = true -> contains p t = true.
Proof.
  intros Hne Hd.
  cbv [apply_replacements replacements fold_left fst snd].
  cbv [replacements forallb snd] in Hd.
  repeat (apply andb_true_iff in Hd as [?Hd1 Hd]).
  intros H.
  repeat (apply rep_contains in H; [|discriminate|assumption|exact Hne]).
  exact H.
Qed.

(** The Escaper does not bring the placeholder text into a text that has
    none. *)
Lemma esc_no_placeholder (s : string) :
  contains "HREFPLACEHOLDER" s = false ->
  contains "HREFPLACEHOLDER" (esc s) = false.
Proof.
  intros H. destruct (contains "HREFPLACEHOLDER" (esc s)) eqn:E; [|reflexivity].
  rewrite esc_ensure_amp in E.
  apply apply_replacements_contains in E; [|discriminate|reflexivity].
  apply ensure_amp_contains in E; [congruence|discriminate|reflexivity].
Qed.

(** ** Putting the commands back *)

Lemma placeholder_base (i : nat) :
  startswith "HREFPLACEHOLDER" (placeholder i) = true.
Proof. apply startswith_app. Qed.

Lemma placeholder_nonempty (i : nat) : placeholder i <> "".
Proof. discriminate. Qed.

Lemma placeholder_hit_base (i : nat) (z : string) :
  startswith (placeholder i) z = true ->
  startswith "HREFPLACEHOLDER" z = true.
Proof. apply startswith_trans, placeholder_base. Qed.

Lemma placeholder_hit_head (i : nat) (z : string) :
  startswith (placeholder i) z = true ->
  startswith (String "H" "") z = true.
Proof.
  intros H. apply placeholder_hit_base in H.
  now apply (startswith_head "HREFPLACEHOLDER" z "H" "REFPLACEHOLDER").
Qed.

(** Two different placeholders below ten do not start one another. *)
Lemma placeholder_distinct (i k : nat) (r : string) :
  i < 10 -> k < 10 -> k <> i ->
  startswith (placeholder i) (placeholder k ++ r) = false.
Proof.
  intros Hi Hk Hne.
  do 10 (destruct k as [|k];
         [do 10 (destruct i as [|i]; [try congruence; reflexivity|]); lia|]).
  lia.
Qed.

(** Inside a placeholder no placeholder starts. *)
Lemma placeholder_quiet_tail (i k : nat) (r : string) :
  k < 10 -> exists h x, placeholder k = String h x
                        /\ quiet (startswith (placeholder i)) x r.
Proof.
  intros Hk.
  do 10 (destruct k as [|k];
         [eexists; eexists; split; [reflexivity|];
          repeat (apply quiet_cons; [reflexivity|]); apply quiet_nil|]).
  lia.
Qed.

(** Inside a command no placeholder starts. *)
Lemma placeholder_quiet_cmd (i : nat) (c r : string) :
  cmd_ok c -> quiet (startswith (placeholder i)) c r.
Proof.
  intros [u [t [-> [Hu Ht]]]].
  apply brace_arg_ok_inv in Hu as [_ [_ [_ Hu]]], Ht as [_ [_ [_ Ht]]].
  unfold href.
  apply quiet_app; [|apply quiet_app; [|apply quiet_app; [|apply quiet_app]]].
  - apply (quiet_first_char _ "H"); [apply placeholder_hit_head|reflexivity].
  - apply (quiet_lit _ "HREFPLACEHOLDER");
      [apply placeholder_hit_base | exact Hu |].
    apply border_free_placeholder. right; right; right.
    eexists. reflexivity.
  - apply (quiet_first_char _ "H"); [apply placeholder_hit_head|reflexivity].
  - apply (quiet_lit _ "HREFPLACEHOLDER");
      [apply placeholder_hit_base | exact Ht |].
    apply border_free_placeholder. right; right; right.
    eexists. reflexivity.
  - apply (quiet_first_char _ "H"); [apply placeholder_hit_head|reflexivity].
Qed.

Lemma quiet_escaped_literal (i : nat) (seg : string)
  (xs : list (slot * string)) :
  literal_ok seg = true -> slots_ok xs ->
  quiet (startswith (placeholder i)) (esc seg) (mixed esc xs).
Proof.
  intros Hseg Hxs. apply literal_ok_inv in Hseg as [_ Hseg].
  apply (quiet_lit _ "HREFPLACEHOLDER").
  - apply placeholder_hit_base.
  - now apply esc_no_placeholder.
  - apply border_free_placeholder.
    destruct (mixed_head esc xs Hxs) as [H|[H|H]]; auto.
Qed.

Lemma restore_slot_ok (sl : slot) (ic : nat * string) :
  cmd_ok (snd ic) -> slot_ok sl -> slot_ok (restore_slot sl ic).
Proof.
  intros Hc Hsl. destruct sl as [c|k]; simpl; [exact Hsl|].
  destruct (Nat.eqb k (fst ic)); [exact Hc|exact Hsl].
Qed.

(** One step of the second loop: every position that holds the placeholder
    takes the command; nothing else changes. *)
Lemma restore_step (i : nat) (c seg0 : string) (xs : list (slot * string)) :
  i < 10 -> cmd_ok c -> literal_ok seg0 = true -> slots_ok xs ->
  replace (placeholder i) c (esc seg0 ++ mixed esc xs)
  = esc seg0 ++ mixed esc (map_slots (fun sl => restore_slot sl (i, c)) xs).
Proof.
  intros Hi Hc H0 Hxs.
  rewrite replace_nonempty by apply placeholder_nonempty.
  rewrite replace_from_quiet by now apply quiet_escaped_literal.
  f_equal. induction xs as [|[sl seg] xs IH]; [reflexivity|].
  pose proof (Forall_inv Hxs) as [Hsl Hseg]. simpl in Hsl, Hseg.
  pose proof (Forall_inv_tail Hxs) as Hxs'.
  simpl map_slots. cbn [mixed].
  assert (Hrest : replace_from (placeholder i) c 0 (esc seg ++ mixed esc xs)
                  = esc seg ++ mixed esc
                        (map_slots (fun sl => restore_slot sl (i, c)) xs)).
  { rewrite replace_from_quiet by now apply quiet_escaped_literal.
    now rewrite IH. }
  destruct sl as [c'|k]; cbn [restore_slot slot_text fst snd].
  - rewrite replace_from_quiet; [now rewrite Hrest|].
    now apply placeholder_quiet_cmd.
  - destruct (Nat.eqb_spec k i) as [->|Hne].
    + rewrite replace_from_match by apply placeholder_nonempty.
      now rewrite Hrest.
    + cbn [slot_text].
      rewrite replace_from_quiet; [now rewrite Hrest|].
      destruct (placeholder_quiet_tail i k (esc seg ++ mixed esc xs) Hsl)
        as [h [x [Ek Hq]]].
      rewrite Ek. apply quiet_cons; [|exact Hq].
      rewrite <- Ek. now apply placeholder_distinct.
Qed.

(** The second loop, on the positions. *)
Lemma restore_steps (steps : list (nat * string)) (seg0 : string)
  (xs : list (slot * string)) :
  steps_ok steps -> literal_ok seg0 = true -> slots_ok xs ->
  fold_left (fun d im => replace (placeholder (fst im)) (snd im) d) steps
            (esc seg0 ++ mixed esc xs)
  = esc seg0 ++ mixed esc
        (map_slots (fun sl => fold_left restore_slot steps sl) xs).
Proof.
  intros Hsteps H0. revert xs.
  induction Hsteps as [|[i c] steps [Hi Hc] _ IH]; intros xs Hxs.
  - simpl. unfold map_slots. f_equal. f_equal.
    rewrite <- (map_id xs) at 1. apply map_ext. now intros [sl seg].
  - cbn [fold_left fst snd]. simpl in Hi, Hc.
    rewrite restore_step by assumption.
    rewrite IH.
    + now rewrite map_slots_map_slots.
    + apply map_slots_ok; [|exact Hxs].
      intros sl Hsl. now apply restore_slot_ok.
Qed.

(** ** The two loops undo each other on the positions *)

Lemma enumerate_from_steps_ok (l : list string) (k : nat) :
  k + List.length l <= 10 -> Forall cmd_ok l ->
  steps_ok (combine (seq k (List.length l)) l).
Proof.
  revert k; induction l as [|c l IH]; intros k Hk Hl; [constructor|].
  simpl in Hk. simpl. constructor.
  - simpl. split; [lia|]. now apply Forall_inv in Hl.
  - apply IH; [lia|]. now apply Forall_inv_tail in Hl.
Qed.

Lemma fold_protect_ph (steps : list (nat * string)) (k : nat) :
  fold_left protect_slot steps (Ph k) = Ph k.
Proof. induction steps as [|ic steps IH]; [reflexivity|exact IH]. Qed.

Lemma fold_restore_cmd (steps : list (nat * string)) (c : string) :
  fold_left restore_slot steps (Cmd c) = Cmd c.
Proof. induction steps as [|ic steps IH]; [reflexivity|exact IH]. Qed.

(** The first loop gives a command the index of its first occurrence. *)
Lemma fold_protect_cmd (l : list string) (k : nat) (c0 : string) :
  In c0 l ->
  exists j, nth_error l j = Some c0
            /\ fold_left protect_slot (combine (seq k (List.length l)) l) (Cmd c0)
               = Ph (k + j).
Proof.
  revert k; induction l as [|c l IH]; intros k Hin; [contradiction|].
  simpl List.length. simpl seq. simpl combine. simpl fold_left.
  destruct (String.eqb_spec c0 c) as [->|Hne].
  - exists 0. split; [reflexivity|].
    now rewrite fold_protect_ph, Nat.add_0_r.
  - destruct Hin as [Hin|Hin]; [congruence|].
    destruct (IH (S k) Hin) as [j [Hj Hf]].
    exists (S j). split; [exact Hj|].
    rewrite Hf. f_equal. lia.
Qed.

(** The second loop gives the placeholder of index [j] the [j]-th
    command. *)
Lemma fold_restore_ph (l : list string) (k j : nat) (c : string) :
  nth_error l j = Some c ->
  fold_left restore_slot (combine (seq k (List.length l)) l) (Ph (k + j))
  = Cmd c.
Proof.
  revert k j; induction l as [|c1 l IH]; intros k j Hj.
  - destruct j; discriminate.
  - simpl List.length. simpl seq. simpl combine. simpl fold_left.
    destruct j as [|j].
    + simpl in Hj. injection Hj as ->.
      rewrite Nat.add_0_r, Nat.eqb_refl. apply fold_restore_cmd.
    + simpl in Hj. destruct (Nat.eqb_spec (k + S j) k) as [E|_]; [lia|].
      replace (k + S j) with (S k + j) by lia. now apply IH.
Qed.

Lemma mixed_slots_of (items : list LinkItem) :
  mixed esc (slots_of items) = links_output items.
Proof.
  induction items as [|it items IH]; [reflexivity|].
  simpl. now rewrite IH.
Qed.

(** ** Inline links: literal text and up to ten links *)

(** The protection step on its own: with at most ten commands, each
    command is kept from the Escaper by its placeholder and comes back at
    its position, also where two commands are the same text. *)
Lemma protection_step_pieces (seg0 : string) (items : list LinkItem) :
  literal_ok seg0 = true -> forallb link_ok items = true ->
  List.length items <= 10 ->
  let href_matches := map link_command items in
  restore href_matches
    (esc (protect href_matches (seg0 ++ mixed (fun s => s) (slots_of items))))
  = esc seg0 ++ links_output items.
Proof.
  intros H0 Hitems Hlen href_matches. subst href_matches.
  pose proof (slots_of_ok items Hitems) as Hxs.
  assert (Hcmds : Forall cmd_ok (map link_command items)).
  { apply Forall_forall. intros c Hc. apply in_map_iff in Hc as [it [<- Hit]].
    apply link_command_ok. rewrite forallb_forall in Hitems. auto. }
  assert (Hsteps : steps_ok (enumerate (map link_command items))).
  { apply enumerate_from_steps_ok; [|exact Hcmds].
    rewrite length_map. lia. }
  unfold protect, restore.
  rewrite protect_steps by assumption.
  set (steps := enumerate (map link_command items)) in *.
  assert (Hprot : forall it, In it items ->
            exists j, nth_error (map link_command items) j
                      = Some (link_command it)
                      /\ fold_left protect_slot steps (Cmd (link_command it))
                         = Ph j).
  { intros it Hit.
    destruct (fold_protect_cmd (map link_command items) 0 (link_command it))
      as [j [Hj Hf]]; [now apply in_map|].
    exists j. split; [exact Hj|exact Hf]. }
  assert (Hph : Forall (fun x => exists k, fst x = Ph k /\ k < 10)
                  (map_slots (fun sl => fold_left protect_slot steps sl)
                             (slots_of items))).
  { apply Forall_forall. intros x Hx. unfold map_slots, slots_of in Hx.
    rewrite map_map in Hx. apply in_map_iff in Hx as [it [<- Hit]].
    destruct (Hprot it Hit) as [j [Hj Hf]]. exists j. split; [exact Hf|].
    assert (j < List.length (map link_command items))
      by (apply nth_error_Some; congruence).
    rewrite length_map in *. lia. }
  rewrite esc_pieces by exact Hph.
  rewrite restore_steps; [|assumption|assumption|].
  - rewrite map_slots_map_slots. f_equal.
    rewrite <- mixed_slots_of. f_equal.
    unfold map_slots, slots_of. rewrite map_map. apply map_ext_in.
    intros it Hit. simpl. f_equal.
    destruct (Hprot it Hit) as [j [Hj Hf]]. rewrite Hf.
    apply (fold_restore_ph _ 0 j). exact Hj.
  - apply Forall_forall. intros x Hx.
    rewrite Forall_forall in Hph. destruct (Hph x Hx) as [k [Hk Hk10]].
    unfold map_slots, slots_of in Hx. rewrite map_map in Hx.
    apply in_map_iff in Hx as [it [<- Hit]]. simpl in *.
    rewrite Hk. split; [exact Hk10|].
    rewrite forallb_forall in Hitems.
    pose proof (link_ok_inv it (Hitems it Hit)) as [_ [_ [_ [_ Ha]]]].
    exact Ha.
Qed.

(** A description made of literal text and of at most ten well-formed
    links comes out as the escaped literal text with each link as its
    command, in the order of the description. *)
Lemma translate_links_pieces (seg0 : string) (items : list LinkItem) :
  cut_ok seg0 items = true ->
  literal_ok seg0 = true -> forallb link_ok items = true ->
  forallb link_plain items = true ->
  List.length items <= 10 ->
  translate_links (seg0 ++ links_source items)
  = esc seg0 ++ links_output items.
Proof.
  intros Hcut H0 Hitems Hplain Hlen.
  unfold translate_links.
  rewrite sub_links_pieces by assumption.
  rewrite sub_href_amp_pieces by assumption.
  rewrite find_hrefs_pieces by assumption.
  now apply protection_step_pieces.
Qed.

(** ** Inline links: every description is literal text and links *)

Lemma cut_ok_cons (c : ascii) (seg : string) (items : list LinkItem) :
  Re.link_match (String c (seg ++ links_source items)) = None ->
  cut_ok seg items = true -> cut_ok (String c seg) items = true.
Proof.
  intros Hc H. destruct items as [|it items]; cbn [cut_ok unlinked] in *;
    rewrite Hc; exact H.
Qed.

Lemma cut_links_fuel_spec (fuel : nat) (d : string) :
  String.length d <= fuel ->
  d = fst (cut_links_fuel fuel d)
      ++ links_source (snd (cut_links_fuel fuel d))
  /\ cut_ok (fst (cut_links_fuel fuel d)) (snd (cut_links_fuel fuel d))
     = true
  /\ forallb notation_ok (snd (cut_links_fuel fuel d)) = true.
Proof.
  revert d; induction fuel as [|fuel IH]; intros d Hlen.
  - destruct d; [|simpl in Hlen; lia]. repeat split.
  - cbn [cut_links_fuel].
    destruct (Re.link_match d) as [[text url]|] eqn:E.
    + destruct (link_match_sound _ _ _ E) as (post & Ed & Ht & Ht' & Hu & Hu').
      assert (Hdrop : drop (4 + String.length text + String.length url) d
                      = post).
      { rewrite Ed.
        rewrite <- (app_assoc url ")" post),
          <- (app_assoc "](" (url ++ ")") post),
          <- (app_assoc text _ post), <- (app_assoc "[" _ post).
        replace (4 + String.length text + String.length url)
          with (String.length ("[" ++ text ++ "](" ++ url ++ ")")).
        - apply drop_app.
        - rewrite !length_app. simpl. lia. }
      rewrite Hdrop.
      destruct (IH post) as (E1 & E2 & E3).
      { rewrite Ed in Hlen. rewrite !length_app in Hlen.
        simpl in Hlen. lia. }
      destruct (cut_links_fuel fuel post) as [seg items].
      cbn [fst snd] in *. split; [|split].
      * cbn [links_source]. unfold link_source. cbn [li_text li_url li_after].
        rewrite Ed at 1. rewrite E1 at 1. now rewrite !app_assoc.
      * cbn [cut_ok unlinked li_after]. exact E2.
      * cbn [forallb]. rewrite E3. unfold notation_ok.
        cbn [li_text li_url].
        rewrite Ht', Hu'. destruct text; [congruence|].
        destruct url; [congruence|]. reflexivity.
    + destruct d as [|c d]; [repeat split|].
      destruct (IH d) as (E1 & E2 & E3); [simpl in Hlen; lia|].
      destruct (cut_links_fuel fuel d) as [seg items].
      cbn [fst snd] in *. split; [|split].
      * simpl. now rewrite <- E1.
      * apply cut_ok_cons; [|exact E2]. now rewrite <- E1.
      * exact E3.
Qed.

(** C7, as the code has it.  Every description is, in one way, literal
    text and link notations: [cut_links] cuts it at the matches of the
    pattern, and no link notation begins inside the literal text, which may
    hold any malformed notation.  Where there are at most ten links, the
    literal text holds neither the text of a command opener nor placeholder
    text, each display text and url holds no ['}'], no command opener and
    no placeholder text, and no url holds an ampersand escaped beforehand,
    the description comes out as the escaped literal text with each link
    rewritten to the command that has the url as first and the display
    text as second brace argument, in the order of the description.  A
    description that holds neither a well-formed link notation nor the text
    of a command opener comes out simply escaped, whatever malformed
    notation it holds.  The single-link description [[a](http://b)] yields
    exactly [\href{http://b}{a}]. *)
Theorem translate_links_rewrites_links :
  (forall seg0 items,
      cut_ok seg0 items = true ->
      literal_ok seg0 = true -> forallb link_ok items = true ->
      forallb link_plain items = true ->
      List.length items <= 10 ->
      translate_links (seg0 ++ links_source items)
      = escape_latex (Some seg0) ++ links_output items)
  /\ (forall description,
        description
        = fst (cut_links description)
          ++ links_source (snd (cut_links description))
        /\ cut_ok (fst (cut_links description))
                  (snd (cut_links description)) = true
        /\ forallb notation_ok (snd (cut_links description)) = true)
  /\ (forall description,
        ~ has_link description ->
        contains "\href{" description = false ->
        translate_links description = escape_latex (Some description))
  /\ translate_links "[a](http://b)" = href "http://b" "a".
Proof.
  split; [|split; [|split]].
  - exact translate_links_pieces.
  - intros description. apply cut_links_fuel_spec. lia.
  - exact translate_links_no_link.
  - reflexivity.
Qed.

Lemma translate_links_rewrites_links_witness :
  (translate_links ("see [1], " ++ links_source one_link_mixed)
   = escape_latex (Some "see [1], ") ++ links_output one_link_mixed)
  /\ (translate_links ("see [1], " ++ links_source mixed_links)
      = escape_latex (Some "see [1], ") ++ links_output mixed_links)
  /\ (translate_links ("Built a_b, see " ++ links_source two_links)
      = escape_latex (Some "Built a_b, see ") ++ links_output two_links)
  /\ (~ has_link "50% [faster](see notes, a_b"
      /\ contains "\href{" "50% [faster](see notes, a_b" = false
      /\ translate_links "50% [faster](see notes, a_b"
         = escape_latex (Some "50% [faster](see notes, a_b")).
Proof.
  assert (H : ~ has_link "50% [faster](see notes, a_b").
  { intros H. apply link_anywhere_spec in H. discriminate H. }
  split; [|split; [|split]].
  - apply (proj1 translate_links_rewrites_links "see [1], " one_link_mixed);
      first [reflexivity | simpl; lia].
  - apply (proj1 translate_links_rewrites_links "see [1], " mixed_links);
      first [reflexivity | simpl; lia].
  - apply (proj1 translate_links_rewrites_links "Built a_b, see " two_links);
      first [reflexivity | simpl; lia].
  - split; [exact H|]. split; [reflexivity|].
    exact (proj1 (proj2 (proj2 translate_links_rewrites_links)) _ H eq_refl).
Defined.

Example cut_links_mixed :
  cut_links "see [1], [docs](http://x.org/a_b) a_b [x] and [C:\dir](http://y.org/a\b) (100%) [y"
  = ("see [1], ", mixed_links).
Proof. reflexivity. Qed.

Example translate_links_mixed :
  translate_links
    "see [1], [docs](http://x.org/a_b) a_b [x] and [C:\dir](http://y.org/a\b) (100%) [y"
  = "see [1], \href{http://x.org/a_b}{docs} a\_b [x] and \href{http://y.org/a\b}{C:\dir} (100\%) [y".
Proof. vm_compute. reflexivity. Qed.

Example translate_links_one_link_mixed :
  translate_links "see [1], [docs](http://x.org/a_b) a_b [x"
  = "see [1], \href{http://x.org/a_b}{docs} a\_b [x".
Proof. vm_compute. reflexivity. Qed.

(** What the conditions of C7 keep out.  A closing brace in the display
    text ends the command early, and the rest of the text is escaped. *)
Example translate_links_brace_in_text :
  translate_links "[a}b](u)" = "\href{u}{a}b\}"
  /\ translate_links "[a}b](u)" <> href "u" "a}b".
Proof. split; [reflexivity|vm_compute; discriminate]. Qed.

(** A closing brace in the url leaves no command for the protection step
    to find: the whole is escaped. *)
Example translate_links_brace_in_url :
  translate_links "[a](u}v)" = "\href\{u\}v\}\{a\}"
  /\ translate_links "[a](u}v)" <> href "u}v" "a".
Proof. split; [reflexivity|vm_compute; discriminate]. Qed.

(** The text of a command opener in a display text: the command of an
    earlier link is found across the end of the command of this one. *)
Example translate_links_opener_in_text :
  translate_links "[b](c) [x\href{c](d){b}"
  = "\href{c}{b} \href\{d\}\{x\href{c}{b}"
  /\ translate_links "[b](c) [x\href{c](d){b}"
     <> href "c" "b" ++ " " ++ href "d" "x\href{c" ++ "\{b\}".
Proof. split; [reflexivity|vm_compute; discriminate]. Qed.

(** The text of a command opener in a url: the command of an earlier link
    is found inside the command of this one, and protected there. *)
Example translate_links_opener_in_url :
  translate_links "[t](u) [t](\href{u)"
  = "\href{u}{t} \href\{\href{u}{t}"
  /\ translate_links "[t](u) [t](\href{u)"
     <> href "u" "t" ++ " " ++ href "\href{u" "t".
Proof. split; [reflexivity|vm_compute; discriminate]. Qed.

Example translate_links_two_links :
  translate_links
    "Built a_b, see [docs](http://x.org/a_b) and [code & tests](http://y.org/?q=1&r=2) (100%)"
  = "Built a\_b, see \href{http://x.org/a_b}{docs} and \href{http://y.org/?q=1&r=2}{code & tests} (100\%)".
Proof. vm_compute. reflexivity. Qed.

(** * Further properties of the code *)

(** ** Escaper: the reserved characters in the output *)

Section GuardedChar.

Variable g : ascii.
Hypothesis g_not_bs : Ascii.eqb g "\" = false.

Lemma char_guarded_spec (b : bool) (s pre post : string) :
  char_guarded g b s = true -> s = pre ++ String g post ->
  (pre = "" /\ b = true) \/ exists pre', pre = pre' ++ "\".
Proof.
  revert b s; induction pre as [|x pre IH]; intros b s H ->.
  - left. split; [reflexivity|]. simpl in H.
    rewrite Ascii.eqb_refl in H. now apply andb_true_iff in H as [H _].
  - right. simpl in H.
    destruct (Ascii.eqb_spec x g) as [->|Hg].
    + apply andb_true_iff in H as [_ H].
      destruct (IH _ _ H eq_refl) as [[_ Hf]|[pre' ->]]; [discriminate|].
      now exists (String g pre').
    + destruct (IH _ _ H eq_refl) as [[-> Hb]|[pre' ->]].
      * apply Ascii.eqb_eq in Hb; subst x. now exists "".
      * now exists (String x pre').
Qed.

(** Replacing [g] by backslash-[g] guards every [g]. *)
Lemma char_guarded_own (b : bool) (s : string) :
  char_guarded g b (replace (String g "") (String "\" (String g "")) s) = true.
Proof.
  revert b; induction s as [|a s IH]; intros b; [reflexivity|].
  rewrite replace_char_cons.
  destruct (Ascii.eqb_spec g a) as [<-|Hne].
  - simpl. rewrite (Ascii.eqb_sym "\" g), g_not_bs, Ascii.eqb_refl.
    simpl. apply IH.
  - simpl. destruct (Ascii.eqb_spec a g); [congruence|]. apply IH.
Qed.

Lemma char_guarded_plain_run (y x : string) (b : bool) :
  mem_char "\" y = false -> mem_char g y = false ->
  char_guarded g b (y ++ x)
  = char_guarded g (match y with "" => b | _ => false end) x.
Proof.
  revert b; induction y as [|a y IH]; intros b Hbs Hg; [reflexivity|].
  simpl in Hbs, Hg.
  apply orb_false_iff in Hbs as [Ha1 Hbs].
  apply orb_false_iff in Hg as [Ha2 Hg].
  simpl. rewrite (Ascii.eqb_sym a g), Ha2, (Ascii.eqb_sym a "\"), Ha1.
  rewrite (IH false Hbs Hg). now destruct y.
Qed.

(** A later replacement of another character keeps every [g] guarded. *)
Lemma char_guarded_other (c d : ascii) (rest : string) (b : bool) (s : string) :
  Ascii.eqb c g = false -> Ascii.eqb c "\" = false ->
  mem_char "\" (String d rest) = false -> mem_char g (String d rest) = false ->
  char_guarded g b (replace (String c "") (String "\" (String d rest)) s)
  = char_guarded g b s.
Proof.
  intros Hcg Hcb Hbs Hg.
  revert b; induction s as [|a s IH]; intros b; [reflexivity|].
  rewrite replace_char_cons.
  destruct (Ascii.eqb_spec c a) as [<-|Hne].
  - change (String "\" (String d rest) ++ ?x)
      with (String "\" (String d rest ++ x)).
    cbn [char_guarded]. rewrite (Ascii.eqb_sym "\" g), g_not_bs, Hcg, Hcb.
    rewrite char_guarded_plain_run by assumption. apply IH.
  - simpl. destruct (Ascii.eqb a g); now rewrite IH.
Qed.

Lemma mem_char_replace_char (c : ascii) (str s : string) :
  mem_char g str = false ->
  Ascii.eqb c g = true \/ mem_char g s = false ->
  mem_char g (replace (String c "") str s) = false.
Proof.
  intros Hstr H. induction s as [|a s IH]; [reflexivity|].
  rewrite replace_char_cons, mem_char_app.
  assert (Hs : Ascii.eqb c g = true \/ mem_char g s = false).
  { destruct H as [H|H]; [now left|right].
    simpl in H. now apply orb_false_iff in H as [_ H]. }
  rewrite (IH Hs), orb_false_r.
  destruct (Ascii.eqb_spec c a) as [<-|Hne]; [exact Hstr|].
  simpl. rewrite orb_false_r.
  destruct H as [H|H].
  - apply Ascii.eqb_eq in H; subst c. apply Ascii.eqb_neq. congruence.
  - simpl in H. now apply orb_false_iff in H as [H _].
Qed.

End GuardedChar.

Lemma esc_guards (g : ascii) (text : string) :
  In g ["%"; "$"; "#"; "_"]%char -> char_guarded g false (esc text) = true.
Proof.
  intros Hg. rewrite esc_unfold.
  generalize (replace "\\&" "\&" (replace "&" "\&" text)). intros t.
  cbv [apply_replacements replacements fold_left fst snd].
  simpl in Hg.
  destruct Hg as [<-|[<-|[<-|[<-|[]]]]];
    repeat (rewrite char_guarded_other by reflexivity);
    now apply char_guarded_own.
Qed.

(** X1.  In the output of [escape_latex] the characters [~] and [^] never
    occur, and every [%], [$], [#] and [_] directly follows a backslash. *)
Theorem escape_output_reserved (text : string) :
  mem_char "~" (escape_latex (Some text)) = false
  /\ mem_char "^" (escape_latex (Some text)) = false
  /\ (forall g pre post,
         In g ["%"; "$"; "#"; "_"]%char ->
         escape_latex (Some text) = pre ++ String g post ->
         exists pre', pre = pre' ++ "\").
Proof.
  change (escape_latex (Some text)) with (esc text).
  split; [|split].
  - rewrite esc_unfold.
    cbv [apply_replacements replacements fold_left fst snd].
    apply mem_char_replace_char; [reflexivity|]. right.
    apply mem_char_replace_char; [reflexivity|]. now left.
  - rewrite esc_unfold.
    cbv [apply_replacements replacements fold_left fst snd].
    apply mem_char_replace_char; [reflexivity|]. now left.
  - intros g pre post Hg E.
    destruct (char_guarded_spec g false _ pre post (esc_guards g text Hg) E)
      as [[_ Hf]|H]; [discriminate|exact H].
Qed.

Lemma escape_output_reserved_witness :
  exists pre', "50\% of a" ++ "\" = pre' ++ "\".
Proof.
  apply (proj2 (proj2 (escape_output_reserved "50% of a_b~c"))
           "_"%char ("50\% of a" ++ "\") "b\textasciitilde{}c").
  - simpl. tauto.
  - reflexivity.
Defined.

(** ** Escaper: ampersands that are already escaped *)

Lemma ensure_amp_guarded_id (b : bool) (s : string) :
  amp_guarded b s = true -> ensure_amp b s = s.
Proof.
  revert b; induction s as [|a s IH]; intros b H; [reflexivity|].
  simpl in *. destruct (Ascii.eqb_spec a "&") as [->|Hamp].
  - apply andb_true_iff in H as [-> H]. simpl. now rewrite IH.
  - now rewrite IH.
Qed.

(** X2.  A text whose only reserved characters are ampersands that each
    directly follow a backslash is returned unchanged by [escape_latex]. *)
Theorem escape_keeps_escaped_ampersands (x : string) :
  (forall c, In c reserved_chars -> c <> "&"%char -> mem_char c x = false) ->
  amp_guarded false x = true ->
  escape_latex (Some x) = x.
Proof.
  intros H Hamp. change (escape_latex (Some x)) with (esc x).
  rewrite esc_ensure_amp, ensure_amp_guarded_id by exact Hamp.
  assert (Hc : forall c r, In c reserved_chars -> c <> "&"%char ->
                 replace (String c "") r x = x).
  { intros c r Hin Hne. apply replace_char_absent. now apply H. }
  cbv [apply_replacements replacements fold_left fst snd].
  rewrite (Hc "%"%char) by (simpl; tauto || discriminate).
  rewrite (Hc "$"%char) by (simpl; tauto || discriminate).
  rewrite (Hc "#"%char) by (simpl; tauto || discriminate).
  rewrite (Hc "_"%char) by (simpl; tauto || discriminate).
  rewrite (Hc "{"%char) by (simpl; tauto || discriminate).
  rewrite (Hc "}"%char) by (simpl; tauto || discriminate).
  rewrite (Hc "~"%char) by (simpl; tauto || discriminate).
  apply (Hc "^"%char); [simpl; tauto|discriminate].
Qed.

Lemma escape_keeps_escaped_ampersands_witness :
  escape_latex (Some "R\&D and Q\\&A") = "R\&D and Q\\&A".
Proof.
  apply escape_keeps_escaped_ampersands; [|reflexivity].
  intros c Hin Hne. simpl in Hin.
  repeat (destruct Hin as [<-|Hin]; [first [reflexivity | congruence]|]).
  contradiction.
Defined.

(** X3.  [escape_latex] is its two ampersand lines followed by the loop
    over [replacements], and the two ampersand lines are idempotent: run
    again on their own output they change nothing. *)
Theorem escape_ampersands_only_idempotent (text : string) :
  escape_latex (Some text) = apply_replacements (escape_ampersands_only text)
  /\ escape_ampersands_only (escape_ampersands_only text)
     = escape_ampersands_only text.
Proof.
  split; [reflexivity|].
  unfold escape_ampersands_only.
  rewrite (proj1 (fix_after_amp_pass text)).
  rewrite (proj1 (fix_after_amp_pass (ensure_amp false text))).
  apply ensure_amp_guarded_id, amp_guarded_ensure_amp.
Qed.

Example escape_latex_not_idempotent : esc (esc "a_b") <> esc "a_b".
Proof. vm_compute. discriminate. Qed.

(** ** Escaper: text put together from parts *)

Lemma ends_with_backslash_cons (a : ascii) (x : string) :
  ends_with_backslash (String a x)
  = match x with "" => Ascii.eqb a "\" | _ => ends_with_backslash x end.
Proof. destruct x; reflexivity. Qed.

Lemma ensure_amp_app (b : bool) (x y : string) :
  ensure_amp b (x ++ y)
  = ensure_amp b x
    ++ ensure_amp (match x with "" => b | _ => ends_with_backslash x end) y.
Proof.
  revert b; induction x as [|a x IH]; intros b; [reflexivity|].
  rewrite ends_with_backslash_cons.
  change (String a x ++ y) with (String a (x ++ y)).
  cbn [ensure_amp].
  destruct (Ascii.eqb_spec a "&") as [->|Hamp].
  - rewrite IH, app_assoc. now destruct x.
  - rewrite IH. now destruct x.
Qed.

Lemma ensure_amp_flag (b : bool) (y : string) :
  startswith "&" y = false -> ensure_amp b y = ensure_amp false y.
Proof.
  destruct y as [|a y]; [reflexivity|].
  rewrite startswith_cons. intros H. simpl.
  destruct (Ascii.eqb_spec a "&") as [->|Hamp]; [discriminate|reflexivity].
Qed.

(** X4.  Escaping a text made of two parts is escaping the parts, unless
    the first part ends with a backslash and the second starts with an
    ampersand. *)
Theorem escape_of_parts (x y : string) :
  ends_with_backslash x = false \/ startswith "&" y = false ->
  escape_latex (Some (x ++ y))
  = escape_latex (Some x) ++ escape_latex (Some y).
Proof.
  intros H. change (escape_latex (Some ?t)) with (esc t).
  rewrite !esc_ensure_amp, ensure_amp_app, apply_replacements_app.
  f_equal. f_equal.
  destruct x as [|a x]; [reflexivity|].
  destruct H as [H|H]; [now rewrite H|now apply ensure_amp_flag].
Qed.

Lemma escape_of_parts_witness :
  escape_latex (Some ("50% \" ++ "R&D"))
  = escape_latex (Some "50% \") ++ escape_latex (Some "R&D").
Proof. apply escape_of_parts. right. reflexivity. Defined.

Example escape_of_parts_needs_the_condition :
  esc ("\" ++ "&") <> esc "\" ++ esc "&".
Proof. vm_compute. discriminate. Qed.

(** ** Section formatters: lists put together *)

Lemma join_app_nonempty (j : string) (a b : list string) :
  a <> [] -> b <> [] -> join j (a ++ b) = join j a ++ j ++ join j b.
Proof.
  intros Ha Hb. induction a as [|x a IH]; [congruence|].
  destruct a as [|y a].
  - simpl app. now rewrite join_cons.
  - change ((x :: y :: a) ++ b)%list with (x :: ((y :: a) ++ b))%list.
    rewrite join_cons by discriminate. rewrite IH by discriminate.
    rewrite (join_cons j x (y :: a)) by discriminate.
    now rewrite !app_assoc.
Qed.

(** X5.  The formatters of skills, experience, education, awards and
    certifications treat each record on its own: the block of a list put
    together from two lists is the two blocks put together.  Contact links
    do the same with the separator between the two. *)
Theorem formatters_of_appended_lists :
  (forall a b, format_skills (a ++ b) = format_skills a ++ format_skills b)
  /\ (forall a b,
        format_experience (a ++ b) = format_experience a ++ format_experience b)
  /\ (forall a b,
        format_education (a ++ b) = format_education a ++ format_education b)
  /\ (forall a b, format_awards (a ++ b) = format_awards a ++ format_awards b)
  /\ (forall a b,
        format_certifications (a ++ b)
        = format_certifications a ++ format_certifications b)
  /\ (forall a b, a <> [] -> b <> [] ->
        format_contact_links (a ++ b)
        = format_contact_links a ++ " $\vert$ " ++ format_contact_links b).
Proof.
  repeat split; intros a b.
  - unfold format_skills. now rewrite map_app, join_empty_app.
  - unfold format_experience. now rewrite flat_map_app, join_empty_app.
  - unfold format_education. now rewrite map_app, join_empty_app.
  - unfold format_awards. now rewrite map_app, join_empty_app.
  - unfold format_certifications. now rewrite map_app, join_empty_app.
  - intros Ha Hb. unfold format_contact_links. rewrite map_app.
    apply join_app_nonempty.
    + destruct a; [congruence|discriminate].
    + destruct b; [congruence|discriminate].
Qed.

Lemma formatters_of_appended_lists_witness :
  format_contact_links ([link_reserved] ++ [link_reserved; link_reserved])
  = format_contact_links [link_reserved] ++ " $\vert$ "
    ++ format_contact_links [link_reserved; link_reserved].
Proof.
  apply (proj2 (proj2 (proj2 (proj2 (proj2 formatters_of_appended_lists)))));
    discriminate.
Defined.

Example publications_do_not_concatenate :
  format_publications ([pub_one] ++ [pub_reserved])
  <> format_publications [pub_one] ++ format_publications [pub_reserved].
Proof. vm_compute. discriminate. Qed.

(** ** Publications: spacing where the entries differ *)

(** X6.  Where every earlier entry differs from the last one in its
    authors, its title or its venue - texts, which Python compares by
    content - the spacing directive comes after every entry but the
    last. *)
Theorem publications_spacing_between_distinct
  (l : list Publication) (q : Publication) :
  (forall p, In p l ->
     pub_authors p <> pub_authors q
     \/ pub_title p <> pub_title q
     \/ pub_venue p <> pub_venue q) ->
  format_publications (l ++ [q])
  = join "" (map (fun p => pub_item p ++ "  \vspace{5pt}" ++ nl) l)
    ++ pub_item q.
Proof.
  intros H. apply publications_spacing_distinct.
  intros p Hp. unfold pub_eqb.
  destruct (String.eqb_spec (pub_authors p) (pub_authors q)) as [Ea|_];
    [|reflexivity].
  destruct (String.eqb_spec (pub_title p) (pub_title q)) as [Et|_];
    [|reflexivity].
  destruct (String.eqb_spec (pub_venue p) (pub_venue q)) as [Ev|_];
    [|reflexivity].
  destruct (H p Hp) as [Hn|[Hn|Hn]]; contradiction.
Qed.

Lemma publications_spacing_between_distinct_witness :
  format_publications ([pub_one; pub_one] ++ [pub_reserved])
  = join "" (map (fun p => pub_item p ++ "  \vspace{5pt}" ++ nl)
                 [pub_one; pub_one])
    ++ pub_item pub_reserved.
Proof.
  apply publications_spacing_between_distinct.
  intros p Hp. simpl in Hp.
  repeat (destruct Hp as [<-|Hp]; [left; discriminate|]). contradiction.
Defined.

(** ** Dates and years reach the markup unescaped *)

(** X7.  The formatters interpolate the date fields and the year as they
    are, never through the Escaper: the date range of an experience or
    education entry, the date of an award or a certification and the year
    of a publication stand verbatim in the output. *)
Theorem dates_inserted_verbatim :
  (forall items e, In e items ->
     exists pre post,
       format_experience items
       = pre ++ "}{" ++ exp_date_start e ++ " - " ++ exp_date_end e ++ "}" ++ post)
  /\ (forall items e, In e items ->
        exists pre post,
          format_education items
          = pre ++ "}{" ++ edu_date_start e ++ " -- " ++ edu_date_end e
                ++ "}" ++ post)
  /\ (forall items a, In a items ->
        exists pre post,
          format_awards items
          = pre ++ "{" ++ esc (award_title a) ++ "}{" ++ award_date a
                ++ "}" ++ post)
  /\ (forall items c, In c items ->
        exists pre post,
          format_certifications items
          = pre ++ "{" ++ esc (cert_title c) ++ "}{" ++ cert_date c
                ++ "}" ++ post)
  /\ (forall items p, In p items ->
        exists pre post,
          format_publications items
          = pre ++ ", " ++ pub_year p ++ ". \href{" ++ post).
Proof.
  split; [|split; [|split; [|split]]].
  - intros items e Hin.
    apply (join_In_inside ""
             ("  \resumeSubheading" ++ nl ++
              "  {" ++ esc (exp_title e) ++ "}{"
                    ++ (exp_date_start e ++ " - " ++ exp_date_end e) ++ "}" ++ nl ++
              "  {" ++ company_text e ++ "}{" ++ esc (exp_location e) ++ "}" ++ nl) _
             (fun post => "}{" ++ exp_date_start e ++ " - " ++ exp_date_end e
                          ++ "}" ++ post)).
    + apply in_flat_map. exists e. split; [exact Hin|]. left. reflexivity.
    + intros x y. rewrite !app_assoc. reflexivity.
    + exists ("  \resumeSubheading" ++ nl ++ "  {" ++ esc (exp_title e)),
             (nl ++ "  {" ++ company_text e ++ "}{" ++ esc (exp_location e)
                 ++ "}" ++ nl).
      rewrite !app_assoc. reflexivity.
  - intros items e Hin.
    apply (join_In_inside ""
             ("    \resumeSubheading" ++ nl ++
              "      {" ++ esc (edu_degree e) ++ "}{" ++ edu_date_start e ++ " -- "
                        ++ edu_date_end e ++ "}" ++ nl ++
              "      {" ++ esc (edu_institution e) ++ "}{" ++ esc (edu_location e)
                        ++ "}" ++ nl) _
             (fun post => "}{" ++ edu_date_start e ++ " -- " ++ edu_date_end e
                          ++ "}" ++ post)).
    + apply (in_map (fun edu =>
               "    \resumeSubheading" ++ nl ++
               "      {" ++ esc (edu_degree edu) ++ "}{" ++ edu_date_start edu
                         ++ " -- " ++ edu_date_end edu ++ "}" ++ nl ++
               "      {" ++ esc (edu_institution edu) ++ "}{"
                         ++ esc (edu_location edu) ++ "}" ++ nl) _ _ Hin).
    + intros x y. rewrite !app_assoc. reflexivity.
    + exists ("    \resumeSubheading" ++ nl ++ "      {" ++ esc (edu_degree e)),
             (nl ++ "      {" ++ esc (edu_institution e) ++ "}{"
                 ++ esc (edu_location e) ++ "}" ++ nl).
      rewrite !app_assoc. reflexivity.
  - intros items a Hin.
    apply (join_In_inside "" (award_block a) _
             (fun post => "{" ++ esc (award_title a) ++ "}{" ++ award_date a
                          ++ "}" ++ post)).
    + apply in_map. exact Hin.
    + intros x y. rewrite !app_assoc. reflexivity.
    + exists ("    \resumeSubheading" ++ nl ++ "      "),
             (nl ++ "      {" ++ organization_text a ++ "}{"
                 ++ esc (award_location a) ++ "}" ++ nl).
      unfold award_block. rewrite !app_assoc. reflexivity.
  - intros items c Hin.
    apply (join_In_inside "" (cert_block c) _
             (fun post => "{" ++ esc (cert_title c) ++ "}{" ++ cert_date c
                          ++ "}" ++ post)).
    + apply in_map. exact Hin.
    + intros x y. rewrite !app_assoc. reflexivity.
    + exists ("    \resumeSubheading" ++ nl ++ "      "),
             (nl ++ "      {\href{" ++ cert_url c ++ "}{Certificate}}{"
                 ++ esc (cert_organization c) ++ "}" ++ nl).
      unfold cert_block. rewrite !app_assoc. reflexivity.
  - intros items p Hin.
    apply (join_In_inside "" (pub_item p) _
             (fun post => ", " ++ pub_year p ++ ". \href{" ++ post)).
    + apply in_flat_map. exists p. split; [exact Hin|]. left. reflexivity.
    + intros x y. rewrite !app_assoc. reflexivity.
    + exists ("  \item{"
              ++ replace "M. Ghorbandoost" "\textbf{M. Ghorbandoost}"
                         (esc (pub_authors p))
              ++ ", ``" ++ esc (pub_title p) ++ "'', " ++ esc (pub_venue p)),
             (pub_url p ++ "}{link}}" ++ nl).
      unfold pub_item. rewrite !app_assoc. reflexivity.
Qed.

Lemma dates_inserted_verbatim_witness :
  exists pre post,
    format_education [edu_one]
    = pre ++ "}{" ++ "Sept. 2015 & on" ++ " -- " ++ "2017" ++ "}" ++ post.
Proof.
  apply (proj1 (proj2 dates_inserted_verbatim) [edu_one] edu_one).
  left. reflexivity.
Defined.

(** ** Loading: what is taken for the YAML text *)

Lemma lazy_any_until_eq (lit s : string) :
  lazy_any_until lit s
  = match Re.after lit s with
    | Some _ => Some ""
    | None =>
        match s with
        | "" => None
        | String a s' =>
            match lazy_any_until lit s' with
            | Some g => Some (String a g)
            | None => None
            end
        end
    end.
Proof. destruct s; reflexivity. Qed.

Lemma after_none_startswith (p s : string) :
  Re.after p s = None -> startswith p s = false.
Proof.
  intros H. destruct (startswith p s) eqn:E; [|reflexivity].
  apply startswith_split in E. rewrite E, after_app in H. discriminate.
Qed.

Lemma lazy_any_until_sound (lit s g : string) :
  lazy_any_until lit s = Some g ->
  exists rest, s = g ++ lit ++ rest /\ quiet (startswith lit) g (lit ++ rest).
Proof.
  revert g; induction s as [|a s IH]; intros g H;
    rewrite lazy_any_until_eq in H.
  - destruct (Re.after lit "") as [r|] eqn:E; [|discriminate].
    injection H as <-. apply after_split in E. exists r.
    split; [exact E|apply quiet_nil].
  - destruct (Re.after lit (String a s)) as [r|] eqn:E.
    + injection H as <-. apply after_split in E. exists r.
      split; [exact E|apply quiet_nil].
    + destruct (lazy_any_until lit s) as [g'|] eqn:L; [|discriminate].
      injection H as <-. destruct (IH g' eq_refl) as (rest & Hs & Q).
      exists rest. split; [simpl; now rewrite <- Hs|].
      apply quiet_cons; [|exact Q].
      apply after_none_startswith in E. simpl append. now rewrite <- Hs.
Qed.

Lemma lazy_any_until_complete (lit g rest : string) :
  quiet (startswith lit) g (lit ++ rest) ->
  lazy_any_until lit (g ++ lit ++ rest) = Some g.
Proof.
  induction g as [|a g IH]; intros Q; rewrite lazy_any_until_eq.
  - simpl append. now rewrite after_app.
  - apply quiet_inv in Q as [Hc Q].
    rewrite (after_startswith _ _ Hc).
    change (String a g ++ lit ++ rest) with (String a (g ++ lit ++ rest)).
    cbv iota. now rewrite (IH Q).
Qed.

Lemma quiet_not_contained (lit g r : string) :
  quiet (startswith lit) g r -> lit <> "" -> contains lit g = false.
Proof.
  intros Q Hne. induction g as [|a g IH].
  - destruct lit; [congruence|reflexivity].
  - apply quiet_inv in Q as [Hc Q]. rewrite contains_cons.
    rewrite (IH Q), orb_false_r.
    destruct (startswith lit (String a g)) eqn:E; [|reflexivity].
    apply (startswith_weaken _ _ r) in E. congruence.
Qed.

Lemma border_free_front_close (rest : string) :
  border_free front_close (front_close ++ rest).
Proof.
  intros k H1 H2.
  destruct k as [|[|[|[|k]]]]; try reflexivity; [lia|].
  simpl in H2. lia.
Qed.

Lemma front_matter_found (g rest : string) :
  contains front_close g = false ->
  yaml_match (front_open ++ g ++ front_close ++ rest) = Some g.
Proof.
  intros Hg. unfold yaml_match. rewrite after_app.
  apply lazy_any_until_complete.
  apply (quiet_lit _ front_close); [auto|exact Hg|].
  apply border_free_front_close.
Qed.

Lemma front_matter_shape (content g : string) :
  yaml_match content = Some g ->
  exists rest,
    content = front_open ++ g ++ front_close ++ rest
    /\ contains front_close g = false.
Proof.
  unfold yaml_match. intros H.
  destruct (Re.after front_open content) as [r|] eqn:E; [|discriminate].
  apply after_split in E.
  apply lazy_any_until_sound in H as (rest & Hr & Q).
  exists rest. split; [now rewrite E, Hr|].
  apply (quiet_not_contained _ _ _ Q). discriminate.
Qed.

(** X8.  The regular expression of [load_resume_data] takes for the YAML
    text exactly what stands between an opening marker line at the very
    start of the file and the first closing marker after it: the file is
    the opening marker, the text, the closing marker and anything at all,
    and the text holds no closing marker. *)
Theorem front_matter_is_first_block (content g : string) :
  yaml_match content = Some g
  <-> exists rest,
        content = front_open ++ g ++ front_close ++ rest
        /\ contains front_close g = false.
Proof.
  split.
  - apply front_matter_shape.
  - intros (rest & -> & Hg). now apply front_matter_found.
Qed.

Example front_matter_of_two_blocks :
  yaml_match ("---" ++ nl ++ "name: Ada" ++ nl ++ "---" ++ nl ++ "body"
                    ++ nl ++ "---" ++ nl)
  = Some "name: Ada".
Proof. reflexivity. Qed.

Example front_matter_not_at_start :
  yaml_match (nl ++ "---" ++ nl ++ "name: Ada" ++ nl ++ "---") = None.
Proof. reflexivity. Qed.

Lemma no_front_matter (content : string) :
  startswith front_open content = false
  \/ contains front_close (drop 4 content) = false ->
  yaml_match content = None.
Proof.
  intros H. destruct (yaml_match content) as [g|] eqn:E; [|reflexivity].
  apply front_matter_shape in E as (rest & -> & Hg). exfalso.
  destruct H as [H|H].
  - rewrite startswith_app in H. discriminate.
  - change 4 with (String.length front_open) in H.
    rewrite drop_app in H.
    rewrite contains_app_r in H; [discriminate|].
    now apply (contains_app_l front_close front_close rest).
Qed.

(** X9.  Loading: of a file with front matter only the front matter is
    parsed, whatever follows the closing marker, and a failure of the
    parser is the parser's own error; a file that does not open with the
    marker line, or has no closing marker after it, is parsed whole, and
    there a failure of the parser is a [ValueError]. *)
Theorem load_front_matter_or_whole
  (D : Type) (safe_load : string -> option D) :
  (forall body rest,
     contains front_close body = false ->
     load_resume_data D safe_load (front_open ++ body ++ front_close ++ rest)
     = match safe_load body with
       | Some data => Loaded data
       | None => YamlError
       end)
  /\ (forall content,
        startswith front_open content = false
        \/ contains front_close (drop 4 content) = false ->
        load_resume_data D safe_load content
        = match safe_load content with
          | Some data => Loaded data
          | None => ValueError
          end).
Proof.
  split.
  - intros body rest Hb. unfold load_resume_data.
    now rewrite (front_matter_found body rest Hb).
  - intros content H. unfold load_resume_data.
    now rewrite (no_front_matter content H).
Qed.

Lemma load_front_matter_or_whole_witness :
  load_resume_data string no_tab_load
    (front_open ++ "name: Ada" ++ front_close ++ nl ++ "not YAML: " ++ "{")
  = Loaded "name: Ada"
  /\ load_resume_data string no_tab_load ("--- " ++ nl ++ "name: Ada")
     = Loaded ("--- " ++ nl ++ "name: Ada").
Proof.
  split.
  - apply (proj1 (load_front_matter_or_whole string no_tab_load)
             "name: Ada" (nl ++ "not YAML: " ++ "{")).
    reflexivity.
  - apply (proj2 (load_front_matter_or_whole string no_tab_load)
             ("--- " ++ nl ++ "name: Ada")).
    left. reflexivity.
Defined.

(** ** Names: the words of [str.split()] *)

Lemma cons_word_app (w : string) (ws vs : list string) :
  (cons_word w ws ++ vs)%list = cons_word w (ws ++ vs)%list.
Proof. destruct w; reflexivity. Qed.

Lemma split_ws_aux_space (sp : ascii) (a b : string) :
  isspace sp = true ->
  split_ws_aux (a ++ String sp b)
  = (fst (split_ws_aux a), (snd (split_ws_aux a) ++ split_ws b)%list).
Proof.
  intros Hsp. induction a as [|c a IH].
  - simpl. rewrite Hsp. unfold split_ws.
    now destruct (split_ws_aux b).
  - change (String c a ++ String sp b) with (String c (a ++ String sp b)).
    cbn [split_ws_aux]. rewrite IH.
    destruct (split_ws_aux a) as [w ws]. cbn [fst snd].
    destruct (isspace c); cbn [fst snd]; [|reflexivity].
    now rewrite cons_word_app.
Qed.

Lemma split_ws_space (sp : ascii) (a b : string) :
  isspace sp = true ->
  split_ws (a ++ String sp b) = (split_ws a ++ split_ws b)%list.
Proof.
  intros Hsp. unfold split_ws at 1 2. rewrite (split_ws_aux_space sp a b Hsp).
  destruct (split_ws_aux a) as [w ws]. cbn [fst snd].
  now rewrite cons_word_app.
Qed.

Lemma split_ws_aux_unbroken (w : string) :
  unbroken w = true -> split_ws_aux w = (w, []).
Proof.
  induction w as [|c w IH]; intros H; [reflexivity|].
  simpl in H. apply andb_true_iff in H as [Hc H].
  apply negb_true_iff in Hc.
  cbn [split_ws_aux]. now rewrite (IH H), Hc.
Qed.

Lemma split_ws_unbroken (w : string) :
  unbroken w = true -> split_ws w = cons_word w [].
Proof. intros H. unfold split_ws. now rewrite (split_ws_aux_unbroken w H). Qed.

Lemma split_ws_blank_l (pad s : string) :
  blank pad = true -> split_ws (pad ++ s) = split_ws s.
Proof.
  induction pad as [|c pad IH]; intros H; [reflexivity|].
  simpl in H. apply andb_true_iff in H as [Hc H].
  change (String c pad ++ s) with ("" ++ String c (pad ++ s)).
  rewrite (split_ws_space c "" (pad ++ s) Hc). simpl. now apply IH.
Qed.

Lemma split_ws_blank (pad : string) : blank pad = true -> split_ws pad = [].
Proof.
  intros H. rewrite <- (app_nil_r pad). now rewrite split_ws_blank_l.
Qed.

Lemma split_ws_blank_r (s pad : string) :
  blank pad = true -> split_ws (s ++ pad) = split_ws s.
Proof.
  intros H. destruct pad as [|c pad]; [now rewrite app_nil_r|].
  simpl in H. apply andb_true_iff in H as [Hc H].
  rewrite (split_ws_space c s pad Hc), (split_ws_blank pad H).
  apply List.app_nil_r.
Qed.

Lemma index_last_app (l : list string) (x : string) :
  index_last (l ++ [x]) = Some x.
Proof.
  induction l as [|y l IH]; [reflexivity|].
  simpl app. destruct l as [|z l]; [reflexivity|].
  exact IH.
Qed.

Section NameFacts.

Variable capitalize : string -> string.

(** X10.  A name of fewer than two words gives no derived name: padded
    with any whitespace, a single word (or nothing at all) leaves the
    output at [resume.tex], and so does a missing name. *)
Theorem single_word_name_gives_default (pad1 w pad2 : string) :
  blank pad1 = true -> unbroken w = true -> blank pad2 = true ->
  default_output_name capitalize (Some (pad1 ++ w ++ pad2)) = "resume.tex"
  /\ default_output_name capitalize None = "resume.tex".
Proof.
  intros H1 Hw H2. split; [|reflexivity].
  unfold default_output_name, derived_name.
  rewrite (split_ws_blank_l pad1 _ H1), (split_ws_blank_r w pad2 H2).
  rewrite (split_ws_unbroken w Hw). now destruct w.
Qed.

Lemma ends_blank_split (b : string) :
  ends_blank b = true ->
  exists b' sp, b = b' ++ String sp "" /\ isspace sp = true.
Proof.
  induction b as [|c b IH]; intros H; [discriminate|].
  destruct b as [|d b].
  - exists "", c. split; [reflexivity|exact H].
  - destruct (IH H) as (b' & sp & E & Hsp).
    exists (String c b'), sp. split; [|exact Hsp].
    simpl. now rewrite <- E.
Qed.

(** What stands between the first and the last word ends just before the
    last word. *)
Lemma split_ws_before_last (between last : string) :
  starts_blank between = true -> ends_blank between = true ->
  unbroken last = true -> last <> "" ->
  exists ws, forall first,
    unbroken first = true -> first <> "" ->
    split_ws (first ++ between ++ last) = (first :: ws ++ [last])%list.
Proof.
  intros Hs He Hl Hle.
  assert (Hlast : split_ws last = [last]).
  { rewrite (split_ws_unbroken last Hl). destruct last; [congruence|].
    reflexivity. }
  destruct between as [|sp1 b1]; [discriminate|]. simpl in Hs.
  assert (Hws : exists ws, split_ws (b1 ++ last) = (ws ++ [last])%list).
  { destruct b1 as [|d b1].
    - exists []. exact Hlast.
    - assert (He' : ends_blank (String d b1) = true) by exact He.
      destruct (ends_blank_split _ He') as (b' & sp2 & E & Hsp2).
      exists (split_ws b'). rewrite E, app_assoc.
      change (String sp2 "" ++ last) with (String sp2 last).
      now rewrite (split_ws_space sp2 b' last Hsp2), Hlast. }
  destruct Hws as [ws Hws]. exists ws. intros first Hf Hfe.
  change (String sp1 b1 ++ last) with (String sp1 (b1 ++ last)).
  rewrite (split_ws_space sp1 first _ Hs), Hws.
  rewrite (split_ws_unbroken first Hf). destruct first; [congruence|].
  reflexivity.
Qed.

Lemma derived_name_of_words (name first last : string) (ws : list string) :
  split_ws name = (first :: ws ++ [last])%list ->
  derived_name capitalize (Some name)
  = Some (capitalize first ++ "_" ++ capitalize last).
Proof.
  intros H. unfold derived_name. rewrite H.
  change (first :: ws ++ [last])%list with ((first :: ws) ++ [last])%list.
  rewrite index_last_app. destruct ws; reflexivity.
Qed.

(** X11.  Of a name of two words or more only the first and the last
    count: whatever stands between them (a single blank, more names, more
    whitespace) and whatever whitespace stands around the name, the output
    is [First_Last.tex], each of the two capitalised.  In terms of the
    words [split()] returns: whenever they are a first word, any words and
    a last word, the output name is made of the first and the last. *)
Theorem first_and_last_word_name :
  (forall pad1 first between last pad2,
     blank pad1 = true ->
     unbroken first = true -> first <> "" ->
     starts_blank between = true -> ends_blank between = true ->
     unbroken last = true -> last <> "" ->
     blank pad2 = true ->
     default_output_name capitalize
       (Some (pad1 ++ first ++ between ++ last ++ pad2))
     = (capitalize first ++ "_" ++ capitalize last) ++ ".tex")
  /\ (forall name first ws last,
        split_ws name = (first :: ws ++ [last])%list ->
        default_output_name capitalize (Some name)
        = (capitalize first ++ "_" ++ capitalize last) ++ ".tex").
Proof.
  split.
  - intros pad1 first between last pad2 Hp1 Hf Hfe Hs He Hl Hle Hp2.
    destruct (split_ws_before_last between last Hs He Hl Hle) as [ws Hws].
    unfold default_output_name.
    rewrite (derived_name_of_words _ first last ws); [reflexivity|].
    rewrite (split_ws_blank_l pad1 _ Hp1).
    rewrite <- (app_assoc between last pad2),
      <- (app_assoc first (between ++ last) pad2).
    rewrite (split_ws_blank_r _ pad2 Hp2).
    now apply Hws.
  - intros name first ws last H. unfold default_output_name.
    now rewrite (derived_name_of_words name first last ws H).
Qed.

End NameFacts.

Lemma single_word_name_gives_default_witness :
  default_output_name capitalize_ascii (Some ("  " ++ "ada" ++ " "))
  = "resume.tex"
  /\ default_output_name capitalize_ascii None = "resume.tex".
Proof.
  apply (single_word_name_gives_default capitalize_ascii "  " "ada" " ");
    reflexivity.
Defined.

Lemma first_and_last_word_name_witness :
  default_output_name capitalize_ascii
    (Some ("" ++ "ada" ++ " " ++ "lovelace" ++ ""))
  = ("Ada" ++ "_" ++ "Lovelace") ++ ".tex"
  /\ default_output_name capitalize_ascii
       (Some (" " ++ "ada" ++ "  augusta KING  " ++ "loveLACE" ++ "  "))
     = ("Ada" ++ "_" ++ "Lovelace") ++ ".tex".
Proof.
  split.
  - apply (proj1 (first_and_last_word_name capitalize_ascii)
             "" "ada" " " "lovelace" "");
      first [reflexivity | discriminate].
  - apply (proj1 (first_and_last_word_name capitalize_ascii)
             " " "ada" "  augusta KING  " "loveLACE" "  ");
      first [reflexivity | discriminate].
Defined.

(** ** Paths: endings, directories, base names *)

Lemma drop_length_split (n : nat) (s : string) :
  n <= String.length s ->
  exists x, s = x ++ drop n s /\ String.length x = n.
Proof.
  revert s; induction n as [|n IH]; intros s H.
  - exists "". split; reflexivity.
  - destruct s as [|c s]; [simpl in H; lia|].
    simpl in H. destruct (IH s) as (x & Hx & Hl); [lia|].
    exists (String c x). split; simpl; [now rewrite <- Hx|now rewrite Hl].
Qed.

Lemma endswith_split (e s : string) :
  endswith e s = true -> exists x, s = x ++ e.
Proof.
  unfold endswith. intros H. apply andb_true_iff in H as [_ H].
  apply String.eqb_eq in H.
  destruct (drop_length_split (String.length s - String.length e) s)
    as (x & Hx & _); [lia|].
  exists x. now rewrite H in Hx.
Qed.

Lemma endswith_app (x e : string) : endswith e (x ++ e) = true.
Proof.
  unfold endswith. rewrite length_app. apply andb_true_iff. split.
  - apply Nat.leb_le. lia.
  - replace (String.length x + String.length e - String.length e)
      with (String.length x) by lia.
    rewrite drop_app. apply String.eqb_refl.
Qed.

Lemma endswith_app_l (e q f : string) :
  endswith e f = true -> endswith e (q ++ f) = true.
Proof.
  intros H. apply endswith_split in H as (x & ->).
  rewrite <- app_assoc. apply endswith_app.
Qed.

Lemma endswith_inj (e1 e2 s : string) :
  endswith e1 s = true -> endswith e2 s = true ->
  String.length e1 = String.length e2 -> e1 = e2.
Proof.
  unfold endswith. intros H1 H2 Hl.
  apply andb_true_iff in H1 as [_ H1]. apply andb_true_iff in H2 as [_ H2].
  apply String.eqb_eq in H1, H2. rewrite Hl in H1. congruence.
Qed.

Lemma differs_by_ending (e1 e2 s t : string) :
  endswith e1 s = true -> endswith e2 t = true ->
  String.length e1 = String.length e2 -> e1 <> e2 -> s <> t.
Proof.
  intros H1 H2 Hl Hne E. subst t. apply Hne.
  exact (endswith_inj e1 e2 s H1 H2 Hl).
Qed.

Lemma str_app_inv_head (p a b : string) : p ++ a = p ++ b -> a = b.
Proof.
  induction p as [|c p IH]; intros H; [exact H|].
  simpl in H. injection H as H. now apply IH.
Qed.

Lemma str_app_inv_tail (a b e : string) : a ++ e = b ++ e -> a = b.
Proof.
  revert b; induction a as [|c a IH]; intros b H.
  - destruct b as [|d b]; [reflexivity|].
    apply (f_equal String.length) in H.
    simpl in H. rewrite length_app in H. lia.
  - destruct b as [|d b].
    + apply (f_equal String.length) in H.
      simpl in H. rewrite length_app in H. lia.
    + simpl in H. injection H as -> H. f_equal. now apply IH.
Qed.

Lemma startswith_slash_absent (f : string) :
  mem_char "/" f = false -> startswith "/" f = false.
Proof.
  destruct f as [|c f]; [reflexivity|]. simpl mem_char.
  intros H. apply orb_false_iff in H as [H _].
  now rewrite startswith_cons, H.
Qed.

Lemma path_join_relative (dir f : string) :
  startswith "/" f = false -> path_join dir f = dir_prefix dir ++ f.
Proof.
  intros H. unfold path_join, dir_prefix. rewrite H.
  destruct (String.eqb dir "" || endswith "/" dir); [reflexivity|].
  now rewrite app_assoc.
Qed.

Lemma path_join_ends (dir f e : string) :
  endswith e f = true -> endswith e (path_join dir f) = true.
Proof.
  intros H. unfold path_join.
  destruct (startswith "/" f); [exact H|].
  destruct (String.eqb dir "" || endswith "/" dir).
  - now apply endswith_app_l.
  - apply endswith_app_l. now apply (endswith_app_l e "/" f).
Qed.

(** Two files of one stem stay of one stem under the output directory. *)
Lemma path_join_same_stem (dir n e1 e2 : string) :
  startswith "/" e1 = false -> startswith "/" e2 = false ->
  exists stem,
    path_join dir (n ++ e1) = stem ++ e1
    /\ path_join dir (n ++ e2) = stem ++ e2.
Proof.
  intros H1 H2. destruct n as [|c n].
  - exists (dir_prefix dir). simpl append.
    now rewrite !path_join_relative.
  - destruct (Ascii.eqb "/" c) eqn:Ec.
    + exists (String c n). unfold path_join. simpl append.
      now rewrite !startswith_cons, Ec.
    + exists (dir_prefix dir ++ String c n).
      assert (Hs : forall e, startswith "/" (String c n ++ e) = false).
      { intros e. simpl append. now rewrite startswith_cons, Ec. }
      rewrite !path_join_relative by apply Hs.
      rewrite !app_assoc. split; reflexivity.
Qed.

Lemma rfind_absent (c : ascii) (s : string) :
  mem_char c s = false -> rfind c s = None.
Proof.
  induction s as [|a s IH]; intros H; [reflexivity|].
  simpl in H. apply orb_false_iff in H as [Ha H].
  simpl. rewrite (IH H). now rewrite Ascii.eqb_sym, Ha.
Qed.

Lemma rfind_last (c : ascii) (x y : string) :
  mem_char c y = false ->
  rfind c (x ++ String c y) = Some (String.length x).
Proof.
  intros H. induction x as [|a x IH].
  - simpl. now rewrite (rfind_absent c y H), Ascii.eqb_refl.
  - simpl. now rewrite IH.
Qed.

Lemma basename_plain (f : string) :
  mem_char "/" f = false -> basename f = f.
Proof. intros H. unfold basename. now rewrite (rfind_absent _ _ H). Qed.

Lemma basename_after_slash (x f : string) :
  mem_char "/" f = false -> basename ((x ++ "/") ++ f) = f.
Proof.
  intros H. unfold basename. rewrite app_assoc.
  change ("/" ++ f) with (String "/" f).
  rewrite (rfind_last "/" x f H).
  change (x ++ String "/" f) with (x ++ "/" ++ f).
  rewrite <- app_assoc.
  replace (S (String.length x)) with (String.length (x ++ "/"))
    by (rewrite length_app; simpl; lia).
  apply drop_app.
Qed.

Lemma dir_prefix_shape (dir : string) :
  dir_prefix dir = "" \/ exists x, dir_prefix dir = x ++ "/".
Proof.
  unfold dir_prefix. destruct (String.eqb_spec dir "") as [->|_].
  - now left.
  - simpl orb. destruct (endswith "/" dir) eqn:E.
    + right. now apply endswith_split.
    + right. now exists dir.
Qed.

(** [os.path.basename] undoes [os.path.join] on a plain file name. *)
Lemma basename_path_join (dir f : string) :
  mem_char "/" f = false -> basename (path_join dir f) = f.
Proof.
  intros H. rewrite path_join_relative by now apply startswith_slash_absent.
  destruct (dir_prefix_shape dir) as [->|(x & ->)].
  - now apply basename_plain.
  - now apply basename_after_slash.
Qed.

Section PathFacts.

Variable capitalize : string -> string.
Variable OUTPUT_DIR : string.

Lemma output_name_default (name : option string) :
  derived_name capitalize name = None ->
  output_name capitalize
    (output_path capitalize OUTPUT_DIR None name) name = "resume".
Proof.
  intros E. unfold output_name, output_path, default_output_name.
  rewrite E. now rewrite basename_path_join.
Qed.

Lemma derived_name_underscore (name : option string) (n : string) :
  derived_name capitalize name = Some n -> mem_char "_" n = true.
Proof.
  unfold derived_name. destruct name as [nm|]; [|discriminate].
  destruct (split_ws nm) as [|first [|second rest]]; try discriminate.
  destruct (index_last (first :: second :: rest)); [|discriminate].
  intros H. injection H as <-.
  rewrite mem_char_app. simpl. apply orb_true_r.
Qed.

(** X12.  In the flow of [main] the [.tex] file that is written and the
    PDF that is looked for have the same stem: the two paths differ in
    their extension only, whatever the name and the output directory. *)
Theorem tex_and_pdf_share_the_stem (name : option string) :
  exists stem,
    output_path capitalize OUTPUT_DIR None name = stem ++ ".tex"
    /\ output_pdf capitalize OUTPUT_DIR
         (output_path capitalize OUTPUT_DIR None name) name
       = stem ++ ".pdf".
Proof.
  unfold output_pdf.
  destruct (derived_name capitalize name) as [n|] eqn:E.
  - unfold output_name, output_path, default_output_name. rewrite E.
    now apply path_join_same_stem.
  - rewrite (output_name_default name E).
    unfold output_path, default_output_name. rewrite E.
    now apply (path_join_same_stem OUTPUT_DIR "resume" ".tex" ".pdf").
Qed.

Lemma output_path_ends (name : option string) :
  endswith ".tex" (output_path capitalize OUTPUT_DIR None name) = true.
Proof.
  unfold output_path. apply path_join_ends. unfold default_output_name.
  destruct (derived_name capitalize name); [apply endswith_app|reflexivity].
Qed.

End PathFacts.

(** ** Cleaning up: what is removed and what is kept *)

Lemma differs_from_ending (e1 e2 : string) (dir f t : string) :
  endswith e1 f = true -> endswith e2 t = true ->
  String.length e1 = String.length e2 -> e1 <> e2 ->
  path_join dir f <> t.
Proof.
  intros H1 H2 Hl Hne.
  apply (differs_by_ending e1 e2); auto using path_join_ends.
Qed.

Ltac ending e1 e2 Ht :=
  solve [ apply (differs_from_ending e1 e2);
          [ first [reflexivity | apply endswith_app]
          | exact Ht | reflexivity | discriminate ] ].

Ltac other_ending e2 Ht :=
  first [ ending ".aux" e2 Ht | ending ".log" e2 Ht | ending ".out" e2 Ht
        | ending ".pdf" e2 Ht | ending ".fls" e2 Ht | ending "exmk" e2 Ht
        | ending "x.gz" e2 Ht ].

Section Cleanup.

Variable capitalize : string -> string.
Variable OUTPUT_DIR : string.

Lemma output_name_not_template (name : option string) :
  output_name capitalize (output_path capitalize OUTPUT_DIR None name) name
  <> "template".
Proof.
  destruct (derived_name capitalize name) as [n|] eqn:E.
  - unfold output_name. rewrite E. intros ->.
    apply derived_name_underscore in E. discriminate.
  - rewrite (output_name_default capitalize OUTPUT_DIR name E). discriminate.
Qed.

Lemma output_pdf_ends (latex_file : string) (name : option string) :
  endswith ".pdf" (output_pdf capitalize OUTPUT_DIR latex_file name) = true.
Proof. unfold output_pdf. apply path_join_ends, endswith_app. Qed.

(** X13.  What is removed after a successful run, by [compile_latex] and
    by [main], is neither the [.tex] file nor the PDF, as long as the
    derived name has no path separator in it. *)
Theorem cleanup_spares_the_results (name : option string) :
  mem_char "/"
    (output_name capitalize (output_path capitalize OUTPUT_DIR None name) name)
  = false ->
  ~ In (output_path capitalize OUTPUT_DIR None name)
       (removed_files capitalize OUTPUT_DIR
          (output_path capitalize OUTPUT_DIR None name) name)
  /\ ~ In (output_pdf capitalize OUTPUT_DIR
             (output_path capitalize OUTPUT_DIR None name) name)
          (removed_files capitalize OUTPUT_DIR
             (output_path capitalize OUTPUT_DIR None name) name).
Proof.
  intros Hn.
  pose proof (output_path_ends capitalize OUTPUT_DIR name) as Htex.
  pose proof (output_name_not_template name) as Hnt.
  set (tex := output_path capitalize OUTPUT_DIR None name) in *.
  pose proof (output_pdf_ends tex name) as Hpdf.
  split; intros Hin;
    unfold removed_files, aux_files, files_to_clean, template_files,
      resume_files in Hin;
    cbn [List.app map In] in Hin.
  - repeat (destruct Hin as [Hin|Hin];
            [revert Hin; other_ending ".tex" Htex|]).
    exact Hin.
  - repeat (destruct Hin as [Hin|Hin];
            [revert Hin; try other_ending ".pdf" Hpdf|]);
      [|exact Hin].
    intros Hin. unfold output_pdf in Hin.
    rewrite !path_join_relative in Hin.
    + apply str_app_inv_head in Hin.
      change "template.pdf" with ("template" ++ ".pdf") in Hin.
      apply str_app_inv_tail in Hin. now apply Hnt.
    + apply startswith_slash_absent. rewrite mem_char_app, Hn. reflexivity.
    + reflexivity.
Qed.

End Cleanup.

Lemma cleanup_spares_the_results_witness :
  ~ In "out/Ada_Lovelace.tex"
       (removed_files capitalize_ascii "out" "out/Ada_Lovelace.tex"
          (Some "ada lovelace"))
  /\ ~ In "out/Ada_Lovelace.pdf"
          (removed_files capitalize_ascii "out" "out/Ada_Lovelace.tex"
             (Some "ada lovelace")).
Proof.
  apply (cleanup_spares_the_results capitalize_ascii "out"
           (Some "ada lovelace")).
  reflexivity.
Defined.

Example cleanup_can_remove_the_pdf :
  In (output_pdf capitalize_ascii "/a_B"
        (output_path capitalize_ascii "/a_B" None (Some "/a b/template"))
        (Some "/a b/template"))
     (removed_files capitalize_ascii "/a_B"
        (output_path capitalize_ascii "/a_B" None (Some "/a b/template"))
        (Some "/a b/template")).
Proof. vm_compute. tauto. Qed.

(** ** Inline links: an ampersand escaped beforehand in the url *)










Example escaped_ampersands_only_the_first :
  translate_links "[t](http://e.org/?a=1\&b=2\&c=3) x"
  = "\href{http://e.org/?a=1&b=2\&c=3}{t} x".
Proof. vm_compute. reflexivity. Qed.
